(** * gosaml2: decoding and validating an encoded SAML response

    A shallow embedding of [decode_response.go] (package [saml2]) and the
    properties of its decode / validate / decrypt pipeline.

    The Go code works on a mutable [*etree.Element] tree, keeps a few local
    variables that its closures update, and calls into external packages
    (encoding/base64, compress/flate, etree, goxmldsig, the key store).
    The embedding threads all mutable data through an explicit [State],
    returns Go's [error] through the [Err] outcome and a Go panic through
    [Panic], and takes the external packages as a record of functions. *)

From Stdlib Require Import String List Bool Arith Lia.
Import ListNotations.
Open Scope string_scope.

Set Warnings "-register-all".

(** ** Data *)

(** [[]byte] *)
Definition bytes := string.

(** The address of an [*etree.Element]: Go compares elements by pointer. *)
Definition ptr := nat.

(** [etree.Element], as far as the code looks at it.  An element is known
    by its address [addr]: two elements of one tree have two addresses.
    [Parent] is what [Parent()] returns: [None] is the nil pointer,
    [Some (a, t)] is the element at address [a], whose [Tag] is [t]; it is a
    field of its own, so that a tree whose parent pointers do not follow
    its [Child] lists can be written down too.  [Child] lists the child
    elements in document order ([ChildElements()]). *)
Inductive Element : Type :=
  mkElement {
    addr : ptr;
    Space : string;
    Tag : string;
    Attr : list (string * string);
    Text : string;
    Parent : option (ptr * string);
    Child : list Element
  }.

(** [etree.Document]: [Root()] is nil when the document has no element. *)
Record Document := mkDocument { Root : option Element }.

(** [tls.Certificate] *)
Record Certificate := mkCertificate {
  CertificateChain : list bytes;
  PrivateKey : string
}.

(** [dsig.X509KeyStore]: the type switch of [getDecryptCert] tells
    [dsig.TLSCertKeyStore] from every other implementation, of which only
    [GetKeyPair()] is used. *)
Inductive X509KeyStore :=
| TLSCertKeyStore (crt : Certificate)
| OtherKeyStore (GetKeyPair : string + (string * bytes)).

(** The fields of [SAMLServiceProvider] this file reads. *)
Record SAMLServiceProvider := mkSP {
  IDPCertificateStore : string;
  Clock : nat;
  AssertionConsumerServiceURL : string;
  SPKeyStore : option X509KeyStore;
  SkipSignatureValidation : bool
}.

(** [dsig.ValidationContext] *)
Record ValidationContext := mkValidationContext {
  CertificateStore : string;
  ctxClock : nat
}.

(** [types.Response]: the two attributes checked here, the rest opaque. *)
Record Response := mkResponse {
  Destination : string;
  Version : string;
  Payload : string
}.

(** [types.EncryptedAssertion] is only passed on to [DecryptBytes]. *)
Definition EncryptedAssertion := string.

(** [ErrInvalidValue]; a field the struct literal leaves out holds the
    empty string, Go's zero value. *)
Record InvalidValue := mkInvalidValue {
  Reason : string;
  Key : string;
  Expected : string;
  Actual : string
}.

(** Go [error] values. *)
Inductive error :=
| ErrMissingSignature                 (* dsig.ErrMissingSignature *)
| ErrTraversalHalted                  (* etreeutils.ErrTraversalHalted *)
| Errorf (msg : string)               (* fmt.Errorf(...) *)
| ErrInvalidValue (v : InvalidValue)
| ErrExternal (msg : string).         (* an error of an external package *)

(** What [ctx.Validate(el)] of goxmldsig returns: an element (possibly nil)
    with a nil error, [dsig.ErrMissingSignature], or another error. *)
Inductive ValidateResult :=
| Validated (el : option Element)
| MissingSignature
| Invalid (reason : string).

(** Calls into the external capabilities that the properties talk about. *)
Inductive event :=
| NSDetatchCall (el : Element)
| ValidateCall (el : Element)
| GetKeyPairCall
| DecryptBytesCall (enc : EncryptedAssertion) (cert : Certificate).

(** ** External packages and constants declared outside this file *)

Record Externals := mkExternals {
  (* etreeutils.NSContext *)
  NSContext : Type;
  DefaultNSContext : NSContext;
  SubContext : NSContext -> Element -> string + NSContext;
  LookupPrefix : NSContext -> string -> string + string;
  NSDetatch : NSContext -> Element -> string + Element;
  (* encoding/base64, compress/flate, etree, encoding/xml *)
  base64_DecodeString : string -> string + bytes;
  flate_ReadAll : bytes -> string + bytes;
  ReadFromBytes : bytes -> string + Document;
  WriteToBytes : Element -> string + bytes;
  xml_Unmarshal_EncryptedAssertion : bytes -> string + EncryptedAssertion;
  xml_Unmarshal_Response : bytes -> string + Response;
  (* types.EncryptedAssertion.DecryptBytes, dsig.ValidationContext.Validate *)
  DecryptBytes : EncryptedAssertion -> Certificate -> string + bytes;
  dsig_Validate : ValidationContext -> Element -> ValidateResult;
  (* the checks of sp.Validate beyond validateResponseAttributes *)
  validateExtended : SAMLServiceProvider -> Response -> option error;
  (* error.Error() of ErrInvalidValue *)
  InvalidValue_Error : InvalidValue -> string;
  (* constants of the package *)
  SAMLAssertionNamespace : string;
  AssertionTag : string;
  EncryptedAssertionTag : string;
  DestinationAttr : string;
  ReasonUnsupported : string
}.

(** ** State, outcomes and the monad *)

(** What one call can read and write: the struct behind the receiver [sp],
    the element the local variable [el] points to, the variables captured
    by the two closures, and the calls made so far (newest first). *)
Record State := mkState {
  sp : SAMLServiceProvider;
  el : Element;
  decryptCert : option Certificate;
  signedAssertions : nat;
  unsignedAssertions : nat;
  calls : list event
}.

Inductive outcome (A : Type) :=
| Ok (a : A)
| Err (e : error)
| Panic (msg : string).

Arguments Ok {A} a.
Arguments Err {A} e.
Arguments Panic {A} msg.

Definition M (A : Type) := State -> outcome A * State.

Definition ret {A} (a : A) : M A := fun s => (Ok a, s).

Definition bind {A B} (m : M A) (k : A -> M B) : M B :=
  fun s =>
    match m s with
    | (Ok a, s') => k a s'
    | (Err e, s') => (Err e, s')
    | (Panic msg, s') => (Panic msg, s')
    end.

Definition fail {A} (e : error) : M A := fun s => (Err e, s).
Definition panic {A} (msg : string) : M A := fun s => (Panic msg, s).
Definition gets {A} (f : State -> A) : M A := fun s => (Ok (f s), s).
Definition modify (f : State -> State) : M unit := fun s => (Ok tt, f s).

(** [err := m; ...] where the code goes on to inspect [err]. *)
Definition catch (m : M unit) : M (option error) :=
  fun s =>
    match m s with
    | (Ok _, s') => (Ok None, s')
    | (Err e, s') => (Ok (Some e), s')
    | (Panic msg, s') => (Panic msg, s')
    end.

Declare Scope go_scope.
Delimit Scope go_scope with go.
Notation "x <- m ;; k" := (bind m (fun x => k))
  (at level 100, m at next level, right associativity) : go_scope.
Notation "m ;; k" := (bind m (fun _ => k))
  (at level 100, right associativity) : go_scope.
Open Scope go_scope.

Definition set_el (x : Element) (s : State) : State :=
  mkState (sp s) x (decryptCert s) (signedAssertions s)
    (unsignedAssertions s) (calls s).
Definition set_decryptCert (c : option Certificate) (s : State) : State :=
  mkState (sp s) (el s) c (signedAssertions s) (unsignedAssertions s) (calls s).
Definition set_signedAssertions (n : nat) (s : State) : State :=
  mkState (sp s) (el s) (decryptCert s) n (unsignedAssertions s) (calls s).
Definition set_unsignedAssertions (n : nat) (s : State) : State :=
  mkState (sp s) (el s) (decryptCert s) (signedAssertions s) n (calls s).
Definition set_calls (l : list event) (s : State) : State :=
  mkState (sp s) (el s) (decryptCert s) (signedAssertions s)
    (unsignedAssertions s) l.
Definition set_sp (p : SAMLServiceProvider) (s : State) : State :=
  mkState p (el s) (decryptCert s) (signedAssertions s)
    (unsignedAssertions s) (calls s).

(** Record a call into an external capability. *)
Definition call (ev : event) : M unit :=
  modify (fun s => set_calls (ev :: calls s) s).

(** A result of an external package, its error taken as it is. *)
Definition lift {A} (r : string + A) : M A :=
  match r with
  | inl msg => fail (ErrExternal msg)
  | inr a => ret a
  end.

(** ** etree: the tree operations the code uses

    The methods act on the element [el] of the state, the only element the
    code changes. *)

Definition set_Parent (p : option (ptr * string)) (e : Element) : Element :=
  mkElement (addr e) (Space e) (Tag e) (Attr e) (Text e) p (Child e).
Definition set_Child (cs : list Element) (e : Element) : Element :=
  mkElement (addr e) (Space e) (Tag e) (Attr e) (Text e) (Parent e) cs.

(** The children left once the first one at address [a] is taken out;
    [None] when no child has that address. *)
Fixpoint remove_child (a : ptr) (cs : list Element) : option (list Element) :=
  match cs with
  | [] => None
  | c :: rest =>
      if Nat.eqb (addr c) a then Some rest
      else match remove_child a rest with
           | Some rest' => Some (c :: rest')
           | None => None
           end
  end.

(** [el.RemoveChild(t)]: returns [t] when it was a child, nil otherwise. *)
Definition RemoveChild (t : Element) : M (option Element) :=
  fun s =>
    match remove_child (addr t) (Child (el s)) with
    | Some cs => (Ok (Some t), set_el (set_Child cs (el s)) s)
    | None => (Ok None, s)
    end.

(** The panic of the Go runtime on a nil pointer. *)
Definition nil_dereference : string :=
  "runtime error: invalid memory address or nil pointer dereference".

(** [el.AddChild(t)]: [t] becomes the last child and its parent is [el];
    on a nil [t] the method dereferences a nil pointer. *)
Definition AddChild (t : option Element) : M unit :=
  match t with
  | None => panic nil_dereference
  | Some c =>
      modify (fun s =>
        let r := el s in
        let c' := set_Parent (Some (addr r, Tag r)) c in
        set_el (set_Child (Child r ++ [c']) r) s)
  end.

(** ** The functions of decode_response.go *)

Section DecodeResponse.

Context (X : Externals).

(** [err.Error()], which [%v] prints. *)
Definition Error (e : error) : string :=
  match e with
  | ErrMissingSignature => "Missing signature referencing the top-level element"
  | ErrTraversalHalted => "traversal halted"
  | Errorf msg => msg
  | ErrInvalidValue v => InvalidValue_Error X v
  | ErrExternal msg => msg
  end.

(** [if err != nil { return fmt.Errorf(prefix + "%v", err) }] *)
Definition wrapf {A} (prefix : string) (m : M A) : M A :=
  fun s =>
    match m s with
    | (Err e, s') => (Err (Errorf (prefix ++ Error e)), s')
    | r => r
    end.

Definition liftE {A} (r : error + A) : M A :=
  match r with
  | inl e => fail e
  | inr a => ret a
  end.

Definition validationContext (p : SAMLServiceProvider) : ValidationContext :=
  mkValidationContext (IDPCertificateStore p) (Clock p).

Definition validateResponseAttributes (p : SAMLServiceProvider)
    (response : Response) : option error :=
  if negb (Destination response =? AssertionConsumerServiceURL p) then
    Some (ErrInvalidValue
            {| Reason := EmptyString;
               Key := DestinationAttr X;
               Expected := AssertionConsumerServiceURL p;
               Actual := Destination response |})
  else if negb (Version response =? "2.0") then
    Some (ErrInvalidValue
            {| Reason := ReasonUnsupported X;
               Key := "SAML version";
               Expected := "2.0";
               Actual := Version response |})
  else None.

(** [doc.SetRoot(el); doc.WriteToBytes(); xml.Unmarshal(data, obj)], with
    [unmarshal] the decoder of the type of [obj]. *)
Definition xmlUnmarshalElement {A} (unmarshal : bytes -> string + A)
    (e : Element) : error + A :=
  match WriteToBytes X e with
  | inl err => inl (ErrExternal err)
  | inr data =>
      match unmarshal data with
      | inl err => inl (ErrExternal err)
      | inr obj => inr obj
      end
  end.

Definition getDecryptCert : M Certificate :=
  store <- gets (fun s => SPKeyStore (sp s));;
  match store with
  | None => fail (Errorf "no decryption certs available")
  | Some (TLSCertKeyStore crt) => ret crt
  | Some (OtherKeyStore GetKeyPair) =>
      call GetKeyPairCall;;
      match GetKeyPair with
      | inl err => fail (Errorf ("error getting keypair: " ++ err))
      | inr (pk, cert) => ret (mkCertificate [cert] pk)
      end
  end.

(** ** etreeutils: depth-first search for elements by namespace and tag

    [NSTraverse] and [NSFindIterate] belong to goxmldsig, not to this
    package; the two passes hand them their closures, so they are written
    out here after that package's source rather than taken as opaque
    functions.  Namespace contexts stay abstract. *)

Definition NSIterHandler := NSContext X -> Element -> M unit.

(** [etreeutils.NSTraverse]: the handler runs on the element, then on the
    elements below each child in turn; the first error ends the traversal.
    The children are those the element has when its handler returns. *)
Fixpoint NSTraverse (ctx : NSContext X) (e : Element) (handle : NSIterHandler)
    {struct e} : M unit :=
  match SubContext X ctx e with
  | inl err => fail (ErrExternal err)
  | inr ctx' =>
      handle ctx' e;;
      (fix each (cs : list Element) : M unit :=
         match cs with
         | [] => ret tt
         | child :: rest => NSTraverse ctx' child handle;; each rest
         end) (Child e)
  end.

(** [etreeutils.NSFindIterate] *)
Definition NSFindIterate (e : Element) (namespace tag : string)
    (handleFn : NSIterHandler) : M unit :=
  err <- catch (NSTraverse (DefaultNSContext X) e (fun ctx c =>
           currentNS <- lift (LookupPrefix X ctx (Space c));;
           if (currentNS =? namespace) && (Tag c =? tag)
           then handleFn ctx c
           else ret tt));;
  match err with
  | Some ErrTraversalHalted => ret tt
  | Some e' => fail e'
  | None => ret tt
  end.

(** ** decryptAssertions *)

(** The closure [decryptAssertion]; [el] and [decryptCert] are the captured
    variables, held in the state. *)
Definition decryptAssertion (ctx : NSContext X) (encryptedElement : Element)
    : M unit :=
  root <- gets el;;
  match Parent encryptedElement with
  | None => panic nil_dereference
  | Some (a, parentTag) =>
      if negb (a =? addr root)%nat then
        fail (Errorf ("found encrypted assertion with unexpected parent element: "
                        ++ parentTag))
      else
        detached <- wrapf "unable to detach encrypted assertion: "
                      (call (NSDetatchCall encryptedElement);;
                       lift (NSDetatch X ctx encryptedElement));;
        encryptedAssertion <- wrapf "unable to unmarshal encrypted assertion: "
                      (liftE (xmlUnmarshalElement
                                (xml_Unmarshal_EncryptedAssertion X) detached));;
        cached <- gets decryptCert;;
        cert <- match cached with
                | Some c => ret c
                | None =>
                    c <- wrapf "unable to get decryption certificate: "
                           getDecryptCert;;
                    modify (set_decryptCert (Some c));;
                    ret c
                end;;
        raw <- wrapf "unable to decrypt encrypted assertion: "
                 (call (DecryptBytesCall encryptedAssertion cert);;
                  lift (DecryptBytes X encryptedAssertion cert));;
        match ReadFromBytes X raw with
        | inl _ =>
            (* the message prints derr, which is nil here *)
            fail (Errorf
              "unable to create element from decrypted assertion bytes: <nil>")
        | inr doc =>
            removed <- RemoveChild encryptedElement;;
            match removed with
            | None => panic "unable to remove encrypted assertion"
            | Some _ => AddChild (Root doc)
            end
        end
  end.

(** [sp.decryptAssertions(el)], [el] being the element of the state. *)
Definition decryptAssertions : M unit :=
  modify (set_decryptCert None);;
  root <- gets el;;
  NSFindIterate root (SAMLAssertionNamespace X) (EncryptedAssertionTag X)
    decryptAssertion.

(** ** validateAssertionSignatures *)

(** [ctx.Validate(el)] of goxmldsig. *)
Definition ctxValidate (ctx : ValidationContext) (e : Element)
    : M ValidateResult :=
  call (ValidateCall e);;
  ret (dsig_Validate X ctx e).

Definition validateElementSignature (e : Element) : M ValidateResult :=
  p <- gets sp;;
  ctxValidate (validationContext p) e.

(** The closure [validateAssertion]. *)
Definition validateAssertion (ctx : NSContext X) (unverifiedAssertion : Element)
    : M unit :=
  root <- gets el;;
  match Parent unverifiedAssertion with
  | None => panic nil_dereference
  | Some (a, parentTag) =>
      if negb (a =? addr root)%nat then
        fail (Errorf ("found assertion with unexpected parent element: "
                        ++ parentTag))
      else
        detached <- wrapf "unable to detach unverified assertion: "
                      (call (NSDetatchCall unverifiedAssertion);;
                       lift (NSDetatch X ctx unverifiedAssertion));;
        p <- gets sp;;
        r <- ctxValidate (validationContext p) detached;;
        match r with
        | MissingSignature =>
            modify (fun s => set_unsignedAssertions (S (unsignedAssertions s)) s)
        | Invalid reason => fail (ErrExternal reason)
        | Validated assertion =>
            removed <- RemoveChild unverifiedAssertion;;
            match removed with
            | None => panic "unable to remove assertion"
            | Some _ =>
                AddChild assertion;;
                modify (fun s => set_signedAssertions (S (signedAssertions s)) s)
            end
        end
  end.

(** The end of [validateAssertionSignatures], lines 188-194: the verdict
    on the two counters once the search is over. *)
Definition tally : M unit :=
  signed <- gets signedAssertions;;
  unsigned <- gets unsignedAssertions;;
  if (0 <? signed)%nat && (0 <? unsigned)%nat then
    fail (Errorf "invalid to have both signed and unsigned assertions")
  else if (signed <? 1)%nat then
    fail ErrMissingSignature
  else ret tt.

(** [sp.validateAssertionSignatures(el)] *)
Definition validateAssertionSignatures : M unit :=
  modify (set_signedAssertions 0);;
  modify (set_unsignedAssertions 0);;
  root <- gets el;;
  NSFindIterate root (SAMLAssertionNamespace X) (AssertionTag X)
    validateAssertion;;
  tally.

(** ** ValidateEncodedResponse *)

(** Modelled from the spec: [sp.Validate] is declared in another file of
    the package.  Section 4.5, step 6: "Run semantic attribute validation
    (see below) and any caller-supplied extended validation.  Failure is
    terminal." *)
Definition Validate (response : Response) : M unit :=
  p <- gets sp;;
  match validateResponseAttributes p response with
  | Some err => fail err
  | None =>
      match validateExtended X p response with
      | Some err => fail err
      | None => ret tt
      end
  end.

(** The body of [ValidateEncodedResponse] is cut in four, last part first.
    Lines 258-269: unmarshal the element and validate the typed response. *)
Definition unmarshalAndValidate : M Response :=
  root <- gets el;;
  decodedResponse <- wrapf "unable to unmarshal response: "
                       (liftE (xmlUnmarshalElement (xml_Unmarshal_Response X) root));;
  Validate decodedResponse;;
  ret decodedResponse.

(** Lines 247-256. *)
Definition enforceSignatures (responseSignatureValidated : bool) : M unit :=
  skip <- gets (fun s => SkipSignatureValidation (sp s));;
  if negb skip then
    err <- catch validateAssertionSignatures;;
    match err with
    | Some ErrMissingSignature =>
        if negb responseSignatureValidated then
          fail (Errorf "response and/or assertions must be signed")
        else ret tt
    | Some err' => fail err'
    | None => ret tt
    end
  else ret tt.

(** Lines 227-245, [root] being [doc.Root()]. *)
Definition validateRoot (root : Element) : M bool :=
  skip <- gets (fun s => SkipSignatureValidation (sp s));;
  responseSignatureValidated <-
    (if negb skip then
       r <- validateElementSignature root;;
       match r with
       | MissingSignature => modify (set_el root);; ret false
       | Invalid reason => fail (ErrExternal reason)
       | Validated None => fail (Errorf "missing transformed response")
       | Validated (Some validated) => modify (set_el validated);; ret true
       end
     else modify (set_el root);; ret false);;
  decryptAssertions;;
  ret responseSignatureValidated.

(** Lines 201-225. *)
Definition decode (encodedResponse : string) : error + Element :=
  match base64_DecodeString X encodedResponse with
  | inl err => inl (ErrExternal err)
  | inr raw =>
      let parsed :=
        match ReadFromBytes X raw with
        | inr doc => inr doc
        | inl _ =>
            match flate_ReadAll X raw with
            | inl err => inl (ErrExternal err)
            | inr buf =>
                match ReadFromBytes X buf with
                | inl err => inl (ErrExternal err)
                | inr doc => inr doc
                end
            end
        end in
      match parsed with
      | inl err => inl err
      | inr doc =>
          match Root doc with
          | None => inl (Errorf "unable to parse response")
          | Some root => inr root
          end
      end
  end.

Definition ValidateEncodedResponse (encodedResponse : string) : M Response :=
  root <- liftE (decode encodedResponse);;
  responseSignatureValidated <- validateRoot root;;
  enforceSignatures responseSignatureValidated;;
  unmarshalAndValidate.

End DecodeResponse.

(** * Vocabulary of the properties *)

Section Vocabulary.

Context (X : Externals).

(** ** The traversal as a list of visits

    [SubContext] and [LookupPrefix] do not depend on the state, so the
    order in which [NSTraverse] reaches the elements is known beforehand:
    [plan] lists the visits, a failing [SubContext] marked by [Abort]. *)

Inductive visit :=
| Abort (err : string)
| Visit (ctx : NSContext X) (e : Element).

Fixpoint plan (ctx : NSContext X) (e : Element) {struct e} : list visit :=
  match SubContext X ctx e with
  | inl err => [Abort err]
  | inr ctx' =>
      Visit ctx' e ::
      (fix each (cs : list Element) : list visit :=
         match cs with
         | [] => []
         | child :: rest => (plan ctx' child ++ each rest)%list
         end) (Child e)
  end.

(** The loops over the children in [NSTraverse] and in [plan], named. *)
Definition traverseChildren (ctx : NSContext X) (handle : NSIterHandler X)
    : list Element -> M unit :=
  fix each (cs : list Element) : M unit :=
    match cs with
    | [] => ret tt
    | child :: rest => NSTraverse X ctx child handle;; each rest
    end.

Definition planChildren (ctx : NSContext X) : list Element -> list visit :=
  fix each (cs : list Element) : list visit :=
    match cs with
    | [] => []
    | child :: rest => (plan ctx child ++ each rest)%list
    end.

(** The handler on each visit in turn, up to the first failure. *)
Fixpoint runPlan (handle : NSIterHandler X) (l : list visit) : M unit :=
  match l with
  | [] => ret tt
  | Abort err :: _ => fail (ErrExternal err)
  | Visit ctx e :: rest => handle ctx e;; runPlan handle rest
  end.

(** The visits on which [NSFindIterate] calls its handler: those whose
    element has the namespace and tag looked for; a failing
    [LookupPrefix] aborts like a failing [SubContext]. *)
Definition select (namespace tag : string) (v : visit) : list visit :=
  match v with
  | Abort err => [Abort err]
  | Visit ctx c =>
      match LookupPrefix X ctx (Space c) with
      | inl err => [Abort err]
      | inr currentNS =>
          if (currentNS =? namespace) && (Tag c =? tag) then [Visit ctx c]
          else []
      end
  end.

(** The elements that [NSFindIterate] locates below [e], in order. *)
Definition found (namespace tag : string) (e : Element) : list visit :=
  flat_map (select namespace tag) (plan (DefaultNSContext X) e).

(** The search selects no element of the tree. *)
Definition no_visit (l : list visit) : Prop :=
  forall ctx c, ~ In (Visit ctx c) l.

(** [NSFindIterate]'s treatment of the error of the traversal. *)
Definition halt (err : option error) : M unit :=
  match err with
  | Some ErrTraversalHalted => ret tt
  | Some e' => fail e'
  | None => ret tt
  end.

(** Handlers that never return [ErrTraversalHalted]: for them
    [NSFindIterate] is the run of the plan. *)
Definition never_halts (handle : NSIterHandler X) : Prop :=
  forall ctx c s s', handle ctx c s <> (Err ErrTraversalHalted, s').

(** ** States *)

(** The state once the call [ev] is on record. *)
Definition logged (ev : event) (s : State) : State :=
  set_calls (ev :: calls s) s.

(** The counters at the start of [validateAssertionSignatures]. *)
Definition reset (s : State) : State :=
  set_unsignedAssertions 0 (set_signedAssertions 0 s).

(** The provider and the identity of [el] are those of [s0]. *)
Definition anchored (s0 s : State) : Prop :=
  sp s = sp s0 /\ addr (el s) = addr (el s0) /\ Tag (el s) = Tag (el s0).

(** Two states with the same provider that agree on [el], on the cached
    certificate and on the counters, as far as the flags ask. *)
Definition agree (e c n : bool) (s s' : State) : Prop :=
  sp s = sp s' /\
  (e = true -> el s = el s') /\
  (c = true -> decryptCert s = decryptCert s') /\
  (n = true -> signedAssertions s = signedAssertions s' /\
               unsignedAssertions s = unsignedAssertions s').

(** From a state in [P], [m] ends well in a state in [Q a], or ends with
    an error or a panic in a state in [R]. *)
Definition hoare {A} (P : State -> Prop) (m : M A)
    (Q : A -> State -> Prop) (R : State -> Prop) : Prop :=
  forall s, P s ->
    match m s with
    | (Ok a, s') => Q a s'
    | (_, s') => R s'
    end.

(** From states related by [P], [m] ends the same way in both: well, in
    states related by [Q], or not, in states related by [R]. *)
Definition rel {A} (P : State -> State -> Prop) (m : M A)
    (Q R : State -> State -> Prop) : Prop :=
  forall s s', P s s' ->
    fst (m s) = fst (m s') /\
    match fst (m s) with
    | Ok _ => Q (snd (m s)) (snd (m s'))
    | _ => R (snd (m s)) (snd (m s'))
    end.

(** ** The decryption key *)

(** What [getDecryptCert] returns for a given provider. *)
Definition resolve (p : SAMLServiceProvider) : error + Certificate :=
  match SPKeyStore p with
  | None => inl (Errorf "no decryption certs available")
  | Some (TLSCertKeyStore crt) => inr crt
  | Some (OtherKeyStore (inl err)) =>
      inl (Errorf ("error getting keypair: " ++ err))
  | Some (OtherKeyStore (inr (pk, cert))) => inr (mkCertificate [cert] pk)
  end.

(** The call [getDecryptCert] makes for it, if any. *)
Definition asks (p : SAMLServiceProvider) : list event :=
  match SPKeyStore p with
  | Some (OtherKeyStore _) => [GetKeyPairCall]
  | _ => []
  end.

(** The certificate step of [decryptAssertion]: the cached certificate,
    or the resolved one, then cached. *)
Definition obtain (s : State) : (error * State) + (Certificate * State) :=
  match decryptCert s with
  | Some c => inr (c, s)
  | None =>
      let s1 := set_calls (asks (sp s) ++ calls s) s in
      match resolve (sp s) with
      | inl e =>
          inl (Errorf ("unable to get decryption certificate: " ++ Error X e),
               s1)
      | inr c => inr (c, set_decryptCert (Some c) s1)
      end
  end.

(** The certificate in the cache is the one the key store resolves to. *)
Definition cache_sound (s : State) : Prop :=
  forall cert, decryptCert s = Some cert -> resolve (sp s) = inr cert.

(** The provider with another key store. *)
Definition with_store (store : option X509KeyStore) (p : SAMLServiceProvider)
    : SAMLServiceProvider :=
  mkSP (IDPCertificateStore p) (Clock p) (AssertionConsumerServiceURL p)
    store (SkipSignatureValidation p).

Definition is_lookup (ev : event) : bool :=
  match ev with
  | GetKeyPairCall => true
  | _ => false
  end.

(** How many times the key store was asked for its key pair. *)
Definition lookups (l : list event) : nat := length (filter is_lookup l).

(** Events that follow the resolution of the key: detaching a further
    element, decrypting with the resolved certificate. *)
Definition quiet (p : SAMLServiceProvider) (ev : event) : Prop :=
  match ev with
  | NSDetatchCall _ => True
  | DecryptBytesCall _ cert => resolve p = inr cert
  | _ => False
  end.

(** The calls of a pass that has begun with the element [first], newest
    first: [first] is detached, then the key store is asked, once, if it
    has to be, and nothing but [quiet] events follow. *)
Definition begun (p : SAMLServiceProvider) (first : Element)
    (new : list event) : Prop :=
  exists more k,
    new = (more ++ k ++ [NSDetatchCall first])%list /\
    (k = [] \/ k = [GetKeyPairCall]) /\
    Forall (quiet p) more.

(** While the pass runs on after [first], a certificate is cached, it is
    the resolved one, and the calls since [base] have the shape above. *)
Definition running (p : SAMLServiceProvider) (base : list event)
    (first : Element) (s : State) : Prop :=
  sp s = p /\
  exists new cert,
    calls s = (new ++ base)%list /\
    decryptCert s = Some cert /\ resolve p = inr cert /\
    begun p first new.

(** However the pass ends, a cached certificate is the resolved one, and
    the calls since [base] are none or have the shape above. *)
Definition stopped (p : SAMLServiceProvider) (base : list event)
    (first : Element) (s : State) : Prop :=
  sp s = p /\
  exists new,
    calls s = (new ++ base)%list /\
    (forall cert, decryptCert s = Some cert -> resolve p = inr cert) /\
    (new = [] \/ begun p first new).

(** ** Replacing elements *)

(** [el.AddChild(t)] on the children [cs] of the element [r]. *)
Definition adopt (r : Element) (cs : list Element) (t : Element) : Element :=
  set_Child (cs ++ [set_Parent (Some (addr r, Tag r)) t]) r.

(** [el.RemoveChild(c); el.AddChild(plain)] for each pair in turn, on the
    children of the element at address and with tag [parent]. *)
Fixpoint splice (parent : ptr * string) (pairs : list (Element * Element))
    (cs : list Element) : option (list Element) :=
  match pairs with
  | [] => Some cs
  | (c, plain) :: rest =>
      match remove_child (addr c) cs with
      | None => None
      | Some cs' => splice parent rest (cs' ++ [set_Parent (Some parent) plain])
      end
  end.

(** The steps [decryptAssertion] takes on [c] with the certificate [cert]:
    detach, unmarshal, decrypt, parse, down to the plaintext element. *)
Definition decrypts (ctx : NSContext X) (c : Element) (cert : Certificate)
    (plain : Element) : Prop :=
  exists detached enc raw doc,
    NSDetatch X ctx c = inr detached /\
    xmlUnmarshalElement X (xml_Unmarshal_EncryptedAssertion X) detached
      = inr enc /\
    DecryptBytes X enc cert = inr raw /\
    ReadFromBytes X raw = inr doc /\
    Root doc = Some plain.


(** A visit and the pair of its element with the plaintext element that
    takes its place. *)
Definition replaced (s : State) (v : visit) (pair : Element * Element)
    : Prop :=
  exists ctx parentTag cert,
    v = Visit ctx (fst pair) /\
    Parent (fst pair) = Some (addr (el s), parentTag) /\
    resolve (sp s) = inr cert /\
    decrypts ctx (fst pair) cert (snd pair).

(** ** Signed and unsigned assertions *)

(** What the validation of the detached copy of [c] says: [Some true] for
    a valid signature, [Some false] for a missing one. *)
Definition signature_of (p : SAMLServiceProvider) (ctx : NSContext X)
    (c : Element) : option bool :=
  match NSDetatch X ctx c with
  | inl _ => None
  | inr detached =>
      match dsig_Validate X (validationContext p) detached with
      | Validated _ => Some true
      | MissingSignature => Some false
      | Invalid _ => None
      end
  end.

(** The visits of a plan whose element has the signature state [b]. *)
Fixpoint count_signature (p : SAMLServiceProvider) (b : bool)
    (l : list visit) : nat :=
  match l with
  | [] => 0
  | Abort _ :: rest => count_signature p b rest
  | Visit ctx c :: rest =>
      (match signature_of p ctx c with
       | Some b' => if Bool.eqb b b' then 1 else 0
       | None => 0
       end) + count_signature p b rest
  end.

End Vocabulary.

Arguments Abort {X} err.
Arguments Visit {X} ctx e.

(** ** Induction on elements, through the lists of children *)

Section ElementInduction.

Variable P : Element -> Prop.
Hypothesis step : forall e, Forall P (Child e) -> P e.

Fixpoint Element_nested_ind (e : Element) : P e :=
  step e
    ((fix children (cs : list Element) : Forall P cs :=
        match cs with
        | [] => Forall_nil P
        | c :: rest => Forall_cons c (Element_nested_ind c) (children rest)
        end) (Child e)).

End ElementInduction.

(** ** A toy world: concrete capabilities to run the functions on

    Elements are signed when they carry the attribute [sig]: ["ok"] for a
    valid signature, anything else for an invalid one.  A validated element
    comes back as a copy at a new address, without that attribute, detached
    from its parent and with its children pointing to the copy. *)

Module Demo.

Definition has_sig (e : Element) : option string :=
  match find (fun kv => fst kv =? "sig") (Attr e) with
  | Some kv => Some (snd kv)
  | None => None
  end.

Definition validate (_ : ValidationContext) (e : Element) : ValidateResult :=
  match has_sig e with
  | None => MissingSignature
  | Some v =>
      if v =? "ok" then
        Validated (Some (mkElement (addr e + 1000) (Space e) (Tag e) [] (Text e)
                           None
                           (map (set_Parent (Some (addr e + 1000, Tag e)))
                              (Child e))))
      else if v =? "nil" then Validated None
      else Invalid "signature invalid"
  end.

Definition node (a : ptr) (tag : string) (attrs : list (string * string))
    (text : string) (parent : ptr * string) (cs : list Element) : Element :=
  mkElement a "saml" tag attrs text (Some parent) cs.

(** An unsigned and a signed assertion below the element at address 1. *)
Definition plainAssertion (a : ptr) : Element :=
  node a "Assertion" [] EmptyString (1, "Response") [].
Definition signedAssertion (a : ptr) : Element :=
  node a "Assertion" [("sig", "ok")] EmptyString (1, "Response") [].
Definition encryptedAssertion (a : ptr) (cipher : string) : Element :=
  node a "EncryptedAssertion" [] cipher (1, "Response") [].

Definition response (attrs : list (string * string)) (dest : string)
    (cs : list Element) : Element :=
  node 1 "Response" attrs dest (0, EmptyString) cs.

(** An assertion nested one level too deep. *)
Definition wrapped : Element :=
  response [] "https://sp/acs"
    [node 2 "Extensions" [] EmptyString (1, "Response")
       [node 3 "Assertion" [("sig", "ok")] EmptyString (2, "Extensions") []]].

Definition wrappedEncrypted : Element :=
  response [] "https://sp/acs"
    [node 2 "Extensions" [] EmptyString (1, "Response")
       [node 3 "EncryptedAssertion" [] "cipher" (2, "Extensions") []]].

Definition parse (raw : bytes) : string + Document :=
  if raw =? "unsigned" then
    inr (mkDocument (Some (response [] "https://sp/acs" [plainAssertion 2])))
  else if raw =? "envelope" then
    inr (mkDocument (Some (response [("sig", "ok")] "https://sp/acs"
                             [plainAssertion 2])))
  else if raw =? "assertion" then
    inr (mkDocument (Some (response [] "https://sp/acs" [signedAssertion 2])))
  else if raw =? "mixed" then
    inr (mkDocument (Some (response [] "https://sp/acs"
                             [signedAssertion 2; plainAssertion 3])))
  else if raw =? "mixed-envelope" then
    inr (mkDocument (Some (response [("sig", "ok")] "https://sp/acs"
                             [signedAssertion 2; plainAssertion 3])))
  else if raw =? "encrypted" then
    inr (mkDocument (Some (response [("sig", "ok")] "https://sp/acs"
                             [encryptedAssertion 2 "cipher";
                              encryptedAssertion 3 "cipher2"])))
  else if raw =? "wrapped" then inr (mkDocument (Some wrapped))
  else if raw =? "elsewhere" then
    inr (mkDocument (Some (response [("sig", "ok")] "https://other/acs"
                             [plainAssertion 2])))
  else if raw =? "tampered" then
    inr (mkDocument (Some (response [("sig", "forged")] "https://sp/acs"
                             [plainAssertion 2])))
  else if raw =? "vanished" then
    inr (mkDocument (Some (response [("sig", "nil")] "https://sp/acs"
                             [plainAssertion 2])))
  else if raw =? "plain" then
    inr (mkDocument (Some (node 50 "Assertion" [] EmptyString (49, EmptyString) [])))
  else if raw =? "plain2" then
    inr (mkDocument (Some (node 60 "Assertion" [] EmptyString (59, EmptyString) [])))
  else if raw =? "old" then
    inr (mkDocument (Some (response [("sig", "ok")] "old" [plainAssertion 2])))
  else if raw =? "wrapped-encrypted" then inr (mkDocument (Some wrappedEncrypted))
  else if raw =? "empty" then inr (mkDocument None)
  else inl "XML syntax error".

Definition world : Externals :=
  {| NSContext := unit;
     DefaultNSContext := tt;
     SubContext := fun _ _ => inr tt;
     LookupPrefix := fun _ prefix =>
       if prefix =? "saml" then inr "urn:oasis:names:tc:SAML:2.0:assertion"
       else inr prefix;
     NSDetatch := fun _ e => inr (set_Parent None e);
     base64_DecodeString := fun s =>
       if s =? "!" then inl "illegal base64 data at input byte 0" else inr s;
     flate_ReadAll := fun raw =>
       if raw =? "deflated" then inr "envelope"
       else if raw =? "deflated-junk" then inr "junk"
       else inl "flate: corrupt input before offset 1";
     ReadFromBytes := parse;
     WriteToBytes := fun e => inr (Text e);
     xml_Unmarshal_EncryptedAssertion := fun data => inr data;
     xml_Unmarshal_Response := fun data =>
       if data =? "old" then inr (mkResponse "https://sp/acs" "1.1" EmptyString)
       else inr (mkResponse data "2.0" EmptyString);
     DecryptBytes := fun enc cert =>
       if PrivateKey cert =? "key" then
         if enc =? "cipher" then inr "plain" else inr "plain2"
       else inl "wrong key";
     dsig_Validate := validate;
     validateExtended := fun _ _ => None;
     InvalidValue_Error := fun v => "invalid value";
     SAMLAssertionNamespace := "urn:oasis:names:tc:SAML:2.0:assertion";
     AssertionTag := "Assertion";
     EncryptedAssertionTag := "EncryptedAssertion";
     DestinationAttr := "Destination";
     ReasonUnsupported := "unsupported" |}.

Definition provider (store : option X509KeyStore) (skip : bool)
    : SAMLServiceProvider :=
  {| IDPCertificateStore := "idp-roots";
     Clock := 0;
     AssertionConsumerServiceURL := "https://sp/acs";
     SPKeyStore := store;
     SkipSignatureValidation := skip |}.

Definition keyStore : X509KeyStore := OtherKeyStore (inr ("key", "cert")).

(** A state at the start of a call: the locals hold nothing yet. *)
Definition start (p : SAMLServiceProvider) : State :=
  {| sp := p;
     el := mkElement 0 EmptyString EmptyString [] EmptyString None [];
     decryptCert := None;
     signedAssertions := 0;
     unsignedAssertions := 0;
     calls := [] |}.

Definition noStore : SAMLServiceProvider := provider None false.
Definition withKey : SAMLServiceProvider := provider (Some keyStore) false.

(** The root element of the document that [raw] parses to. *)
Definition rootOf (raw : bytes) : Element :=
  match parse raw with
  | inr (mkDocument (Some root)) => root
  | _ => mkElement 0 EmptyString EmptyString [] EmptyString None []
  end.

(** The state in which a pass starts on the root of [raw]. *)
Definition at_root (raw : bytes) (p : SAMLServiceProvider) : State :=
  set_el (rootOf raw) (start p).

End Demo.

(** ** A document whose root is itself an assertion

    The toy world again, with two more documents: a signed and an unsigned
    assertion element as the root.  The root of a parsed document has the
    document as its parent; the validated copy of the signed one has
    none. *)

Module Bare.

Definition assertionRoot (attrs : list (string * string)) : Element :=
  mkElement 1 "saml" "Assertion" attrs "https://sp/acs" (Some (0, EmptyString)) [].

Definition parse (raw : bytes) : string + Document :=
  if raw =? "bare" then inr (mkDocument (Some (assertionRoot [("sig", "ok")])))
  else if raw =? "bare-unsigned" then inr (mkDocument (Some (assertionRoot [])))
  else Demo.parse raw.

Definition world : Externals :=
  {| NSContext := NSContext Demo.world;
     DefaultNSContext := DefaultNSContext Demo.world;
     SubContext := SubContext Demo.world;
     LookupPrefix := LookupPrefix Demo.world;
     NSDetatch := NSDetatch Demo.world;
     base64_DecodeString := base64_DecodeString Demo.world;
     flate_ReadAll := flate_ReadAll Demo.world;
     ReadFromBytes := parse;
     WriteToBytes := WriteToBytes Demo.world;
     xml_Unmarshal_EncryptedAssertion :=
       xml_Unmarshal_EncryptedAssertion Demo.world;
     xml_Unmarshal_Response := xml_Unmarshal_Response Demo.world;
     DecryptBytes := DecryptBytes Demo.world;
     dsig_Validate := dsig_Validate Demo.world;
     validateExtended := validateExtended Demo.world;
     InvalidValue_Error := InvalidValue_Error Demo.world;
     SAMLAssertionNamespace := SAMLAssertionNamespace Demo.world;
     AssertionTag := AssertionTag Demo.world;
     EncryptedAssertionTag := EncryptedAssertionTag Demo.world;
     DestinationAttr := DestinationAttr Demo.world;
     ReasonUnsupported := ReasonUnsupported Demo.world |}.

End Bare.

(** * Vocabulary of the further properties *)

Section FurtherVocabulary.

Context (X : Externals).

(** ** Records of calls *)

(** Calls that the decryption pass may make: every call but [Validate]. *)
Definition decryption_event (ev : event) : Prop :=
  match ev with
  | ValidateCall _ => False
  | _ => True
  end.

(** Calls that the enforcement pass may make: detaching and validating. *)
Definition validation_event (ev : event) : Prop :=
  match ev with
  | NSDetatchCall _ | ValidateCall _ => True
  | _ => False
  end.

(** A call of the enforcement pass over the visits [l]: an element of [l]
    is detached, or the detached copy of an element of [l] is validated. *)
Definition validates (l : list (visit X)) (ev : event) : Prop :=
  match ev with
  | NSDetatchCall c => exists ctx, In (Visit ctx c) l
  | ValidateCall d =>
      exists ctx c, In (Visit ctx c) l /\ NSDetatch X ctx c = inr d
  | _ => False
  end.

(** Calls that agree with the key store of the provider [p]: the key pair
    is asked for only when [getDecryptCert] has to, and what is decrypted
    is decrypted with the certificate that the key store resolves to. *)
Definition key_event (p : SAMLServiceProvider) (ev : event) : Prop :=
  match ev with
  | GetKeyPairCall => asks p = [GetKeyPairCall]
  | DecryptBytesCall _ cert => resolve p = inr cert
  | _ => True
  end.

(** The provider is [p], a cached certificate is the resolved one, and the
    calls since [base] agree with the key store. *)
Definition keyed (p : SAMLServiceProvider) (base : list event) (s : State)
    : Prop :=
  sp s = p /\
  (forall cert, decryptCert s = Some cert -> resolve p = inr cert) /\
  exists new, calls s = (new ++ base)%list /\ Forall (key_event p) new.

(** What [decryptAssertion] hands to [DecryptBytes] for [c]: the detached
    copy of [c], unmarshalled.  With it, and with [el] as its parent, [c]
    reaches the step that needs the key. *)
Definition ciphertext (ctx : NSContext X) (c : Element)
    : option EncryptedAssertion :=
  match NSDetatch X ctx c with
  | inl _ => None
  | inr detached =>
      match xmlUnmarshalElement X (xml_Unmarshal_EncryptedAssertion X) detached
      with
      | inl _ => None
      | inr enc => Some enc
      end
  end.

(** The calls, newest first, of a pass that goes over the visits [l] with
    the certificate [cert] in its cache: each element is detached and
    decrypted with [cert]. *)
Fixpoint later_calls (cert : Certificate) (l : list (visit X)) : list event :=
  match l with
  | [] => []
  | Abort _ :: rest => later_calls cert rest
  | Visit ctx c :: rest =>
      (later_calls cert rest ++
       match ciphertext ctx c with
       | Some enc => [DecryptBytesCall enc cert; NSDetatchCall c]
       | None => [NSDetatchCall c]
       end)%list
  end.

(** The calls of a whole pass over [l] for the provider [p]: on the first
    element the key store is asked, if [getDecryptCert] has to, between the
    detachment and the decryption; the later elements follow as above. *)
Definition pass_calls (p : SAMLServiceProvider) (cert : Certificate)
    (l : list (visit X)) : list event :=
  match l with
  | Visit ctx c :: rest =>
      (later_calls cert rest ++
       match ciphertext ctx c with
       | Some enc => DecryptBytesCall enc cert :: asks p ++ [NSDetatchCall c]
       | None => [NSDetatchCall c]
       end)%list
  | _ => []
  end.

(** Whatever its result, [m] only adds calls to the record, all in [P]. *)
Definition adds {A} (P : event -> Prop) (m : M A) : Prop :=
  forall s,
    exists new, calls (snd (m s)) = (new ++ calls s)%list /\ Forall P new.

(** ** The children after a pass *)

(** The elements of the visits of a plan, in order. *)
Definition located (l : list (visit X)) : list Element :=
  flat_map (fun v => match v with
                     | Abort _ => []
                     | Visit _ c => [c]
                     end) l.

(** The children that are at none of the addresses [gone]. *)
Definition kept (gone : list ptr) (cs : list Element) : list Element :=
  filter (fun x => negb (existsb (Nat.eqb (addr x)) gone)) cs.

(** [el.AddChild] sets the parent of what it appends. *)
Definition adopted (parent : ptr * string) (ts : list Element) : list Element :=
  map (set_Parent (Some parent)) ts.

(** The validated element that [validateAssertion] puts in the place of
    [c], if the detached copy of [c] validates. *)
Definition verified (p : SAMLServiceProvider) (ctx : NSContext X) (c : Element)
    : option Element :=
  match NSDetatch X ctx c with
  | inl _ => None
  | inr detached =>
      match dsig_Validate X (validationContext p) detached with
      | Validated (Some v) => Some v
      | _ => None
      end
  end.

(** The located assertions that validate, each with its validated element. *)
Fixpoint verifications (p : SAMLServiceProvider) (l : list (visit X))
    : list (Element * Element) :=
  match l with
  | [] => []
  | Abort _ :: rest => verifications p rest
  | Visit ctx c :: rest =>
      match verified p ctx c with
      | Some v => (c, v) :: verifications p rest
      | None => verifications p rest
      end
  end.

(** No element put in by a pass sits at the address of an element the
    pass takes out. *)
Definition fresh (pairs : list (Element * Element)) : Prop :=
  forall c t, In c (map fst pairs) -> In t (map snd pairs) -> addr t <> addr c.

(** ** Trees whose parent pointers follow the lists of children *)

(** [c] is a child of [e], or lies below one. *)
Inductive below (e : Element) : Element -> Prop :=
| below_child c : In c (Child e) -> below e c
| below_deep p c : In p (Child e) -> below p c -> below e c.

(** [Parent()] of every element below [e] is the element in whose list of
    children it is. *)
Inductive parented : Element -> Prop :=
| parented_intro e :
    Forall (fun c => Parent c = Some (addr e, Tag e) /\ parented c) (Child e) ->
    parented e.

(** The located elements of [l] behave as children of [r] should: none has
    a nil parent, no two share an address, and those whose parent is [r]
    are found among the children of [r]. *)
Definition attached (r : Element) (l : list (visit X)) : Prop :=
  NoDup (map addr (located l)) /\
  forall c, In c (located l) ->
    Parent c <> None /\
    (forall t, Parent c = Some (addr r, t) ->
               In (addr c) (map addr (Child r))).

End FurtherVocabulary.

Arguments below_child {e} c _.
Arguments below_deep {e} p c _ _.


(** * Properties *)

(** ** Tactics *)

(** Unfold the monad and split on every test the code makes, innermost
    test first. *)
Ltac split_test :=
  match goal with
  | |- context [match ?x with _ => _ end] =>
      lazymatch x with
      | context [match _ with _ => _ end] => fail
      | _ => destruct x eqn:?
      end
  end.

Ltac reduce_tree :=
  cbn beta iota zeta delta
    [fst snd negb app sp el decryptCert signedAssertions unsignedAssertions
     calls set_sp set_el set_decryptCert set_signedAssertions
     set_unsignedAssertions set_calls addr Space Tag Attr Text Parent Child
     set_Parent set_Child].

Ltac reduce :=
  cbn beta iota zeta delta
    [fst snd negb sp el decryptCert signedAssertions unsignedAssertions
     calls set_sp set_el set_decryptCert set_signedAssertions
     set_unsignedAssertions set_calls logged].

Ltac run := repeat (reduce_tree || split_test).

Ltac unfold_all :=
  unfold decryptAssertion, validateAssertion, getDecryptCert,
    validateElementSignature, ctxValidate, RemoveChild, AddChild, wrapf,
    call, lift, liftE, bind, ret, gets, modify, fail, panic in *.

Ltac same_calls := cbn [app]; rewrite <- ?app_assoc; cbn [app]; reflexivity.

Ltac agreed := unfold agree, reset in *; cbn; intuition (try discriminate; auto).

(** ** The monad *)

Lemma bind_Ok A B (m : M A) (k : A -> M B) s a s' :
  m s = (Ok a, s') -> bind m k s = k a s'.
Proof. intros H. unfold bind. now rewrite H. Qed.

Lemma bind_Err A B (m : M A) (k : A -> M B) s e s' :
  m s = (Err e, s') -> bind m k s = (Err e, s').
Proof. intros H. unfold bind. now rewrite H. Qed.

Lemma bind_ret_l A B (a : A) (k : A -> M B) s : bind (ret a) k s = k a s.
Proof. reflexivity. Qed.

Lemma bind_gets A B (f : State -> A) (k : A -> M B) s :
  bind (gets f) k s = k (f s) s.
Proof. reflexivity. Qed.

Lemma bind_modify B (f : State -> State) (k : unit -> M B) s :
  bind (modify f) k s = k tt (f s).
Proof. reflexivity. Qed.

Lemma bind_assoc A B C (m : M A) (k : A -> M B) (h : B -> M C) s :
  bind (bind m k) h s = bind m (fun a => bind (k a) h) s.
Proof. unfold bind. destruct (m s) as [[a|e|msg] s']; reflexivity. Qed.

Lemma bind_ext A B (m : M A) (k k' : A -> M B) s :
  (forall a s', k a s' = k' a s') -> bind m k s = bind m k' s.
Proof.
  intros H. unfold bind. destruct (m s) as [[a|e|msg] s']; auto.
Qed.

Lemma bind_ext_l A B (m m' : M A) (k : A -> M B) :
  (forall s, m s = m' s) -> forall s, bind m k s = bind m' k s.
Proof. intros H s. unfold bind. now rewrite H. Qed.

(** A run that ends well went through each of its two parts. *)
Lemma bind_inv_Ok A B (m : M A) (k : A -> M B) s b s2 :
  bind m k s = (Ok b, s2) ->
  exists a s1, m s = (Ok a, s1) /\ k a s1 = (Ok b, s2).
Proof.
  unfold bind. destruct (m s) as [[a|e|msg] s1]; intros H; try discriminate.
  now exists a, s1.
Qed.

(** ** The traversal follows its plan *)

Section PlanFacts.

Context (X : Externals).

Lemma runPlan_app handle (l1 l2 : list (visit X)) s :
  runPlan X handle (l1 ++ l2) s =
  bind (runPlan X handle l1) (fun _ => runPlan X handle l2) s.
Proof.
  revert s. induction l1 as [|[err|ctx e] l1 IH]; intros s; simpl.
  - reflexivity.
  - reflexivity.
  - rewrite bind_assoc. apply bind_ext. intros _ s'. apply IH.
Qed.

Lemma NSTraverse_unfold ctx e handle :
  NSTraverse X ctx e handle =
  match SubContext X ctx e with
  | inl err => fail (ErrExternal err)
  | inr ctx' => handle ctx' e;; traverseChildren X ctx' handle (Child e)
  end.
Proof. destruct e; reflexivity. Qed.

Lemma plan_unfold ctx e :
  plan X ctx e =
  match SubContext X ctx e with
  | inl err => [Abort err]
  | inr ctx' => Visit ctx' e :: planChildren X ctx' (Child e)
  end.
Proof. destruct e; reflexivity. Qed.

Lemma NSTraverse_plan handle e :
  forall ctx s, NSTraverse X ctx e handle s = runPlan X handle (plan X ctx e) s.
Proof.
  induction e as [e IH] using Element_nested_ind. intros ctx s.
  rewrite NSTraverse_unfold, plan_unfold.
  destruct (SubContext X ctx e) as [err|ctx']; [reflexivity|].
  cbn [runPlan]. apply bind_ext. intros _. clear s.
  induction (Child e) as [|c cs IHcs]; intros s; [reflexivity|].
  inversion IH as [|? ? Hc Hcs]; subst.
  cbn [traverseChildren planChildren].
  fold (traverseChildren X ctx' handle) (planChildren X ctx').
  rewrite runPlan_app, (bind_ext_l _ _ _ _ _ (Hc ctx')).
  apply bind_ext. intros _. now apply IHcs.
Qed.

Lemma runPlan_select handle namespace tag l s :
  runPlan X (fun ctx c =>
               currentNS <- lift (LookupPrefix X ctx (Space c));;
               if (currentNS =? namespace) && (Tag c =? tag)
               then handle ctx c
               else ret tt) l s =
  runPlan X handle (flat_map (select X namespace tag) l) s.
Proof.
  revert s. induction l as [|[err|ctx c] l IH]; intros s; cbn [flat_map runPlan].
  - reflexivity.
  - reflexivity.
  - unfold select. destruct (LookupPrefix X ctx (Space c)) as [err|currentNS].
    + reflexivity.
    + cbn [lift]. rewrite bind_assoc, bind_ret_l.
      destruct ((currentNS =? namespace) && (Tag c =? tag)).
      * cbn [app runPlan]. apply bind_ext. intros _ s'. apply IH.
      * cbn [app]. rewrite bind_ret_l. apply IH.
Qed.

(** [NSFindIterate] runs its handler over the visits it selects. *)
Lemma NSFindIterate_found e namespace tag handle s :
  NSFindIterate X e namespace tag handle s =
  bind (catch (runPlan X handle (found X namespace tag e))) halt s.
Proof.
  unfold NSFindIterate, found.
  apply bind_ext_l. intros s0. unfold catch.
  now rewrite NSTraverse_plan, runPlan_select.
Qed.

End PlanFacts.

(** ** The decoder *)

Section Decoder.

Context (X : Externals).

Lemma ValidateEncodedResponse_decode encodedResponse s :
  ValidateEncodedResponse X encodedResponse s =
  match decode X encodedResponse with
  | inl err => (Err err, s)
  | inr root =>
      (responseSignatureValidated <- validateRoot X root;;
       enforceSignatures X responseSignatureValidated;;
       unmarshalAndValidate X) s
  end.
Proof.
  unfold ValidateEncodedResponse.
  destruct (decode X encodedResponse) as [err|root]; reflexivity.
Qed.

(** C6: the decoder of [ValidateEncodedResponse].  Invalid base64 is a
    decode error; bytes that parse as XML are used as they are; bytes that
    do not are inflated and parsed again, a failure of either step being
    a decode error; a parsed document without a root element is the error
    "unable to parse response"; a document with a root goes on to the
    validation of that root. *)
Theorem decoder_fallback_and_errors encodedResponse s :
  (forall err,
      base64_DecodeString X encodedResponse = inl err ->
      ValidateEncodedResponse X encodedResponse s = (Err (ErrExternal err), s)) /\
  (forall raw perr err,
      base64_DecodeString X encodedResponse = inr raw ->
      ReadFromBytes X raw = inl perr ->
      flate_ReadAll X raw = inl err ->
      ValidateEncodedResponse X encodedResponse s = (Err (ErrExternal err), s)) /\
  (forall raw perr buf err,
      base64_DecodeString X encodedResponse = inr raw ->
      ReadFromBytes X raw = inl perr ->
      flate_ReadAll X raw = inr buf ->
      ReadFromBytes X buf = inl err ->
      ValidateEncodedResponse X encodedResponse s = (Err (ErrExternal err), s)) /\
  (forall raw doc,
      base64_DecodeString X encodedResponse = inr raw ->
      ReadFromBytes X raw = inr doc \/
      (exists perr buf,
          ReadFromBytes X raw = inl perr /\
          flate_ReadAll X raw = inr buf /\
          ReadFromBytes X buf = inr doc) ->
      (Root doc = None ->
       ValidateEncodedResponse X encodedResponse s =
       (Err (Errorf "unable to parse response"), s)) /\
      (forall root,
          Root doc = Some root ->
          decode X encodedResponse = inr root /\
          ValidateEncodedResponse X encodedResponse s =
          (responseSignatureValidated <- validateRoot X root;;
           enforceSignatures X responseSignatureValidated;;
           unmarshalAndValidate X) s)).
Proof.
  rewrite ValidateEncodedResponse_decode. unfold decode.
  refine (conj _ (conj _ (conj _ _))).
  - intros err H. now rewrite H.
  - intros raw perr err H1 H2 H3. now rewrite H1, H2, H3.
  - intros raw perr buf err H1 H2 H3 H4. now rewrite H1, H2, H3, H4.
  - intros raw doc H1 Hparse. rewrite H1.
    assert (Hdoc : match ReadFromBytes X raw with
                   | inr doc' => inr doc'
                   | inl _ =>
                       match flate_ReadAll X raw with
                       | inl err => inl (ErrExternal err)
                       | inr buf =>
                           match ReadFromBytes X buf with
                           | inl err => inl (ErrExternal err)
                           | inr doc' => inr doc'
                           end
                       end
                   end = inr doc).
    { destruct Hparse as [H2|(perr & buf & H2 & H3 & H4)]; rewrite H2;
        [reflexivity|]. now rewrite H3, H4. }
    rewrite Hdoc. split.
    + intros Hroot. now rewrite Hroot.
    + intros root Hroot. now rewrite Hroot.
Qed.

End Decoder.

(** ** The orchestrator *)

Section Orchestrator.

Context (X : Externals).

Lemma validateElementSignature_eq e s :
  validateElementSignature X e s =
  (Ok (dsig_Validate X (validationContext (sp s)) e), logged (ValidateCall e) s).
Proof. reflexivity. Qed.

Lemma validateRoot_eq root s :
  validateRoot X root s =
  if SkipSignatureValidation (sp s) then
    (decryptAssertions X;; ret false) (set_el root s)
  else
    match dsig_Validate X (validationContext (sp s)) root with
    | MissingSignature =>
        (decryptAssertions X;; ret false)
          (set_el root (logged (ValidateCall root) s))
    | Invalid reason =>
        (Err (ErrExternal reason), logged (ValidateCall root) s)
    | Validated None =>
        (Err (Errorf "missing transformed response"),
         logged (ValidateCall root) s)
    | Validated (Some validated) =>
        (decryptAssertions X;; ret true)
          (set_el validated (logged (ValidateCall root) s))
    end.
Proof.
  unfold validateRoot. rewrite bind_gets.
  destruct (SkipSignatureValidation (sp s)); cbn [negb].
  - reflexivity.
  - rewrite !bind_assoc. unfold bind at 1.
    rewrite validateElementSignature_eq.
    destruct (dsig_Validate X (validationContext (sp s)) root) as [[v|]| |reason];
      reflexivity.
Qed.

(** C4: validating the root of the decoded document when signature
    checking is on.  A missing signature keeps the original root as the
    working element with the flag false; any other validation error is
    returned at once; a nil element with no error is the error "missing
    transformed response"; a validated element becomes the working element
    with the flag true.  In the two cases that go on, the next step is the
    decryption pass on that working element. *)
Theorem root_validation_cases encodedResponse root s :
  decode X encodedResponse = inr root ->
  SkipSignatureValidation (sp s) = false ->
  let s1 := logged (ValidateCall root) s in
  let verdict := dsig_Validate X (validationContext (sp s)) root in
  (verdict = MissingSignature ->
   validateRoot X root s = (decryptAssertions X;; ret false) (set_el root s1)) /\
  (forall reason,
      verdict = Invalid reason ->
      validateRoot X root s = (Err (ErrExternal reason), s1) /\
      ValidateEncodedResponse X encodedResponse s =
      (Err (ErrExternal reason), s1)) /\
  (verdict = Validated None ->
   validateRoot X root s = (Err (Errorf "missing transformed response"), s1) /\
   ValidateEncodedResponse X encodedResponse s =
   (Err (Errorf "missing transformed response"), s1)) /\
  (forall validated,
      verdict = Validated (Some validated) ->
      validateRoot X root s =
      (decryptAssertions X;; ret true) (set_el validated s1)).
Proof.
  intros Hdec Hskip s1 verdict. subst s1 verdict.
  repeat split; intros; rewrite ?ValidateEncodedResponse_decode, ?Hdec;
    try (unfold bind at 1); rewrite validateRoot_eq, Hskip;
    match goal with H : dsig_Validate _ _ _ = _ |- _ => rewrite H end;
    reflexivity.
Qed.

End Orchestrator.

(** ** Hoare triples with a postcondition for each way to end *)

Section Hoare.

Context (X : Externals).

Lemma hoare_bind A B P (m : M A) Q R (k : A -> M B) Q' :
  hoare P m Q R -> (forall a, hoare (Q a) (k a) Q' R) ->
  hoare P (bind m k) Q' R.
Proof.
  intros Hm Hk s Hs. specialize (Hm s Hs). unfold bind.
  destruct (m s) as [[a|e|msg] s']; auto. now apply Hk.
Qed.

(** A plan keeps an invariant that each call of the handler keeps. *)
Lemma hoare_runPlan (I R : State -> Prop) handle l :
  (forall s, I s -> R s) ->
  (forall ctx c, hoare I (handle ctx c) (fun _ => I) R) ->
  hoare I (runPlan X handle l) (fun _ => I) R.
Proof.
  intros HIR Hh. induction l as [|[err|ctx c] l IH]; cbn [runPlan].
  - intros s Hs. exact Hs.
  - intros s Hs. cbn. auto.
  - eapply hoare_bind; [apply Hh|]. intros []. exact IH.
Qed.

Lemma runPlan_never_halts handle l :
  never_halts X handle ->
  forall s s', runPlan X handle l s <> (Err ErrTraversalHalted, s').
Proof.
  intros Hh. induction l as [|[err|ctx c] l IH]; intros s s'; cbn [runPlan].
  - discriminate.
  - discriminate.
  - unfold bind. specialize (Hh ctx c s).
    destruct (handle ctx c s) as [[[]|e|msg] s1].
    + apply IH.
    + intros H. apply (Hh s'). now inversion H.
    + discriminate.
Qed.

Lemma NSFindIterate_runPlan e namespace tag handle s :
  never_halts X handle ->
  NSFindIterate X e namespace tag handle s =
  runPlan X handle (found X namespace tag e) s.
Proof.
  intros Hh. rewrite NSFindIterate_found. unfold bind, catch.
  pose proof (runPlan_never_halts handle (found X namespace tag e) Hh s) as H.
  destruct (runPlan X handle (found X namespace tag e) s) as [[[]|e'|msg] s'];
    try reflexivity.
  destruct e'; try reflexivity. now elim (H s').
Qed.

End Hoare.

(** ** The two closures, step by step *)

Section Handlers.

Context (X : Externals).

Lemma decryptAssertion_never_halts : never_halts X (decryptAssertion X).
Proof.
  intros ctx c s s'. unfold_all. run; discriminate.
Qed.

Lemma validateAssertion_never_halts : never_halts X (validateAssertion X).
Proof.
  intros ctx c s s'. unfold_all. run; discriminate.
Qed.

Lemma getDecryptCert_eq s :
  getDecryptCert s =
  (match resolve (sp s) with inl e => Err e | inr c => Ok c end,
   set_calls (asks (sp s) ++ calls s) s).
Proof.
  unfold getDecryptCert, resolve, asks, bind, gets, call, modify, fail, ret.
  destruct s as [p r dc sa ua cl]; cbn.
  destruct (SPKeyStore p) as [[crt|[err|[pk cert]]]|]; reflexivity.
Qed.

(** The closures write neither the provider nor the identity of [el]. *)
Lemma decryptAssertion_frame ctx c s :
  let s' := snd (decryptAssertion X ctx c s) in
  sp s' = sp s /\ addr (el s') = addr (el s) /\ Tag (el s') = Tag (el s) /\
  signedAssertions s' = signedAssertions s /\
  unsignedAssertions s' = unsignedAssertions s.
Proof.
  unfold_all. run; auto.
Qed.

Lemma validateAssertion_frame ctx c s :
  let s' := snd (validateAssertion X ctx c s) in
  sp s' = sp s /\ addr (el s') = addr (el s) /\ Tag (el s') = Tag (el s) /\
  decryptCert s' = decryptCert s.
Proof.
  unfold_all. run; auto.
Qed.

(** A located element whose parent is another element than [el] ends the
    closure with the error naming that parent, the state as it was: nothing
    has been detached, decrypted or validated. *)
Lemma decryptAssertion_unexpected_parent ctx c s a parentTag :
  Parent c = Some (a, parentTag) -> a <> addr (el s) ->
  decryptAssertion X ctx c s =
  (Err (Errorf ("found encrypted assertion with unexpected parent element: "
                  ++ parentTag)), s).
Proof.
  intros HP Ha. unfold decryptAssertion. rewrite bind_gets, HP.
  apply Nat.eqb_neq in Ha. now rewrite Ha.
Qed.

Lemma validateAssertion_unexpected_parent ctx c s a parentTag :
  Parent c = Some (a, parentTag) -> a <> addr (el s) ->
  validateAssertion X ctx c s =
  (Err (Errorf ("found assertion with unexpected parent element: "
                  ++ parentTag)), s).
Proof.
  intros HP Ha. unfold validateAssertion. rewrite bind_gets, HP.
  apply Nat.eqb_neq in Ha. now rewrite Ha.
Qed.

(** [decryptAssertion] as a decision tree over the results of the
    external calls. *)
Lemma decryptAssertion_eq ctx c s :
  decryptAssertion X ctx c s =
  match Parent c with
  | None => (Panic nil_dereference, s)
  | Some (a, parentTag) =>
    if negb (a =? addr (el s))%nat then
      (Err (Errorf ("found encrypted assertion with unexpected parent element: "
                      ++ parentTag)), s)
    else
    let s1 := logged (NSDetatchCall c) s in
    match NSDetatch X ctx c with
    | inl err =>
        (Err (Errorf ("unable to detach encrypted assertion: " ++ err)), s1)
    | inr detached =>
    match xmlUnmarshalElement X (xml_Unmarshal_EncryptedAssertion X) detached with
    | inl e =>
        (Err (Errorf ("unable to unmarshal encrypted assertion: " ++ Error X e)),
         s1)
    | inr enc =>
    match obtain X s1 with
    | inl (e, s2) => (Err e, s2)
    | inr (cert, s2) =>
    let s3 := logged (DecryptBytesCall enc cert) s2 in
    match DecryptBytes X enc cert with
    | inl err =>
        (Err (Errorf ("unable to decrypt encrypted assertion: " ++ err)), s3)
    | inr raw =>
    match ReadFromBytes X raw with
    | inl _ =>
        (Err (Errorf
           "unable to create element from decrypted assertion bytes: <nil>"),
         s3)
    | inr doc =>
    match remove_child (addr c) (Child (el s3)) with
    | None => (Panic "unable to remove encrypted assertion", s3)
    | Some rest =>
    match Root doc with
    | None => (Panic nil_dereference, set_el (set_Child rest (el s3)) s3)
    | Some plain => (Ok tt, set_el (adopt (el s3) rest plain) s3)
    end end end end end end end
  end.
Proof.
  unfold obtain, adopt, logged, resolve, asks. unfold_all. run; reflexivity.
Qed.

(** [validateAssertion] as a decision tree. *)
Lemma validateAssertion_eq ctx c s :
  validateAssertion X ctx c s =
  match Parent c with
  | None => (Panic nil_dereference, s)
  | Some (a, parentTag) =>
    if negb (a =? addr (el s))%nat then
      (Err (Errorf ("found assertion with unexpected parent element: "
                      ++ parentTag)), s)
    else
    let s1 := logged (NSDetatchCall c) s in
    match NSDetatch X ctx c with
    | inl err =>
        (Err (Errorf ("unable to detach unverified assertion: " ++ err)), s1)
    | inr detached =>
    let s2 := logged (ValidateCall detached) s1 in
    match dsig_Validate X (validationContext (sp s)) detached with
    | MissingSignature =>
        (Ok tt, set_unsignedAssertions (S (unsignedAssertions s)) s2)
    | Invalid reason => (Err (ErrExternal reason), s2)
    | Validated assertion =>
    match remove_child (addr c) (Child (el s)) with
    | None => (Panic "unable to remove assertion", s2)
    | Some rest =>
    match assertion with
    | None => (Panic nil_dereference, set_el (set_Child rest (el s)) s2)
    | Some verified =>
        (Ok tt, set_signedAssertions (S (signedAssertions s))
                  (set_el (adopt (el s) rest verified) s2))
    end end end end
  end.
Proof.
  unfold adopt, logged. unfold_all. run; reflexivity.
Qed.

(** The two passes as runs of their plans. *)
Lemma decryptAssertions_eq s :
  decryptAssertions X s =
  runPlan X (decryptAssertion X)
    (found X (SAMLAssertionNamespace X) (EncryptedAssertionTag X) (el s))
    (set_decryptCert None s).
Proof.
  unfold decryptAssertions. rewrite bind_modify, bind_gets.
  apply NSFindIterate_runPlan, decryptAssertion_never_halts.
Qed.

Lemma validateAssertionSignatures_eq s :
  validateAssertionSignatures X s =
  (runPlan X (validateAssertion X)
     (found X (SAMLAssertionNamespace X) (AssertionTag X) (el s));;
   tally) (reset s).
Proof.
  unfold validateAssertionSignatures. rewrite !bind_modify, bind_gets.
  apply bind_ext_l. intros s0.
  apply NSFindIterate_runPlan, validateAssertion_never_halts.
Qed.

(** A plan that ran well up to a visit goes on with that visit. *)
Lemma runPlan_reach handle (pre post : list (visit X)) ctx c s s1 :
  runPlan X handle pre s = (Ok tt, s1) ->
  runPlan X handle (pre ++ Visit ctx c :: post) s =
  (handle ctx c;; runPlan X handle post) s1.
Proof.
  intros H. rewrite runPlan_app. now rewrite (bind_Ok _ _ _ _ _ _ _ H).
Qed.

Lemma runPlan_decrypt_anchored l s0 s :
  anchored s0 s ->
  anchored s0 (snd (runPlan X (decryptAssertion X) l s)).
Proof.
  intros Hs.
  assert (Hrun : hoare (anchored s0) (runPlan X (decryptAssertion X) l)
                   (fun _ => anchored s0) (anchored s0)).
  { apply hoare_runPlan; [auto|]. intros ctx c s1 (H1 & H2 & H3).
    pose proof (decryptAssertion_frame ctx c s1) as F. cbv zeta in F.
    destruct (decryptAssertion X ctx c s1) as [[[]|e|msg] s2]; cbn [snd] in F;
      unfold anchored; intuition congruence. }
  specialize (Hrun s Hs).
  destruct (runPlan X (decryptAssertion X) l s) as [[[]|e|msg] s2]; exact Hrun.
Qed.

Lemma runPlan_validate_anchored l s0 s :
  anchored s0 s ->
  anchored s0 (snd (runPlan X (validateAssertion X) l s)).
Proof.
  intros Hs.
  assert (Hrun : hoare (anchored s0) (runPlan X (validateAssertion X) l)
                   (fun _ => anchored s0) (anchored s0)).
  { apply hoare_runPlan; [auto|]. intros ctx c s1 (H1 & H2 & H3).
    pose proof (validateAssertion_frame ctx c s1) as F. cbv zeta in F.
    destruct (validateAssertion X ctx c s1) as [[[]|e|msg] s2]; cbn [snd] in F;
      unfold anchored; intuition congruence. }
  specialize (Hrun s Hs).
  destruct (runPlan X (validateAssertion X) l s) as [[[]|e|msg] s2]; exact Hrun.
Qed.

End Handlers.

(** ** Structural anomalies *)

Section Anomalies.

Context (X : Externals).

(** An encrypted-assertion or assertion element that the search locates
    and whose parent is an element, other than the response element [el],
    ends the closure, and with it the pass, with the error "found ... with
    unexpected parent element".  The state is the one in which the element
    was reached: no call to detach, decrypt or validate it has been made,
    and [el] is as the earlier elements left it. *)
Theorem unexpected_parent_aborts ctx c a parentTag s :
  Parent c = Some (a, parentTag) ->
  a <> addr (el s) ->
  decryptAssertion X ctx c s =
    (Err (Errorf ("found encrypted assertion with unexpected parent element: "
                    ++ parentTag)), s) /\
  validateAssertion X ctx c s =
    (Err (Errorf ("found assertion with unexpected parent element: "
                    ++ parentTag)), s) /\
  (forall pre post s1,
      found X (SAMLAssertionNamespace X) (EncryptedAssertionTag X) (el s)
        = (pre ++ Visit ctx c :: post)%list ->
      runPlan X (decryptAssertion X) pre (set_decryptCert None s) = (Ok tt, s1) ->
      decryptAssertions X s =
        (Err (Errorf ("found encrypted assertion with unexpected parent element: "
                        ++ parentTag)), s1)) /\
  (forall pre post s1,
      found X (SAMLAssertionNamespace X) (AssertionTag X) (el s)
        = (pre ++ Visit ctx c :: post)%list ->
      runPlan X (validateAssertion X) pre (reset s) = (Ok tt, s1) ->
      validateAssertionSignatures X s =
        (Err (Errorf ("found assertion with unexpected parent element: "
                        ++ parentTag)), s1)).
Proof.
  intros HP Ha. repeat split.
  - now apply decryptAssertion_unexpected_parent with (a := a).
  - now apply validateAssertion_unexpected_parent with (a := a).
  - intros pre post s1 Hfound Hpre.
    rewrite decryptAssertions_eq, Hfound, (runPlan_reach _ _ _ _ _ _ _ _ Hpre).
    assert (Hs1 : addr (el s1) = addr (el s)).
    { pose proof (runPlan_decrypt_anchored X pre s (set_decryptCert None s)) as H.
      rewrite Hpre in H. apply H. now split. }
    apply bind_Err.
    apply decryptAssertion_unexpected_parent with (a := a); congruence.
  - intros pre post s1 Hfound Hpre.
    rewrite validateAssertionSignatures_eq, Hfound.
    assert (Hs1 : addr (el s1) = addr (el s)).
    { pose proof (runPlan_validate_anchored X pre s (reset s)) as H.
      rewrite Hpre in H. apply H. now split. }
    apply bind_Err. rewrite (runPlan_reach _ _ _ _ _ _ _ _ Hpre).
    apply bind_Err.
    apply validateAssertion_unexpected_parent with (a := a); congruence.
Qed.

End Anomalies.

(** C3: the parent check on a located element that has no parent.  The
    encoded response ["bare"] decodes to a document whose root is a signed
    assertion element.  [Validate] returns its validated copy, which has no
    parent and so is not a child of the response element; the enforcement
    search locates it, being the element the search starts from.  The call
    does not end with the "unexpected parent element" error: it panics on
    the nil parent, the only call on record being the validation of the
    root.  The same document without a signature keeps the document as the
    parent of its root and does end with the error. *)
Theorem bare_assertion_root_panics :
  decode Bare.world "bare" = inr (Bare.assertionRoot [("sig", "ok")]) /\
  (exists validated,
      dsig_Validate Bare.world (validationContext Demo.noStore)
        (Bare.assertionRoot [("sig", "ok")]) = Validated (Some validated) /\
      Parent validated = None /\
      found Bare.world (SAMLAssertionNamespace Bare.world)
        (AssertionTag Bare.world) validated = [@Visit Bare.world tt validated]) /\
  fst (ValidateEncodedResponse Bare.world "bare" (Demo.start Demo.noStore))
    = Panic nil_dereference /\
  calls (snd (ValidateEncodedResponse Bare.world "bare"
                (Demo.start Demo.noStore)))
    = [ValidateCall (Bare.assertionRoot [("sig", "ok")])] /\
  fst (ValidateEncodedResponse Bare.world "bare-unsigned"
         (Demo.start Demo.noStore))
    = Err (Errorf "found assertion with unexpected parent element: ").
Proof.
  refine (conj _ (conj _ (conj _ (conj _ _)))); try reflexivity.
  eexists. refine (conj _ (conj _ _)); reflexivity.
Qed.

(** ** The decryption pass *)

Section Decryption.

Context (X : Externals).

(** When the closure ends well, every step succeeded, and the state shows
    it: [c] is out of the children of [el], the plaintext element is their
    last, and the certificate is cached. *)
Lemma decryptAssertion_Ok ctx c s s' :
  cache_sound s ->
  decryptAssertion X ctx c s = (Ok tt, s') ->
  exists parentTag cert plain rest,
    Parent c = Some (addr (el s), parentTag) /\
    resolve (sp s) = inr cert /\
    decrypts X ctx c cert plain /\
    remove_child (addr c) (Child (el s)) = Some rest /\
    el s' = adopt (el s) rest plain /\
    decryptCert s' = Some cert /\
    sp s' = sp s.
Proof.
  intros Hcache. rewrite decryptAssertion_eq.
  destruct (Parent c) as [[a parentTag]|]; [|discriminate].
  destruct (a =? addr (el s))%nat eqn:Ha; [|discriminate].
  apply Nat.eqb_eq in Ha. subst a. cbn [negb]. cbv zeta.
  destruct (NSDetatch X ctx c) as [err|detached] eqn:H1; [discriminate|].
  destruct (xmlUnmarshalElement X _ detached) as [e|enc] eqn:H2; [discriminate|].
  destruct (obtain X (logged (NSDetatchCall c) s)) as [[e s2]|[cert s2]] eqn:H3;
    [discriminate|].
  destruct (DecryptBytes X enc cert) as [err|raw] eqn:H4; [discriminate|].
  destruct (ReadFromBytes X raw) as [err|doc] eqn:H5; [discriminate|].
  destruct (remove_child (addr c) _) as [rest|] eqn:H6; [|discriminate].
  destruct (Root doc) as [plain|] eqn:H7; [|discriminate].
  intros H. injection H as <-.
  assert (Hs2 : el s2 = el s /\ sp s2 = sp s /\ decryptCert s2 = Some cert /\
                resolve (sp s) = inr cert).
  { unfold obtain, logged in H3. cbn in H3.
    destruct (decryptCert s) as [cached|] eqn:Hc.
    - injection H3 as <- <-. cbn. auto.
    - destruct (resolve (sp s)) as [e|cert'] eqn:Hr; [discriminate|].
      injection H3 as <- <-. cbn. auto. }
  destruct Hs2 as (E1 & E2 & E3 & E4).
  exists parentTag, cert, plain, rest. cbn in *. rewrite E1 in *.
  repeat split; auto.
  now exists detached, enc, raw, doc.
Qed.


Lemma runPlan_decrypt_Ok l :
  forall s s',
    cache_sound s ->
    runPlan X (decryptAssertion X) l s = (Ok tt, s') ->
    exists pairs,
      Forall2 (replaced X s) l pairs /\
      splice (addr (el s), Tag (el s)) pairs (Child (el s))
        = Some (Child (el s')) /\
      el s' = set_Child (Child (el s')) (el s) /\
      sp s' = sp s.
Proof.
  induction l as [|[err|ctx c] l IH]; intros s s' Hcache H; cbn [runPlan] in H.
  - injection H as <-. exists []. repeat split; auto.
    now destruct (el s).
  - discriminate.
  - apply bind_inv_Ok in H. destruct H as ([] & s1 & H1 & H2).
    destruct (decryptAssertion_Ok ctx c s s1 Hcache H1)
      as (parentTag & cert & plain & rest & E1 & E2 & E3 & E4 & E5 & E6 & E7).
    assert (Hcache1 : cache_sound s1).
    { intros cert' Hc. rewrite E7. congruence. }
    destruct (IH s1 s' Hcache1 H2) as (pairs & F & S & E & P).
    rewrite E5 in S, E. cbn in S, E. rewrite E7 in P.
    exists ((c, plain) :: pairs). repeat split; auto.
    + constructor.
      * exists ctx, parentTag, cert. auto.
      * eapply Forall2_impl; [|exact F].
        intros v pair (ctx' & t' & cert' & V1 & V2 & V3 & V4).
        exists ctx', t', cert'. rewrite E5, E7 in *. cbn in V2. auto.
    + cbn [splice]. now rewrite E4.
Qed.

Lemma remove_child_Some a cs rest :
  remove_child a cs = Some rest ->
  exists before removed after,
    cs = (before ++ removed :: after)%list /\
    addr removed = a /\
    Forall (fun x => addr x <> a) before /\
    rest = (before ++ after)%list.
Proof.
  revert rest. induction cs as [|x cs IH]; intros rest H; cbn in H.
  - discriminate.
  - destruct (Nat.eqb (addr x) a) eqn:E.
    + injection H as <-. apply Nat.eqb_eq in E.
      exists [], x, cs. auto.
    + destruct (remove_child a cs) as [rest'|]; [|discriminate].
      injection H as <-. apply Nat.eqb_neq in E.
      destruct (IH rest' eq_refl) as (b & r & af & E1 & E2 & E3 & E4).
      exists (x :: b), r, af. subst. auto.
Qed.


End Decryption.

(** ** The decryption key *)

Section KeyMaterial.

Context (X : Externals).

Lemma begun_cons p first new ev :
  begun p first new -> quiet p ev -> begun p first (ev :: new).
Proof.
  intros (more & k & E & Hk & Hq) Hev.
  exists (ev :: more), k. subst. repeat split; auto.
Qed.

Lemma begun_first p first :
  begun p first (asks p ++ [NSDetatchCall first]) /\
  begun p first [NSDetatchCall first].
Proof.
  split.
  - exists [], (asks p). repeat split; auto.
    unfold asks. destruct (SPKeyStore p) as [[|]|]; auto.
  - exists [], []. repeat split; auto.
Qed.

Lemma running_stopped p base first s :
  running p base first s -> stopped p base first s.
Proof.
  intros (Hp & new & cert & E1 & E2 & E3 & E4). split; [exact Hp|].
  exists new. repeat split; auto. intros cert' H. congruence.
Qed.

Lemma decryptAssertion_running p base first ctx c :
  hoare (running p base first) (decryptAssertion X ctx c)
    (fun _ => running p base first) (stopped p base first).
Proof.
  intros s Hrun. pose proof (running_stopped _ _ _ _ Hrun) as Hstop.
  destruct Hrun as (Hp & new & cert & E1 & E2 & E3 & E4).
  assert (Hnext : forall s',
             sp s' = p -> decryptCert s' = Some cert ->
             (exists evs, calls s' = (evs ++ calls s)%list /\
                          Forall (quiet p) evs) ->
             running p base first s').
  { intros s' H1 H2 (evs & H3 & H4). split; [exact H1|].
    exists (evs ++ new)%list, cert. rewrite H3, E1, app_assoc.
    repeat split; auto.
    clear H3. induction H4; cbn; auto using begun_cons. }
  rewrite decryptAssertion_eq. unfold obtain. reduce. rewrite E2.
  repeat (reduce || split_test); auto;
    try (apply running_stopped);
    apply Hnext; reduce; auto;
    try (eexists [_]; split; [reflexivity|]; repeat constructor; cbn; congruence);
    try (eexists [_; _]; split; [reflexivity|]; repeat constructor; cbn; congruence).
Qed.

Lemma stopped_intro p base first s new :
  sp s = p -> calls s = (new ++ base)%list ->
  (forall cert, decryptCert s = Some cert -> resolve p = inr cert) ->
  new = [] \/ begun p first new ->
  stopped p base first s.
Proof. intros H1 H2 H3 H4. split; [exact H1|]. exists new. auto. Qed.

Lemma running_intro p base first s new cert :
  sp s = p -> calls s = (new ++ base)%list ->
  decryptCert s = Some cert -> resolve p = inr cert ->
  begun p first new ->
  running p base first s.
Proof. intros H1 H2 H3 H4 H5. split; [exact H1|]. exists new, cert. auto. Qed.

Lemma decryptAssertion_first ctx c s :
  decryptCert s = None ->
  match decryptAssertion X ctx c s with
  | (Ok _, s') => running (sp s) (calls s) c s'
  | (_, s') => stopped (sp s) (calls s) c s'
  end.
Proof.
  intros Hnone.
  pose proof (begun_first (sp s) c) as [B1 B2].
  rewrite decryptAssertion_eq. unfold obtain. reduce. rewrite Hnone.
  repeat (reduce || split_test).
  all: try (apply stopped_intro with (new := []); reduce;
            [reflexivity | reflexivity | congruence | auto]).
  all: try (apply stopped_intro with (new := [NSDetatchCall c]); reduce;
            [reflexivity | reflexivity | congruence | auto]).
  all: try (apply stopped_intro
              with (new := (asks (sp s) ++ [NSDetatchCall c])%list); reduce;
            [reflexivity | same_calls | congruence | auto]).
  all: try (eapply stopped_intro
              with (new := (DecryptBytesCall _ _ :: asks (sp s)
                              ++ [NSDetatchCall c])%list); reduce;
            [reflexivity | same_calls | congruence
            | right; apply begun_cons; [auto | cbn; congruence]]).
  eapply running_intro
    with (new := (DecryptBytesCall _ _ :: asks (sp s) ++ [NSDetatchCall c])%list);
    reduce; [reflexivity | same_calls | reflexivity | congruence |].
  apply begun_cons; [auto | cbn; congruence].
Qed.

(** The calls of the whole pass, told by the first visit of its plan. *)
Lemma decryptAssertions_calls s :
  let s' := snd (decryptAssertions X s) in
  match found X (SAMLAssertionNamespace X) (EncryptedAssertionTag X) (el s) with
  | Visit ctx first :: _ => stopped (sp s) (calls s) first s'
  | _ => s' = set_decryptCert None s
  end.
Proof.
  cbv zeta. rewrite decryptAssertions_eq.
  destruct (found X _ _ (el s)) as [|[err|ctx first] l]; try reflexivity.
  cbn [runPlan]. unfold bind.
  pose proof (decryptAssertion_first ctx first (set_decryptCert None s) eq_refl)
    as H.
  cbn [sp calls set_decryptCert] in H.
  destruct (decryptAssertion X ctx first (set_decryptCert None s))
    as [[[]|e|msg] s1]; auto.
  pose proof (hoare_runPlan X (running (sp s) (calls s) first)
                (stopped (sp s) (calls s) first) (decryptAssertion X) l
                (running_stopped (sp s) (calls s) first)
                (decryptAssertion_running (sp s) (calls s) first) s1 H) as H1.
  destruct (runPlan X (decryptAssertion X) l s1) as [[[]|e|msg] s2]; auto.
  now apply running_stopped.
Qed.

Lemma quiet_no_lookup p more : Forall (quiet p) more -> lookups more = 0.
Proof.
  unfold lookups. induction 1 as [|ev more Hev _ IH]; [reflexivity|].
  destruct ev; cbn in *; auto; contradiction.
Qed.

Lemma lookups_app l1 l2 : lookups (l1 ++ l2) = lookups l1 + lookups l2.
Proof. unfold lookups. now rewrite filter_app, length_app. Qed.

Lemma lookups_In l : In GetKeyPairCall l -> 0 < lookups l.
Proof.
  unfold lookups. induction l as [|ev l IH]; cbn; [contradiction|].
  intros [->|H]; cbn; [lia|]. destruct (is_lookup ev); cbn; auto. lia.
Qed.

(** The closure on an element that reaches the decryption step: with a
    certificate in the cache it decrypts with that one and asks nothing;
    with an empty cache it has the key resolved, and goes on with the
    resolved certificate, now cached, or fails. *)
Lemma decryptAssertion_key_steps ctx c s parentTag enc :
  Parent c = Some (addr (el s), parentTag) ->
  ciphertext X ctx c = Some enc ->
  let r := decryptAssertion X ctx c s in
  (forall cert,
      decryptCert s = Some cert ->
      calls (snd r) = DecryptBytesCall enc cert :: NSDetatchCall c :: calls s /\
      decryptCert (snd r) = Some cert) /\
  (decryptCert s = None ->
   forall cert,
     resolve (sp s) = inr cert ->
     calls (snd r) =
       DecryptBytesCall enc cert
         :: (asks (sp s) ++ NSDetatchCall c :: calls s)%list /\
     decryptCert (snd r) = Some cert) /\
  (decryptCert s = None ->
   forall e,
     resolve (sp s) = inl e ->
     r = (Err (Errorf ("unable to get decryption certificate: " ++ Error X e)),
          set_calls (asks (sp s) ++ NSDetatchCall c :: calls s) s)).
Proof.
  intros HP Hc. cbv zeta. rewrite decryptAssertion_eq, HP, Nat.eqb_refl.
  cbn [negb]. cbv zeta. unfold ciphertext in Hc.
  destruct (NSDetatch X ctx c) as [err|detached]; [discriminate|].
  destruct (xmlUnmarshalElement X _ detached) as [e|enc']; [discriminate|].
  injection Hc as ->. unfold obtain, logged.
  cbn [decryptCert set_calls sp calls].
  refine (conj _ (conj _ _)).
  - intros cert Hcache. rewrite Hcache.
    repeat (reduce_tree || split_test); auto.
  - intros Hnone cert Hr. rewrite Hnone, Hr.
    repeat (reduce_tree || split_test); auto.
  - intros Hnone e Hr. rewrite Hnone, Hr. now destruct s.
Qed.

(** The closure ends well only on an element that reaches that step. *)
Lemma decryptAssertion_Ok_reaches ctx c s s' :
  decryptAssertion X ctx c s = (Ok tt, s') ->
  exists parentTag enc,
    Parent c = Some (addr (el s), parentTag) /\ ciphertext X ctx c = Some enc.
Proof.
  rewrite decryptAssertion_eq. unfold ciphertext.
  destruct (Parent c) as [[a parentTag]|]; [|discriminate].
  destruct (a =? addr (el s))%nat eqn:Ha; [|discriminate].
  apply Nat.eqb_eq in Ha. subst a. cbn [negb]. cbv zeta.
  destruct (NSDetatch X ctx c) as [err|detached]; [discriminate|].
  destruct (xmlUnmarshalElement X _ detached) as [e|enc]; [discriminate|].
  intros _. now exists parentTag, enc.
Qed.

(** On an element that does not reach it, the closure fails and the key
    store is not asked. *)
Lemma decryptAssertion_unreached ctx c s :
  (forall parentTag enc,
      Parent c = Some (addr (el s), parentTag) ->
      ciphertext X ctx c = Some enc -> False) ->
  let r := decryptAssertion X ctx c s in
  fst r <> Ok tt /\
  (calls (snd r) = calls s \/ calls (snd r) = NSDetatchCall c :: calls s).
Proof.
  intros Hun. cbv zeta. rewrite decryptAssertion_eq.
  destruct (Parent c) as [[a parentTag]|]; [|split; [discriminate|now left]].
  destruct (a =? addr (el s))%nat eqn:Ha; cbn [negb];
    [|split; [discriminate|now left]].
  apply Nat.eqb_eq in Ha. subst a. cbv zeta.
  specialize (Hun parentTag). unfold ciphertext in Hun.
  destruct (NSDetatch X ctx c) as [err|detached];
    [split; [discriminate|now right]|].
  destruct (xmlUnmarshalElement X _ detached) as [e|enc];
    [split; [discriminate|now right]|].
  now elim (Hun enc).
Qed.

Lemma reaches_dec ctx c s :
  (exists parentTag enc,
      Parent c = Some (addr (el s), parentTag) /\
      ciphertext X ctx c = Some enc) \/
  (forall parentTag enc,
      Parent c = Some (addr (el s), parentTag) ->
      ciphertext X ctx c = Some enc -> False).
Proof.
  destruct (Parent c) as [[a t]|]; [|right; discriminate].
  destruct (Nat.eq_dec a (addr (el s))) as [->|Ha].
  - destruct (ciphertext X ctx c) as [enc|]; [left; eauto|right; discriminate].
  - right. intros t' enc' E _. injection E as E _. contradiction.
Qed.

(** A pass whose first element does not reach the decryption step ends
    there, the key store not asked. *)
Lemma decryptAssertions_unreached s ctx first rest :
  found X (SAMLAssertionNamespace X) (EncryptedAssertionTag X) (el s)
    = Visit ctx first :: rest ->
  (forall parentTag enc,
      Parent first = Some (addr (el s), parentTag) ->
      ciphertext X ctx first = Some enc -> False) ->
  calls (snd (decryptAssertions X s)) = calls s \/
  calls (snd (decryptAssertions X s)) = NSDetatchCall first :: calls s.
Proof.
  intros Hfound Hno. rewrite decryptAssertions_eq, Hfound. cbn [runPlan].
  destruct (decryptAssertion_unreached ctx first (set_decryptCert None s) Hno)
    as (Hfail & Hcl).
  unfold bind.
  destruct (decryptAssertion X ctx first (set_decryptCert None s))
    as [[[]|e|msg] s1]; cbn [fst snd] in *; auto.
  now elim Hfail.
Qed.

Lemma lookups_later cert (l : list (visit X)) :
  lookups (later_calls X cert l) = 0.
Proof.
  induction l as [|[err|ctx c] l IH]; cbn [later_calls]; auto.
  rewrite lookups_app, IH. now destruct (ciphertext X ctx c).
Qed.

Lemma lookups_asks p : lookups (asks p) = length (asks p).
Proof. unfold asks. now destruct (SPKeyStore p) as [[crt|kp]|]. Qed.

(** With a certificate in its cache, a pass that ends well has detached
    each element and decrypted it with that certificate, and nothing
    else. *)
Lemma runPlan_decrypt_later l :
  forall s s' cert,
    decryptCert s = Some cert ->
    runPlan X (decryptAssertion X) l s = (Ok tt, s') ->
    calls s' = (later_calls X cert l ++ calls s)%list /\
    decryptCert s' = Some cert.
Proof.
  induction l as [|[err|ctx c] l IH]; intros s s' cert Hcache H;
    cbn [runPlan] in H.
  - injection H as <-. now split.
  - discriminate.
  - apply bind_inv_Ok in H. destruct H as ([] & s1 & H1 & H2).
    destruct (decryptAssertion_Ok_reaches _ _ _ _ H1) as (t & enc & HP & Hc).
    destruct (proj1 (decryptAssertion_key_steps ctx c s t enc HP Hc) cert Hcache)
      as (E1 & E2).
    rewrite H1 in E1, E2. cbn [snd] in E1, E2.
    destruct (IH s1 s' cert E2 H2) as (E3 & E4). split; [|exact E4].
    cbn [later_calls]. now rewrite E3, E1, Hc, <- app_assoc.
Qed.

Lemma decryptAssertions_Ok_calls s s' ctx first rest :
  found X (SAMLAssertionNamespace X) (EncryptedAssertionTag X) (el s)
    = Visit ctx first :: rest ->
  decryptAssertions X s = (Ok tt, s') ->
  exists cert,
    resolve (sp s) = inr cert /\
    decryptCert s' = Some cert /\
    calls s' =
      (pass_calls X (sp s) cert
         (found X (SAMLAssertionNamespace X) (EncryptedAssertionTag X) (el s))
         ++ calls s)%list.
Proof.
  intros Hfound H. rewrite decryptAssertions_eq, Hfound in H.
  cbn [runPlan] in H. apply bind_inv_Ok in H.
  destruct H as ([] & s1 & H1 & H2).
  destruct (decryptAssertion_Ok_reaches _ _ _ _ H1) as (t & enc & HP & Hc).
  destruct (decryptAssertion_key_steps ctx first (set_decryptCert None s) t enc
              HP Hc) as (_ & Hfirst & Hfail).
  cbn [sp calls decryptCert set_decryptCert] in Hfirst, Hfail.
  destruct (resolve (sp s)) as [e|cert] eqn:Hr.
  - rewrite (Hfail eq_refl e eq_refl) in H1. discriminate.
  - destruct (Hfirst eq_refl cert eq_refl) as (E1 & E2).
    rewrite H1 in E1, E2. cbn [snd] in E1, E2.
    destruct (runPlan_decrypt_later _ _ _ _ E2 H2) as (E3 & E4).
    exists cert. split; [reflexivity|]. split; [exact E4|].
    rewrite Hfound. cbn [pass_calls]. rewrite Hc, E3, E1, <- app_assoc.
    cbn [app]. now rewrite <- app_assoc.
Qed.

Lemma lookups_pass p cert (l : list (visit X)) ctx first rest enc :
  l = Visit ctx first :: rest ->
  ciphertext X ctx first = Some enc ->
  lookups (pass_calls X p cert l) = length (asks p).
Proof.
  intros -> Hc. cbn [pass_calls]. rewrite Hc, lookups_app, lookups_later.
  change (DecryptBytesCall enc cert :: asks p ++ [NSDetatchCall first])%list
    with ([DecryptBytesCall enc cert] ++ asks p ++ [NSDetatchCall first])%list.
  rewrite !lookups_app, lookups_asks. cbn. lia.
Qed.

(** C8: the decryption key within one pass.  [resolve] is what
    [getDecryptCert] returns, and without a key store that is the error
    "no decryption certs available".

    An element reaches the decryption step when its parent is [el] and it
    was detached and unmarshalled.  On such an element the closure, with
    an empty cache, has the key resolved there and then: it asks the key
    store, if [getDecryptCert] has to, caches the resolved certificate and
    decrypts with it, or fails with "unable to get decryption certificate"
    when the resolution fails.  With a certificate in the cache it asks
    nothing and decrypts with the cached certificate, which stays.

    A pass that ends well has made exactly the calls of [pass_calls]: the
    key store is asked on the first element only, as many times as
    [getDecryptCert] asks (once for a key store that is not a TLS
    certificate), every element is decrypted with the one resolved
    certificate, and that certificate is left in the cache.  A pass whose
    first element reaches the decryption step with a key store that does
    not resolve fails with the error of the resolution.

    Whatever the result of the pass: the key store is asked at most once;
    that call comes straight after the first located element was detached,
    which then has reached the decryption step, and before any decryption;
    every decryption uses the resolved certificate, which is also the one
    left in the cache. *)
Theorem key_resolved_lazily_once s :
  let s' := snd (decryptAssertions X s) in
  let l := found X (SAMLAssertionNamespace X) (EncryptedAssertionTag X) (el s) in
  (forall s0,
      fst (getDecryptCert s0) =
      match resolve (sp s0) with inl e => Err e | inr cert => Ok cert end) /\
  (SPKeyStore (sp s) = None ->
   getDecryptCert s = (Err (Errorf "no decryption certs available"), s)) /\
  (forall ctx c s1 parentTag enc,
      Parent c = Some (addr (el s1), parentTag) ->
      ciphertext X ctx c = Some enc ->
      let r := decryptAssertion X ctx c s1 in
      (forall cert,
          decryptCert s1 = Some cert ->
          calls (snd r) =
            DecryptBytesCall enc cert :: NSDetatchCall c :: calls s1 /\
          decryptCert (snd r) = Some cert) /\
      (decryptCert s1 = None ->
       forall cert,
         resolve (sp s1) = inr cert ->
         calls (snd r) =
           DecryptBytesCall enc cert
             :: (asks (sp s1) ++ NSDetatchCall c :: calls s1)%list /\
         decryptCert (snd r) = Some cert) /\
      (decryptCert s1 = None ->
       forall e,
         resolve (sp s1) = inl e ->
         r = (Err (Errorf ("unable to get decryption certificate: "
                             ++ Error X e)),
              set_calls (asks (sp s1) ++ NSDetatchCall c :: calls s1) s1))) /\
  (forall ctx first rest,
      l = Visit ctx first :: rest ->
      fst (decryptAssertions X s) = Ok tt ->
      exists cert,
        resolve (sp s) = inr cert /\
        decryptCert s' = Some cert /\
        calls s' = (pass_calls X (sp s) cert l ++ calls s)%list /\
        lookups (pass_calls X (sp s) cert l) = length (asks (sp s))) /\
  (forall ctx first rest parentTag enc e,
      l = Visit ctx first :: rest ->
      Parent first = Some (addr (el s), parentTag) ->
      ciphertext X ctx first = Some enc ->
      resolve (sp s) = inl e ->
      decryptAssertions X s =
      (Err (Errorf ("unable to get decryption certificate: " ++ Error X e)),
       set_calls (asks (sp s) ++ NSDetatchCall first :: calls s)
         (set_decryptCert None s))) /\
  exists new,
    calls s' = (new ++ calls s)%list /\
    lookups new <= 1 /\
    (forall enc cert,
        In (DecryptBytesCall enc cert) new -> resolve (sp s) = inr cert) /\
    (forall cert, decryptCert s' = Some cert -> resolve (sp s) = inr cert) /\
    (In GetKeyPairCall new ->
     exists ctx first rest more,
       l = Visit ctx first :: rest /\
       new = (more ++ [GetKeyPairCall; NSDetatchCall first])%list /\
       lookups more = 0 /\
       (exists parentTag, Parent first = Some (addr (el s), parentTag)) /\
       (exists enc, ciphertext X ctx first = Some enc)).
Proof.
  cbv zeta. refine (conj _ (conj _ (conj _ (conj _ (conj _ _))))).
  - intros s0. now rewrite getDecryptCert_eq.
  - intros Hnone. rewrite getDecryptCert_eq. unfold resolve, asks.
    rewrite Hnone. now destruct s.
  - intros ctx c s1 parentTag enc HP Hc.
    exact (decryptAssertion_key_steps ctx c s1 parentTag enc HP Hc).
  - intros ctx first rest Hfound Hok.
    destruct (decryptAssertions X s) as [[[]|e|msg] s1] eqn:Hpass;
      try discriminate.
    destruct (decryptAssertions_Ok_calls _ _ _ _ _ Hfound Hpass)
      as (cert & E1 & E2 & E3).
    exists cert. cbn [snd]. refine (conj E1 (conj E2 (conj E3 _))).
    rewrite decryptAssertions_eq, Hfound in Hpass. cbn [runPlan] in Hpass.
    apply bind_inv_Ok in Hpass. destruct Hpass as ([] & s2 & H1 & _).
    destruct (decryptAssertion_Ok_reaches _ _ _ _ H1) as (t & enc & _ & Hc).
    exact (lookups_pass _ _ _ _ _ _ _ Hfound Hc).
  - intros ctx first rest parentTag enc e Hfound HP Hc Hr.
    rewrite decryptAssertions_eq, Hfound. cbn [runPlan]. apply bind_Err.
    exact (proj2 (proj2 (decryptAssertion_key_steps ctx first
                           (set_decryptCert None s) parentTag enc HP Hc))
             eq_refl e Hr).
  - pose proof (decryptAssertions_calls s) as H. cbv zeta in H.
    destruct (found X _ _ (el s)) as [|[err|ctx first] l] eqn:Hfound.
    + exists []. rewrite H. cbn.
      repeat split; auto; intros; try contradiction; discriminate.
    + exists []. rewrite H. cbn.
      repeat split; auto; intros; try contradiction; discriminate.
    + destruct H as (Hp & new & Hcalls & Hcache & Hnew). exists new.
      split; [exact Hcalls|]. destruct Hnew as [->|(more & k & E & Hk & Hq)].
      * cbn. repeat split; auto; intros; contradiction.
      * pose proof (quiet_no_lookup _ _ Hq) as Hmore. subst new.
        refine (conj _ (conj _ (conj Hcache _))).
        -- rewrite !lookups_app, Hmore. destruct Hk as [->| ->]; cbn; lia.
        -- intros enc cert Hin. apply in_app_or in Hin.
           destruct Hin as [Hin|Hin].
           ++ rewrite Forall_forall in Hq. exact (Hq _ Hin).
           ++ apply in_app_or in Hin.
              destruct Hin as [Hin|[Hin|[]]]; [|discriminate].
              destruct Hk as [->| ->]; [contradiction|].
              destruct Hin as [Hin|[]]. discriminate.
        -- intros Hin.
           assert (Hk' : k = [GetKeyPairCall]).
           { destruct Hk as [->| ->]; [|reflexivity].
             apply lookups_In in Hin. rewrite lookups_app, Hmore in Hin.
             cbn in Hin. lia. }
           subst k. exists ctx, first, l, more.
           refine (conj eq_refl (conj eq_refl (conj Hmore _))).
           assert (Hreach : exists parentTag enc,
                      Parent first = Some (addr (el s), parentTag) /\
                      ciphertext X ctx first = Some enc).
           { destruct (reaches_dec ctx first s) as [Hyes|Hno]; [exact Hyes|].
             exfalso.
             destruct (decryptAssertions_unreached s ctx first l Hfound Hno)
               as [Hcl|Hcl]; rewrite Hcl in Hcalls;
               apply (f_equal (@length event)) in Hcalls;
               rewrite !length_app in Hcalls; cbn in Hcalls; lia. }
           destruct Hreach as (t & enc & HP & Hc). eauto.
Qed.

End KeyMaterial.

(** ** Responses without encrypted assertions *)

Section NoEncryptedAssertion.

Context (X : Externals).

Lemma runPlan_no_visit handle l s :
  no_visit X l ->
  runPlan X handle l s =
  (match l with
   | Abort err :: _ => Err (ErrExternal err)
   | _ => Ok tt
   end, s).
Proof.
  intros H. destruct l as [|[err|ctx c] l]; try reflexivity.
  elim (H ctx c). now left.
Qed.

(** C10: when the search finds no encrypted-assertion element in the
    response, the decryption pass makes no call at all, leaves the state as
    it found it (the cache empty), and gives the result it would give
    without a key store.  An error made by [fmt.Errorf], such as "unable to
    get decryption certificate: no decryption certs available", therefore
    comes with at least one encrypted-assertion element found.  The toy
    response with a signed envelope and no encrypted assertion validates
    with [SPKeyStore] nil. *)
Theorem no_encrypted_assertion_no_key_lookup s :
  (no_visit X (found X (SAMLAssertionNamespace X) (EncryptedAssertionTag X) (el s)) ->
   snd (decryptAssertions X s) = set_decryptCert None s /\
   (forall store,
       decryptAssertions X (set_sp (with_store store (sp s)) s) =
       (fst (decryptAssertions X s),
        set_sp (with_store store (sp s)) (snd (decryptAssertions X s))))) /\
  (forall msg s',
      decryptAssertions X s = (Err (Errorf msg), s') ->
      exists ctx c,
        In (Visit ctx c)
          (found X (SAMLAssertionNamespace X) (EncryptedAssertionTag X) (el s))) /\
  fst (ValidateEncodedResponse Demo.world "envelope"
         (Demo.start (Demo.provider None false)))
    = Ok (mkResponse "https://sp/acs" "2.0" EmptyString).
Proof.
  split; [|split].
  - intros Hno. rewrite decryptAssertions_eq.
    rewrite runPlan_no_visit by exact Hno. cbn [fst snd]. split; [reflexivity|].
    intros store. rewrite decryptAssertions_eq. cbn [el set_sp].
    now rewrite runPlan_no_visit by exact Hno.
  - intros msg s' H. rewrite decryptAssertions_eq in H.
    destruct (found X _ _ (el s)) as [|[err|ctx c] l].
    + cbn in H. discriminate.
    + cbn in H. discriminate.
    + exists ctx, c. now left.
  - vm_compute. reflexivity.
Qed.

End NoEncryptedAssertion.

(** ** Signed and unsigned assertions *)

Section Enforcement.

Context (X : Externals).

Lemma validateAssertion_Ok ctx c s s' :
  validateAssertion X ctx c s = (Ok tt, s') ->
  sp s' = sp s /\
  (signature_of X (sp s) ctx c = Some false /\
   signedAssertions s' = signedAssertions s /\
   unsignedAssertions s' = S (unsignedAssertions s) /\
   el s' = el s \/
   signature_of X (sp s) ctx c = Some true /\
   signedAssertions s' = S (signedAssertions s) /\
   unsignedAssertions s' = unsignedAssertions s).
Proof.
  rewrite validateAssertion_eq. unfold signature_of.
  destruct (Parent c) as [[a parentTag]|]; [|discriminate].
  destruct (negb (a =? addr (el s))%nat); [discriminate|]. cbv zeta.
  destruct (NSDetatch X ctx c) as [err|detached]; [discriminate|].
  destruct (dsig_Validate X (validationContext (sp s)) detached)
    as [assertion| |reason]; [| |discriminate].
  - destruct (remove_child (addr c) (Child (el s))) as [rest|]; [|discriminate].
    destruct assertion as [verified|]; [|discriminate].
    intros H. injection H as <-. cbn. auto.
  - intros H. injection H as <-. cbn. split; [reflexivity|]. left. auto.
Qed.

(** The counters after a search that ended well count the located
    assertions by signature state. *)
Lemma runPlan_validate_counts l :
  forall s s',
    runPlan X (validateAssertion X) l s = (Ok tt, s') ->
    sp s' = sp s /\
    signedAssertions s' = signedAssertions s + count_signature X (sp s) true l /\
    unsignedAssertions s' =
      unsignedAssertions s + count_signature X (sp s) false l.
Proof.
  induction l as [|[err|ctx c] l IH]; intros s s' H; cbn [runPlan] in H.
  - injection H as <-. cbn. auto.
  - discriminate.
  - apply bind_inv_Ok in H. destruct H as ([] & s1 & H1 & H2).
    apply validateAssertion_Ok in H1. destruct H1 as (Hp & Hc).
    destruct (IH s1 s' H2) as (Hp' & Hs & Hu). rewrite Hp in *.
    split; [congruence|]. cbn [count_signature].
    destruct Hc as [(E1 & E2 & E3 & E4)|(E1 & E2 & E3)]; rewrite E1; cbn; lia.
Qed.

Lemma tally_eq s :
  tally s =
  if (0 <? signedAssertions s)%nat && (0 <? unsignedAssertions s)%nat then
    (Err (Errorf "invalid to have both signed and unsigned assertions"), s)
  else if (signedAssertions s <? 1)%nat then (Err ErrMissingSignature, s)
  else (Ok tt, s).
Proof.
  unfold tally. rewrite !bind_gets.
  destruct ((0 <? signedAssertions s)%nat && (0 <? unsignedAssertions s)%nat);
    [reflexivity|].
  destruct (signedAssertions s <? 1)%nat; reflexivity.
Qed.

Lemma enforceSignatures_eq flag s :
  enforceSignatures X flag s =
  if SkipSignatureValidation (sp s) then (Ok tt, s)
  else
    match validateAssertionSignatures X s with
    | (Ok _, s') => (Ok tt, s')
    | (Err ErrMissingSignature, s') =>
        if flag then (Ok tt, s')
        else (Err (Errorf "response and/or assertions must be signed"), s')
    | (Err e, s') => (Err e, s')
    | (Panic msg, s') => (Panic msg, s')
    end.
Proof.
  unfold enforceSignatures. rewrite bind_gets.
  destruct (SkipSignatureValidation (sp s)); [reflexivity|]. cbn [negb].
  unfold bind, catch.
  destruct (validateAssertionSignatures X s) as [[[]|e|msg] s']; try reflexivity.
  destruct e; try reflexivity. now destruct flag.
Qed.

Lemma decryptAssertions_sp s : sp (snd (decryptAssertions X s)) = sp s.
Proof.
  rewrite decryptAssertions_eq.
  apply (runPlan_decrypt_anchored X _ s (set_decryptCert None s)).
  now split.
Qed.

(** The flag that [validateRoot] returns tells whether [Validate]
    returned a validated root. *)
Lemma validateRoot_Ok root s0 flag s :
  validateRoot X root s0 = (Ok flag, s) ->
  sp s = sp s0 /\
  (SkipSignatureValidation (sp s0) = false ->
   (flag = true <->
    exists validated,
      dsig_Validate X (validationContext (sp s0)) root
        = Validated (Some validated)) /\
   (flag = false <->
    dsig_Validate X (validationContext (sp s0)) root = MissingSignature)).
Proof.
  rewrite validateRoot_eq. intros H.
  assert (Hcont : forall b s1,
             (decryptAssertions X;; ret b) s1 = (Ok flag, s) ->
             flag = b /\ sp s = sp s1).
  { intros b s1 H1. apply bind_inv_Ok in H1.
    destruct H1 as ([] & s2 & H1 & H2). injection H2 as <- <-.
    split; [reflexivity|].
    pose proof (decryptAssertions_sp s1) as Hp. now rewrite H1 in Hp. }
  destruct (SkipSignatureValidation (sp s0)) eqn:Hskip.
  - apply Hcont in H. destruct H as [_ H]. split; [exact H|discriminate].
  - destruct (dsig_Validate X (validationContext (sp s0)) root)
      as [[v|]| |reason]; try discriminate;
      apply Hcont in H; destruct H as [-> H]; (split; [exact H|]);
      intros _; split; split; try discriminate; try reflexivity; eauto.
    + intros [v' Hv]. discriminate.
Qed.

(** C2: once the search of [validateAssertionSignatures] has gone over
    all assertion elements, its counters count the located assertions whose
    detached copy validated and those that reported a missing signature.
    With both counters above zero the pass returns the mixed
    signed/unsigned error, and so does [ValidateEncodedResponse], whether
    the envelope was validated or not. *)
Theorem mixed_assertions_rejected s s1 :
  NSFindIterate X (el s) (SAMLAssertionNamespace X) (AssertionTag X)
    (validateAssertion X) (reset s) = (Ok tt, s1) ->
  let l := found X (SAMLAssertionNamespace X) (AssertionTag X) (el s) in
  let mixed := Errorf "invalid to have both signed and unsigned assertions" in
  signedAssertions s1 = count_signature X (sp s) true l /\
  unsignedAssertions s1 = count_signature X (sp s) false l /\
  (0 < signedAssertions s1 -> 0 < unsignedAssertions s1 ->
   validateAssertionSignatures X s = (Err mixed, s1) /\
   (forall responseSignatureValidated,
       SkipSignatureValidation (sp s) = false ->
       enforceSignatures X responseSignatureValidated s = (Err mixed, s1)) /\
   (forall encodedResponse root s0 responseSignatureValidated,
       decode X encodedResponse = inr root ->
       validateRoot X root s0 = (Ok responseSignatureValidated, s) ->
       SkipSignatureValidation (sp s) = false ->
       ValidateEncodedResponse X encodedResponse s0 = (Err mixed, s1))).
Proof.
  intros Hrun l mixed.
  rewrite NSFindIterate_runPlan in Hrun by apply validateAssertion_never_halts.
  destruct (runPlan_validate_counts _ _ _ Hrun) as (Hp & Hs & Hu).
  cbn in Hs, Hu. fold l in Hs, Hu.
  split; [exact Hs|]. split; [exact Hu|]. intros Hsigned Hunsigned.
  assert (Hpass : validateAssertionSignatures X s = (Err mixed, s1)).
  { rewrite validateAssertionSignatures_eq.
    rewrite (bind_Ok _ _ _ _ _ _ _ Hrun), tally_eq.
    apply Nat.ltb_lt in Hsigned, Hunsigned. now rewrite Hsigned, Hunsigned. }
  assert (Henf : forall flag,
             SkipSignatureValidation (sp s) = false ->
             enforceSignatures X flag s = (Err mixed, s1)).
  { intros flag Hskip. now rewrite enforceSignatures_eq, Hskip, Hpass. }
  repeat split; auto.
  intros enc root s0 flag Hdec Hroot Hskip.
  rewrite ValidateEncodedResponse_decode, Hdec.
  rewrite (bind_Ok _ _ _ _ _ _ _ Hroot). apply bind_Err. now apply Henf.
Qed.

End Enforcement.

(** ** The end of the pipeline *)

Section Verdict.

Context (X : Externals).

Lemma validateAssertionSignatures_sp s :
  sp (snd (validateAssertionSignatures X s)) = sp s.
Proof.
  rewrite validateAssertionSignatures_eq. unfold bind.
  pose proof (runPlan_validate_anchored X
                (found X (SAMLAssertionNamespace X) (AssertionTag X) (el s))
                s (reset s)) as H.
  destruct (runPlan X _ _ (reset s)) as [[[]|e|msg] s1]; cbn [snd] in *;
    try (apply H; now split).
  rewrite tally_eq.
  destruct (_ && _); [|destruct (_ <? _)%nat]; cbn [snd]; apply H; now split.
Qed.

Lemma enforceSignatures_sp flag s :
  sp (snd (enforceSignatures X flag s)) = sp s.
Proof.
  rewrite enforceSignatures_eq.
  destruct (SkipSignatureValidation (sp s)); [reflexivity|].
  pose proof (validateAssertionSignatures_sp s) as H.
  destruct (validateAssertionSignatures X s) as [[[]|e|msg] s1]; cbn [snd] in *;
    auto.
  destruct e; auto. now destruct flag.
Qed.

Lemma unmarshalAndValidate_eq s :
  unmarshalAndValidate X s =
  match xmlUnmarshalElement X (xml_Unmarshal_Response X) (el s) with
  | inl e => (Err (Errorf ("unable to unmarshal response: " ++ Error X e)), s)
  | inr response =>
      match validateResponseAttributes X (sp s) response with
      | Some e => (Err e, s)
      | None =>
          match validateExtended X (sp s) response with
          | Some e => (Err e, s)
          | None => (Ok response, s)
          end
      end
  end.
Proof.
  unfold unmarshalAndValidate, Validate, wrapf, liftE, bind, gets, fail, ret.
  destruct (xmlUnmarshalElement X _ (el s)) as [e|response]; [reflexivity|].
  destruct (validateResponseAttributes X (sp s) response); [reflexivity|].
  destruct (validateExtended X (sp s) response); reflexivity.
Qed.

(** C1: signature checking is on and the enforcement pass returns
    [dsig.ErrMissingSignature].  The flag of the root validation is true
    exactly when [Validate] returned a validated root.  With the flag false
    the call fails with "response and/or assertions must be signed"; with
    the flag true the missing signature is let through and the call goes on
    to unmarshal the element and validate the typed response, which it
    returns when those succeed. *)
Theorem missing_signature_needs_validated_envelope
    encodedResponse root s0 responseSignatureValidated s s' :
  decode X encodedResponse = inr root ->
  SkipSignatureValidation (sp s0) = false ->
  validateRoot X root s0 = (Ok responseSignatureValidated, s) ->
  validateAssertionSignatures X s = (Err ErrMissingSignature, s') ->
  (responseSignatureValidated = true <->
   exists validated,
     dsig_Validate X (validationContext (sp s0)) root
       = Validated (Some validated)) /\
  (responseSignatureValidated = false ->
   enforceSignatures X responseSignatureValidated s =
     (Err (Errorf "response and/or assertions must be signed"), s') /\
   ValidateEncodedResponse X encodedResponse s0 =
     (Err (Errorf "response and/or assertions must be signed"), s')) /\
  (responseSignatureValidated = true ->
   enforceSignatures X responseSignatureValidated s = (Ok tt, s') /\
   ValidateEncodedResponse X encodedResponse s0 = unmarshalAndValidate X s' /\
   forall response,
     xmlUnmarshalElement X (xml_Unmarshal_Response X) (el s') = inr response ->
     validateResponseAttributes X (sp s') response = None ->
     validateExtended X (sp s') response = None ->
     ValidateEncodedResponse X encodedResponse s0 = (Ok response, s')).
Proof.
  intros Hdec Hskip Hroot Hpass.
  destruct (validateRoot_Ok X root s0 _ _ Hroot) as (Hp & Hflag).
  destruct (Hflag Hskip) as (Htrue & Hfalse).
  assert (Hskip' : SkipSignatureValidation (sp s) = false) by congruence.
  split; [exact Htrue|].
  assert (Hver : ValidateEncodedResponse X encodedResponse s0 =
                 (enforceSignatures X responseSignatureValidated;;
                  unmarshalAndValidate X) s).
  { rewrite ValidateEncodedResponse_decode, Hdec.
    now rewrite (bind_Ok _ _ _ _ _ _ _ Hroot). }
  split; intros ->.
  - assert (E : enforceSignatures X false s =
                (Err (Errorf "response and/or assertions must be signed"), s')).
    { now rewrite enforceSignatures_eq, Hskip', Hpass. }
    split; [exact E|]. rewrite Hver. now apply bind_Err.
  - assert (E : enforceSignatures X true s = (Ok tt, s')).
    { now rewrite enforceSignatures_eq, Hskip', Hpass. }
    split; [exact E|].
    assert (E' : ValidateEncodedResponse X encodedResponse s0 =
                 unmarshalAndValidate X s').
    { rewrite Hver. now rewrite (bind_Ok _ _ _ _ _ _ _ E). }
    split; [exact E'|]. intros response H1 H2 H3.
    now rewrite E', unmarshalAndValidate_eq, H1, H2, H3.
Qed.

(** C7, amended: [validateResponseAttributes] checks the destination
    first.  It returns the invalid-value error of the destination when the
    Destination attribute differs from the configured
    [AssertionConsumerServiceURL], whatever the version.  When the Version
    attribute is not "2.0" it returns an invalid-value error as well, which
    is the unsupported-version one when the destination matches.  It
    returns no error when both attributes match.  In
    [ValidateEncodedResponse], a response that came through root
    validation, decryption and signature enforcement and is unmarshalled
    with either mismatch ends the call with that error. *)
Theorem destination_and_version_checked p response :
  (Destination response <> AssertionConsumerServiceURL p ->
   validateResponseAttributes X p response =
   Some (ErrInvalidValue
           {| Reason := EmptyString;
              Key := DestinationAttr X;
              Expected := AssertionConsumerServiceURL p;
              Actual := Destination response |})) /\
  (Version response <> "2.0" ->
   exists v,
     validateResponseAttributes X p response = Some (ErrInvalidValue v) /\
     (Destination response = AssertionConsumerServiceURL p ->
      v = {| Reason := ReasonUnsupported X;
             Key := "SAML version";
             Expected := "2.0";
             Actual := Version response |})) /\
  (Destination response = AssertionConsumerServiceURL p ->
   Version response = "2.0" ->
   validateResponseAttributes X p response = None) /\
  (forall encodedResponse root s0 responseSignatureValidated s1 s2,
      sp s0 = p ->
      decode X encodedResponse = inr root ->
      validateRoot X root s0 = (Ok responseSignatureValidated, s1) ->
      enforceSignatures X responseSignatureValidated s1 = (Ok tt, s2) ->
      xmlUnmarshalElement X (xml_Unmarshal_Response X) (el s2) = inr response ->
      Destination response <> AssertionConsumerServiceURL p \/
      Version response <> "2.0" ->
      exists v,
        validateResponseAttributes X p response = Some (ErrInvalidValue v) /\
        ValidateEncodedResponse X encodedResponse s0 =
        (Err (ErrInvalidValue v), s2)).
Proof.
  assert (Hdest : Destination response <> AssertionConsumerServiceURL p ->
                  validateResponseAttributes X p response =
                  Some (ErrInvalidValue
                          {| Reason := EmptyString;
                             Key := DestinationAttr X;
                             Expected := AssertionConsumerServiceURL p;
                             Actual := Destination response |})).
  { intros H. unfold validateResponseAttributes.
    apply String.eqb_neq in H. now rewrite H. }
  assert (Hvers : Version response <> "2.0" ->
                  exists v,
                    validateResponseAttributes X p response
                      = Some (ErrInvalidValue v) /\
                    (Destination response = AssertionConsumerServiceURL p ->
                     v = {| Reason := ReasonUnsupported X;
                            Key := "SAML version";
                            Expected := "2.0";
                            Actual := Version response |})).
  { intros H. unfold validateResponseAttributes.
    apply String.eqb_neq in H. rewrite H.
    destruct (Destination response =? AssertionConsumerServiceURL p) eqn:E;
      cbn [negb]; eexists; (split; [reflexivity|]).
    - reflexivity.
    - apply String.eqb_neq in E. intros; contradiction. }
  refine (conj Hdest (conj Hvers (conj _ _))).
  - intros H1 H2. unfold validateResponseAttributes.
    apply String.eqb_eq in H1, H2. now rewrite H1, H2.
  - intros enc root s0 flag s1 s2 Hp Hdec Hroot Henf Hun Hbad.
    assert (Hv : exists v, validateResponseAttributes X p response
                           = Some (ErrInvalidValue v)).
    { destruct Hbad as [H|H]; [eauto|]. destruct (Hvers H) as (v & E & _). eauto. }
    destruct Hv as (v & Hv). exists v. split; [exact Hv|].
    assert (Hp2 : sp s2 = p).
    { destruct (validateRoot_Ok X root s0 _ _ Hroot) as (E1 & _).
      pose proof (enforceSignatures_sp flag s1) as E2. rewrite Henf in E2.
      cbn [snd] in E2. congruence. }
    rewrite ValidateEncodedResponse_decode, Hdec.
    rewrite (bind_Ok _ _ _ _ _ _ _ Hroot), (bind_Ok _ _ _ _ _ _ _ Henf).
    now rewrite unmarshalAndValidate_eq, Hun, Hp2, Hv.
Qed.

End Verdict.

(** ** Two runs *)

Section TwoRuns.

Context (X : Externals).

Lemma rel_bind A B P Q Q' R (m : M A) (k : A -> M B) :
  rel P m Q R -> (forall a, rel Q (k a) Q' R) -> rel P (bind m k) Q' R.
Proof.
  intros Hm Hk s s' H. destruct (Hm s s' H) as (E1 & E2).
  unfold bind.
  destruct (m s) as [o s1], (m s') as [o' s1']. cbn [fst snd] in *. subst o'.
  destruct o as [a|e|msg]; cbn [fst snd]; auto.
  now apply Hk.
Qed.

Lemma rel_weaken A (P P' Q Q' R R' : State -> State -> Prop) (m : M A) :
  rel P' m Q' R' ->
  (forall s s', P s s' -> P' s s') -> (forall s s', Q' s s' -> Q s s') ->
  (forall s s', R' s s' -> R s s') ->
  rel P m Q R.
Proof.
  intros H HP HQ HR s s' Hs. destruct (H s s' (HP s s' Hs)) as (E1 & E2).
  split; auto. destruct (fst (m s)); auto.
Qed.

Lemma rel_runPlan (I : State -> State -> Prop) handle l :
  (forall ctx c, rel I (handle ctx c) I I) ->
  rel I (runPlan X handle l) I I.
Proof.
  intros Hh. induction l as [|[err|ctx c] l IH]; cbn [runPlan].
  - intros s s' H. cbn. auto.
  - intros s s' H. cbn. auto.
  - eapply rel_bind; [apply Hh|]. intros []. exact IH.
Qed.

(** The closures read the provider, [el] and their own variables, never
    the record of calls. *)
Lemma decryptAssertion_rel ctx c :
  rel (agree true true false) (decryptAssertion X ctx c)
    (agree true true false) (agree true true false).
Proof.
  intros s s' (Hsp & Hel & Hc & _).
  specialize (Hel eq_refl). specialize (Hc eq_refl).
  rewrite !decryptAssertion_eq. unfold obtain, agree.
  destruct s as [p r dc sa ua cl], s' as [p' r' dc' sa' ua' cl'].
  cbn [sp el decryptCert] in Hsp, Hel, Hc. subst p' r' dc'.
  repeat (reduce || split_test); repeat split; auto; try discriminate.
Qed.

Lemma validateAssertion_rel ctx c :
  rel (agree true false true) (validateAssertion X ctx c)
    (agree true false true) (agree true false true).
Proof.
  intros s s' (Hsp & Hel & _ & Hn).
  specialize (Hel eq_refl). destruct (Hn eq_refl) as [Hs Hu].
  rewrite !validateAssertion_eq. unfold agree.
  destruct s as [p r dc sa ua cl], s' as [p' r' dc' sa' ua' cl'].
  cbn [sp el signedAssertions unsignedAssertions] in Hsp, Hel, Hs, Hu.
  subst p' r' sa' ua'.
  repeat (reduce || split_test); repeat split; auto; try discriminate.
Qed.

Lemma decryptAssertions_rel :
  rel (agree true false false) (decryptAssertions X)
    (agree true true false) (agree true true false).
Proof.
  intros s s' (Hsp & Hel & _). specialize (Hel eq_refl).
  rewrite !decryptAssertions_eq, <- Hel.
  apply rel_runPlan; [apply decryptAssertion_rel|agreed].
Qed.

Lemma tally_rel :
  rel (agree true false true) tally
    (agree true false true) (agree true false true).
Proof.
  intros s s' H. pose proof H as (Hsp & Hel & _ & Hn).
  destruct (Hn eq_refl) as [Hs Hu]. rewrite !tally_eq, <- Hs, <- Hu.
  destruct (_ && _); [|destruct (_ <? _)%nat]; cbn; auto.
Qed.

Lemma validateAssertionSignatures_rel :
  rel (agree true false false) (validateAssertionSignatures X)
    (agree true false true) (agree true false true).
Proof.
  intros s s' (Hsp & Hel & _). specialize (Hel eq_refl).
  rewrite !validateAssertionSignatures_eq, <- Hel.
  assert (Hrel : rel (agree true false true)
                   (runPlan X (validateAssertion X)
                      (found X (SAMLAssertionNamespace X) (AssertionTag X)
                         (el s));;
                    tally)
                   (agree true false true) (agree true false true)).
  { eapply rel_bind.
    - apply rel_runPlan. apply validateAssertion_rel.
    - intros []. apply tally_rel. }
  apply Hrel. agreed.
Qed.

Lemma enforceSignatures_rel flag :
  rel (agree true false false) (enforceSignatures X flag)
    (agree true false false) (agree true false false).
Proof.
  intros s s' H. pose proof H as (Hsp & Hel & _).
  rewrite !enforceSignatures_eq, <- Hsp.
  destruct (SkipSignatureValidation (sp s)).
  - cbn. auto.
  - destruct (validateAssertionSignatures_rel s s' H) as (E1 & E2).
    destruct (validateAssertionSignatures X s) as [o s1],
             (validateAssertionSignatures X s') as [o' s1'].
    cbn [fst snd] in *. subst o'.
    assert (Hweak : agree true false true s1 s1' ->
                    agree true false false s1 s1') by agreed.
    destruct o as [[]|e|msg]; cbn; auto.
    destruct e; cbn; auto. destruct flag; cbn; auto.
Qed.

Lemma unmarshalAndValidate_rel :
  rel (agree true false false) (unmarshalAndValidate X)
    (agree true false false) (agree true false false).
Proof.
  intros s s' H. pose proof H as (Hsp & Hel & _). specialize (Hel eq_refl).
  rewrite !unmarshalAndValidate_eq, <- Hsp, <- Hel.
  destruct (xmlUnmarshalElement X _ (el s)) as [e|response]; cbn; auto.
  destruct (validateResponseAttributes X (sp s) response); cbn; auto.
  destruct (validateExtended X (sp s) response); cbn; auto.
Qed.

Lemma validateRoot_rel root :
  rel (agree false false false) (validateRoot X root)
    (agree true false false) (agree false false false).
Proof.
  intros s s' (Hsp & _). rewrite !validateRoot_eq, <- Hsp.
  assert (Hrel : forall b : bool,
             rel (agree true false false) (decryptAssertions X;; ret b)
               (agree true false false) (agree false false false)).
  { intros b. eapply rel_bind.
    - eapply rel_weaken; [apply decryptAssertions_rel|auto| |];
        intros t t' Ht; exact Ht || agreed.
    - intros [] t t' Ht. cbn. split; [reflexivity|]. agreed. }
  destruct (SkipSignatureValidation (sp s)).
  - apply Hrel. agreed.
  - destruct (dsig_Validate X (validationContext (sp s)) root)
      as [[v|]| |reason]; cbn [fst snd];
      try (apply Hrel; agreed); split; auto; agreed.
Qed.

Lemma ValidateEncodedResponse_rel encodedResponse :
  rel (agree false false false) (ValidateEncodedResponse X encodedResponse)
    (agree true false false) (agree false false false).
Proof.
  intros s s' H. rewrite !ValidateEncodedResponse_decode.
  destruct (decode X encodedResponse) as [err|root].
  - cbn. auto.
  - revert s s' H.
    change (rel (agree false false false)
              (responseSignatureValidated <- validateRoot X root;;
               enforceSignatures X responseSignatureValidated;;
               unmarshalAndValidate X)
              (agree true false false) (agree false false false)).
    eapply rel_bind; [apply validateRoot_rel|]. intros flag.
    eapply rel_weaken with (P' := agree true false false)
                           (Q' := agree true false false)
                           (R' := agree true false false);
      auto; [|intros t t' Ht; agreed].
    eapply rel_bind; [apply enforceSignatures_rel|]. intros [].
    apply unmarshalAndValidate_rel.
Qed.

Lemma validateRoot_sp root s : sp (snd (validateRoot X root s)) = sp s.
Proof.
  rewrite validateRoot_eq.
  assert (Hcont : forall (b : bool) s1,
             sp (snd ((decryptAssertions X;; ret b) s1)) = sp s1).
  { intros b s1. unfold bind. pose proof (decryptAssertions_sp X s1) as H.
    destruct (decryptAssertions X s1) as [[[]|e|msg] s2]; exact H. }
  destruct (SkipSignatureValidation (sp s)).
  - now rewrite Hcont.
  - destruct (dsig_Validate X (validationContext (sp s)) root)
      as [[v|]| |reason]; try reflexivity; now rewrite Hcont.
Qed.

Lemma ValidateEncodedResponse_sp encodedResponse s :
  sp (snd (ValidateEncodedResponse X encodedResponse s)) = sp s.
Proof.
  rewrite ValidateEncodedResponse_decode.
  destruct (decode X encodedResponse) as [err|root]; [reflexivity|].
  unfold bind. pose proof (validateRoot_sp root s) as H1.
  destruct (validateRoot X root s) as [[flag|e|msg] s1]; cbn [snd] in *; auto.
  pose proof (enforceSignatures_sp X flag s1) as H2.
  destruct (enforceSignatures X flag s1) as [[[]|e|msg] s2];
    cbn [snd] in *; try congruence.
  rewrite unmarshalAndValidate_eq.
  destruct (xmlUnmarshalElement X _ (el s2)) as [e|response];
    cbn [snd]; try congruence.
  destruct (validateResponseAttributes X (sp s2) response);
    cbn [snd]; try congruence.
  destruct (validateExtended X (sp s2) response); cbn [snd]; congruence.
Qed.

(** What one call leaves in the locals has no part in the next: the
    element, the cached certificate, the counters and the calls that an
    earlier run has left in the state are set anew before they are read.
    This is a fact about the variables of this file only.  The external
    capabilities are functions here and the provider is a value, so that
    nothing is said about what the certificate store or the key store
    behind the interfaces do when they are called. *)
Lemma validation_repeatable encodedResponse s :
  (forall s',
      sp s' = sp s ->
      fst (ValidateEncodedResponse X encodedResponse s') =
      fst (ValidateEncodedResponse X encodedResponse s)) /\
  let first := ValidateEncodedResponse X encodedResponse s in
  let second := ValidateEncodedResponse X encodedResponse (snd first) in
  fst second = fst first /\
  sp (snd first) = sp s /\
  sp (snd second) = sp s.
Proof.
  assert (Hsame : forall s',
             sp s' = sp s ->
             fst (ValidateEncodedResponse X encodedResponse s') =
             fst (ValidateEncodedResponse X encodedResponse s)).
  { intros s' Hp.
    apply (ValidateEncodedResponse_rel encodedResponse s' s). agreed. }
  split; [exact Hsame|]. cbv zeta.
  pose proof (ValidateEncodedResponse_sp encodedResponse s) as H1.
  pose proof (ValidateEncodedResponse_sp encodedResponse
                (snd (ValidateEncodedResponse X encodedResponse s))) as H2.
  repeat split; try congruence. now apply Hsame.
Qed.

End TwoRuns.

(** ** Runs in the toy world *)

Lemma decoder_fallback_and_errors_witness :
  ValidateEncodedResponse Demo.world "!" (Demo.start Demo.noStore) =
    (Err (ErrExternal "illegal base64 data at input byte 0"),
     Demo.start Demo.noStore) /\
  ValidateEncodedResponse Demo.world "junk" (Demo.start Demo.noStore) =
    (Err (ErrExternal "flate: corrupt input before offset 1"),
     Demo.start Demo.noStore) /\
  ValidateEncodedResponse Demo.world "deflated-junk" (Demo.start Demo.noStore) =
    (Err (ErrExternal "XML syntax error"), Demo.start Demo.noStore) /\
  ValidateEncodedResponse Demo.world "empty" (Demo.start Demo.noStore) =
    (Err (Errorf "unable to parse response"), Demo.start Demo.noStore) /\
  decode Demo.world "deflated" = inr (Demo.rootOf "envelope") /\
  decode Demo.world "envelope" = inr (Demo.rootOf "envelope").
Proof.
  refine (conj _ (conj _ (conj _ (conj _ (conj _ _))))).
  - apply (proj1 (decoder_fallback_and_errors Demo.world "!" _)).
    reflexivity.
  - apply (proj1 (proj2 (decoder_fallback_and_errors Demo.world "junk" _))
             "junk" "XML syntax error"); reflexivity.
  - apply (proj1 (proj2 (proj2
             (decoder_fallback_and_errors Demo.world "deflated-junk" _)))
             "deflated-junk" "XML syntax error" "junk"); reflexivity.
  - apply (proj2 (proj2 (proj2
             (decoder_fallback_and_errors Demo.world "empty" _)))
             "empty" (mkDocument None)); [reflexivity|left|]; reflexivity.
  - apply (proj2 (proj2 (proj2
             (decoder_fallback_and_errors Demo.world "deflated"
                (Demo.start Demo.noStore))))
             "deflated" (mkDocument (Some (Demo.rootOf "envelope"))));
      [reflexivity| |reflexivity].
    right. exists "XML syntax error", "envelope". repeat split; reflexivity.
  - apply (proj2 (proj2 (proj2
             (decoder_fallback_and_errors Demo.world "envelope"
                (Demo.start Demo.noStore))))
             "envelope" (mkDocument (Some (Demo.rootOf "envelope"))));
      [reflexivity|left|]; reflexivity.
Defined.

Lemma root_validation_cases_witness :
  validateRoot Demo.world (Demo.rootOf "unsigned") (Demo.start Demo.noStore) =
    (decryptAssertions Demo.world;; ret false)
      (set_el (Demo.rootOf "unsigned")
         (logged (ValidateCall (Demo.rootOf "unsigned"))
            (Demo.start Demo.noStore))) /\
  ValidateEncodedResponse Demo.world "tampered" (Demo.start Demo.noStore) =
    (Err (ErrExternal "signature invalid"),
     logged (ValidateCall (Demo.rootOf "tampered")) (Demo.start Demo.noStore)) /\
  ValidateEncodedResponse Demo.world "vanished" (Demo.start Demo.noStore) =
    (Err (Errorf "missing transformed response"),
     logged (ValidateCall (Demo.rootOf "vanished")) (Demo.start Demo.noStore)) /\
  fst (validateRoot Demo.world (Demo.rootOf "envelope")
         (Demo.start Demo.noStore)) = Ok true.
Proof.
  refine (conj _ (conj _ (conj _ _))).
  - apply (root_validation_cases Demo.world "unsigned" (Demo.rootOf "unsigned")
             (Demo.start Demo.noStore)); reflexivity.
  - apply (root_validation_cases Demo.world "tampered" (Demo.rootOf "tampered")
             (Demo.start Demo.noStore)); reflexivity.
  - apply (root_validation_cases Demo.world "vanished" (Demo.rootOf "vanished")
             (Demo.start Demo.noStore)); reflexivity.
  - rewrite (proj2 (proj2 (proj2
              (root_validation_cases Demo.world "envelope"
                 (Demo.rootOf "envelope") (Demo.start Demo.noStore)
                 eq_refl eq_refl)))
              (mkElement 1001 "saml" "Response" [] "https://sp/acs" None
                 [set_Parent (Some (1001, "Response")) (Demo.plainAssertion 2)])
              eq_refl).
    reflexivity.
Defined.

Lemma missing_signature_needs_validated_envelope_witness :
  fst (ValidateEncodedResponse Demo.world "unsigned" (Demo.start Demo.noStore))
    = Err (Errorf "response and/or assertions must be signed") /\
  fst (ValidateEncodedResponse Demo.world "envelope" (Demo.start Demo.noStore))
    = Ok (mkResponse "https://sp/acs" "2.0" EmptyString).
Proof.
  split.
  - destruct (missing_signature_needs_validated_envelope Demo.world
                "unsigned" (Demo.rootOf "unsigned") (Demo.start Demo.noStore)
                false
                (snd (validateRoot Demo.world (Demo.rootOf "unsigned")
                        (Demo.start Demo.noStore)))
                (snd (validateAssertionSignatures Demo.world
                        (snd (validateRoot Demo.world (Demo.rootOf "unsigned")
                                (Demo.start Demo.noStore))))))
      as (_ & Hfalse & _);
      [reflexivity | reflexivity | vm_compute; reflexivity
      | vm_compute; reflexivity |].
    destruct (Hfalse eq_refl) as [_ E]. now rewrite E.
  - destruct (missing_signature_needs_validated_envelope Demo.world
                "envelope" (Demo.rootOf "envelope") (Demo.start Demo.noStore)
                true
                (snd (validateRoot Demo.world (Demo.rootOf "envelope")
                        (Demo.start Demo.noStore)))
                (snd (validateAssertionSignatures Demo.world
                        (snd (validateRoot Demo.world (Demo.rootOf "envelope")
                                (Demo.start Demo.noStore))))))
      as (_ & _ & Htrue);
      [reflexivity | reflexivity | vm_compute; reflexivity
      | vm_compute; reflexivity |].
    destruct (Htrue eq_refl) as (_ & _ & E).
    rewrite (E (mkResponse "https://sp/acs" "2.0" EmptyString)); reflexivity.
Defined.

Lemma mixed_assertions_rejected_witness :
  fst (ValidateEncodedResponse Demo.world "mixed" (Demo.start Demo.noStore))
    = Err (Errorf "invalid to have both signed and unsigned assertions") /\
  fst (ValidateEncodedResponse Demo.world "mixed-envelope"
         (Demo.start Demo.noStore))
    = Err (Errorf "invalid to have both signed and unsigned assertions").
Proof.
  split.
  - destruct (mixed_assertions_rejected Demo.world
                (snd (validateRoot Demo.world (Demo.rootOf "mixed")
                        (Demo.start Demo.noStore)))
                (snd (validateAssertionSignatures Demo.world
                        (snd (validateRoot Demo.world (Demo.rootOf "mixed")
                                (Demo.start Demo.noStore))))))
      as (_ & _ & H); [vm_compute; reflexivity|].
    destruct H as (_ & _ & E); [vm_compute; lia | vm_compute; lia |].
    rewrite (E "mixed" (Demo.rootOf "mixed") (Demo.start Demo.noStore) false);
      reflexivity.
  - destruct (mixed_assertions_rejected Demo.world
                (snd (validateRoot Demo.world (Demo.rootOf "mixed-envelope")
                        (Demo.start Demo.noStore)))
                (snd (validateAssertionSignatures Demo.world
                        (snd (validateRoot Demo.world
                                (Demo.rootOf "mixed-envelope")
                                (Demo.start Demo.noStore))))))
      as (_ & _ & H); [vm_compute; reflexivity|].
    destruct H as (_ & _ & E); [vm_compute; lia | vm_compute; lia |].
    rewrite (E "mixed-envelope" (Demo.rootOf "mixed-envelope")
               (Demo.start Demo.noStore) true);
      reflexivity.
Defined.

Lemma unexpected_parent_aborts_witness :
  decryptAssertions Demo.world (Demo.at_root "wrapped-encrypted" Demo.withKey) =
    (Err (Errorf
       "found encrypted assertion with unexpected parent element: Extensions"),
     set_decryptCert None (Demo.at_root "wrapped-encrypted" Demo.withKey)) /\
  validateAssertionSignatures Demo.world (Demo.at_root "wrapped" Demo.withKey) =
    (Err (Errorf "found assertion with unexpected parent element: Extensions"),
     reset (Demo.at_root "wrapped" Demo.withKey)).
Proof.
  split.
  - apply (unexpected_parent_aborts Demo.world tt
             (Demo.node 3 "EncryptedAssertion" [] "cipher" (2, "Extensions") [])
             2 "Extensions" (Demo.at_root "wrapped-encrypted" Demo.withKey)
             eq_refl)
      with (pre := []) (post := []);
      [vm_compute; lia | reflexivity | reflexivity].
  - apply (unexpected_parent_aborts Demo.world tt
             (Demo.node 3 "Assertion" [("sig", "ok")] EmptyString (2, "Extensions") [])
             2 "Extensions" (Demo.at_root "wrapped" Demo.withKey)
             eq_refl)
      with (pre := []) (post := []);
      [vm_compute; lia | reflexivity | reflexivity].
Defined.


Lemma destination_and_version_checked_witness :
  validateResponseAttributes Demo.world Demo.noStore
    (mkResponse "https://other/acs" "1.1" EmptyString)
    = Some (ErrInvalidValue
              {| Reason := EmptyString;
                 Key := "Destination";
                 Expected := "https://sp/acs";
                 Actual := "https://other/acs" |}) /\
  (exists v,
      validateResponseAttributes Demo.world Demo.noStore
        (mkResponse "https://sp/acs" "1.1" EmptyString)
        = Some (ErrInvalidValue v) /\
      Reason v = "unsupported") /\
  validateResponseAttributes Demo.world Demo.noStore
    (mkResponse "https://sp/acs" "2.0" EmptyString) = None /\
  fst (ValidateEncodedResponse Demo.world "elsewhere" (Demo.start Demo.noStore))
    = Err (ErrInvalidValue
             {| Reason := EmptyString;
                Key := "Destination";
                Expected := "https://sp/acs";
                Actual := "https://other/acs" |}) /\
  fst (ValidateEncodedResponse Demo.world "old" (Demo.start Demo.noStore))
    = Err (ErrInvalidValue
             {| Reason := "unsupported";
                Key := "SAML version";
                Expected := "2.0";
                Actual := "1.1" |}).
Proof.
  refine (conj _ (conj _ (conj _ (conj _ _)))).
  - apply (proj1 (destination_and_version_checked Demo.world Demo.noStore
                    (mkResponse "https://other/acs" "1.1" EmptyString))).
    vm_compute. discriminate.
  - destruct (proj1 (proj2 (destination_and_version_checked Demo.world
                              Demo.noStore
                              (mkResponse "https://sp/acs" "1.1" EmptyString))))
      as (v & Hv & Hversion); [vm_compute; discriminate|].
    exists v. split; [exact Hv|]. now rewrite (Hversion eq_refl).
  - apply (proj1 (proj2 (proj2
             (destination_and_version_checked Demo.world Demo.noStore
                (mkResponse "https://sp/acs" "2.0" EmptyString)))));
      reflexivity.
  - destruct (proj2 (proj2 (proj2
                (destination_and_version_checked Demo.world Demo.noStore
                   (mkResponse "https://other/acs" "2.0" EmptyString))))
                "elsewhere" (Demo.rootOf "elsewhere") (Demo.start Demo.noStore)
                true
                (snd (validateRoot Demo.world (Demo.rootOf "elsewhere")
                        (Demo.start Demo.noStore)))
                (snd (enforceSignatures Demo.world true
                        (snd (validateRoot Demo.world (Demo.rootOf "elsewhere")
                                (Demo.start Demo.noStore))))))
      as (v & Hv & E);
      [reflexivity | reflexivity | vm_compute; reflexivity
      | vm_compute; reflexivity | reflexivity
      | left; vm_compute; discriminate |].
    rewrite E. cbn [fst].
    vm_compute in Hv. now injection Hv as <-.
  - destruct (proj2 (proj2 (proj2
                (destination_and_version_checked Demo.world Demo.noStore
                   (mkResponse "https://sp/acs" "1.1" EmptyString))))
                "old" (Demo.rootOf "old") (Demo.start Demo.noStore)
                true
                (snd (validateRoot Demo.world (Demo.rootOf "old")
                        (Demo.start Demo.noStore)))
                (snd (enforceSignatures Demo.world true
                        (snd (validateRoot Demo.world (Demo.rootOf "old")
                                (Demo.start Demo.noStore))))))
      as (v & Hv & E);
      [reflexivity | reflexivity | vm_compute; reflexivity
      | vm_compute; reflexivity | reflexivity
      | right; vm_compute; discriminate |].
    rewrite E. cbn [fst].
    vm_compute in Hv. now injection Hv as <-.
Defined.

(** The claim as first stated, that a version other than "2.0" gives the
    unsupported-version error whenever it occurs, fails on a response whose
    destination is wrong as well: the error is the one of the destination,
    under the key of the destination and not of the version. *)
Lemma unsupported_version_masked_by_destination :
  Version (mkResponse "https://other/acs" "1.1" EmptyString) <> "2.0" /\
  validateResponseAttributes Demo.world Demo.noStore
    (mkResponse "https://other/acs" "1.1" EmptyString)
    = Some (ErrInvalidValue
              {| Reason := EmptyString;
                 Key := "Destination";
                 Expected := "https://sp/acs";
                 Actual := "https://other/acs" |}) /\
  validateResponseAttributes Demo.world Demo.noStore
    (mkResponse "https://other/acs" "1.1" EmptyString)
    <> Some (ErrInvalidValue
               {| Reason := ReasonUnsupported Demo.world;
                  Key := "SAML version";
                  Expected := "2.0";
                  Actual := "1.1" |}) /\
  (forall v,
      validateResponseAttributes Demo.world Demo.noStore
        (mkResponse "https://other/acs" "1.1" EmptyString)
        = Some (ErrInvalidValue v) ->
      Key v <> "SAML version" /\ Reason v <> ReasonUnsupported Demo.world).
Proof.
  refine (conj _ (conj _ (conj _ _))).
  - discriminate.
  - reflexivity.
  - discriminate.
  - intros v H. vm_compute in H. injection H as <-. split; discriminate.
Qed.

Lemma key_resolved_lazily_once_witness :
  (exists cert,
      resolve Demo.withKey = inr cert /\
      decryptCert (snd (decryptAssertions Demo.world
                          (Demo.at_root "encrypted" Demo.withKey))) = Some cert /\
      calls (snd (decryptAssertions Demo.world
                    (Demo.at_root "encrypted" Demo.withKey))) =
        [DecryptBytesCall "cipher2" cert;
         NSDetatchCall (Demo.encryptedAssertion 3 "cipher2");
         DecryptBytesCall "cipher" cert;
         GetKeyPairCall;
         NSDetatchCall (Demo.encryptedAssertion 2 "cipher")] /\
      lookups (calls (snd (decryptAssertions Demo.world
                             (Demo.at_root "encrypted" Demo.withKey)))) = 1) /\
  decryptAssertions Demo.world (Demo.at_root "encrypted" Demo.noStore) =
    (Err (Errorf
       "unable to get decryption certificate: no decryption certs available"),
     set_calls [NSDetatchCall (Demo.encryptedAssertion 2 "cipher")]
       (set_decryptCert None (Demo.at_root "encrypted" Demo.noStore))) /\
  (exists new,
      calls (snd (decryptAssertions Demo.world
                    (Demo.at_root "encrypted" Demo.withKey)))
        = (new ++ [])%list /\
      lookups new <= 1 /\
      (forall enc cert,
          In (DecryptBytesCall enc cert) new ->
          resolve Demo.withKey = inr cert) /\
      (In GetKeyPairCall new ->
       exists first more,
         new = (more ++ [GetKeyPairCall; NSDetatchCall first])%list /\
         lookups more = 0)).
Proof.
  destruct (key_resolved_lazily_once Demo.world
              (Demo.at_root "encrypted" Demo.withKey))
    as (_ & _ & _ & Hwell & _ & new & H1 & H2 & H3 & _ & H5).
  destruct (key_resolved_lazily_once Demo.world
              (Demo.at_root "encrypted" Demo.noStore))
    as (_ & _ & _ & _ & Hfail & _).
  refine (conj _ (conj _ _)).
  - destruct (Hwell tt (Demo.encryptedAssertion 2 "cipher")
                [@Visit Demo.world tt (Demo.encryptedAssertion 3 "cipher2")]
                eq_refl eq_refl) as (cert & E1 & E2 & E3 & E4).
    exists cert. refine (conj E1 (conj E2 (conj _ _))).
    + rewrite E3. reflexivity.
    + rewrite E3, app_nil_r, E4. reflexivity.
  - exact (Hfail tt (Demo.encryptedAssertion 2 "cipher")
             [@Visit Demo.world tt (Demo.encryptedAssertion 3 "cipher2")]
             "Response" "cipher" (Errorf "no decryption certs available")
             eq_refl eq_refl eq_refl eq_refl).
  - exists new. refine (conj H1 (conj H2 (conj H3 _))).
    intros Hin.
    destruct (H5 Hin) as (ctx & first & rest & more & _ & E1 & E2 & _).
    now exists first, more.
Defined.

Lemma validation_repeatable_witness :
  fst (ValidateEncodedResponse Demo.world "encrypted"
         (snd (ValidateEncodedResponse Demo.world "encrypted"
                 (Demo.start Demo.withKey))))
    = fst (ValidateEncodedResponse Demo.world "encrypted"
             (Demo.start Demo.withKey)) /\
  sp (snd (ValidateEncodedResponse Demo.world "encrypted"
             (Demo.start Demo.withKey))) = Demo.withKey.
Proof.
  destruct (validation_repeatable Demo.world "encrypted"
              (Demo.start Demo.withKey)) as (_ & H1 & H2 & _).
  split; [exact H1|exact H2].
Defined.

Lemma no_encrypted_assertion_no_key_lookup_witness :
  snd (decryptAssertions Demo.world (Demo.at_root "envelope" Demo.withKey))
    = set_decryptCert None (Demo.at_root "envelope" Demo.withKey) /\
  decryptAssertions Demo.world
    (set_sp (with_store None Demo.withKey)
       (Demo.at_root "envelope" Demo.withKey))
    = (fst (decryptAssertions Demo.world
              (Demo.at_root "envelope" Demo.withKey)),
       set_sp (with_store None Demo.withKey)
         (snd (decryptAssertions Demo.world
                 (Demo.at_root "envelope" Demo.withKey)))).
Proof.
  destruct (proj1 (no_encrypted_assertion_no_key_lookup Demo.world
                     (Demo.at_root "envelope" Demo.withKey))) as (H1 & H2).
  - intros ctx c H. vm_compute in H. exact H.
  - split; [exact H1|exact (H2 None)].
Defined.

(** * Further properties *)

(** ** What the enforcement pass answers *)

Section PassVerdicts.

Context (X : Externals).

(** The closure never returns [dsig.ErrMissingSignature]: a missing
    signature is counted, not returned. *)
Lemma validateAssertion_Err ctx c s e s' :
  validateAssertion X ctx c s = (Err e, s') -> e <> ErrMissingSignature.
Proof.
  rewrite validateAssertion_eq.
  run; intros H; try discriminate H; injection H as <- <-; discriminate.
Qed.

Lemma runPlan_validate_Err l :
  forall s e s',
    runPlan X (validateAssertion X) l s = (Err e, s') ->
    e <> ErrMissingSignature.
Proof.
  induction l as [|[err|ctx c] l IH]; intros s e s' H; cbn [runPlan] in H.
  - discriminate.
  - injection H as <- <-. discriminate.
  - unfold bind in H.
    destruct (validateAssertion X ctx c s) as [[[]|e1|msg] s1] eqn:H1.
    + exact (IH _ _ _ H).
    + injection H as <- <-. exact (validateAssertion_Err _ _ _ _ _ H1).
    + discriminate.
Qed.

(** A search that ends well without a validated assertion has changed
    neither [el] nor the cached certificate. *)
Lemma runPlan_validate_unsigned l :
  forall s s',
    runPlan X (validateAssertion X) l s = (Ok tt, s') ->
    signedAssertions s' = signedAssertions s ->
    el s' = el s /\ decryptCert s' = decryptCert s.
Proof.
  induction l as [|[err|ctx c] l IH]; intros s s' H Hsigned; cbn [runPlan] in H.
  - injection H as <-. auto.
  - discriminate.
  - apply bind_inv_Ok in H. destruct H as ([] & s1 & H1 & H2).
    pose proof (validateAssertion_frame X ctx c s) as F. cbv zeta in F.
    rewrite H1 in F. cbn [snd] in F. destruct F as (_ & _ & _ & Fc).
    destruct (runPlan_validate_counts X _ _ _ H2) as (_ & Hs & _).
    apply validateAssertion_Ok in H1. destruct H1 as (Hp & Hc).
    destruct Hc as [(E1 & E2 & E3 & E4)|(E1 & E2 & E3)]; [|lia].
    destruct (IH s1 s' H2) as (I1 & I2); [congruence|].
    split; congruence.
Qed.

(** X1: what [validateAssertionSignatures] answers once its search has
    ended well.  It returns nil exactly when at least one located
    assertion validated and none reported a missing signature; it returns
    [dsig.ErrMissingSignature] exactly when no located assertion validated,
    and the closure never returns that error itself; a response in which
    the search locates no assertion at all is such a case. *)
Theorem assertion_pass_verdicts s :
  let l := found X (SAMLAssertionNamespace X) (AssertionTag X) (el s) in
  let search :=
    NSFindIterate X (el s) (SAMLAssertionNamespace X) (AssertionTag X)
      (validateAssertion X) (reset s) in
  (forall s',
      validateAssertionSignatures X s = (Ok tt, s') <->
      search = (Ok tt, s') /\
      1 <= count_signature X (sp s) true l /\
      count_signature X (sp s) false l = 0) /\
  (forall s',
      validateAssertionSignatures X s = (Err ErrMissingSignature, s') <->
      search = (Ok tt, s') /\ count_signature X (sp s) true l = 0) /\
  (l = [] ->
   validateAssertionSignatures X s = (Err ErrMissingSignature, reset s)).
Proof.
  intros l search. subst search.
  rewrite NSFindIterate_runPlan by apply validateAssertion_never_halts.
  rewrite validateAssertionSignatures_eq. fold l. unfold bind.
  destruct (runPlan X (validateAssertion X) l (reset s)) as [[[]|e|msg] s1] eqn:Hrun.
  - destruct (runPlan_validate_counts X _ _ _ Hrun) as (_ & Hs & Hu).
    cbn in Hs, Hu. rewrite tally_eq, Hs, Hu.
    refine (conj _ (conj _ _)).
    + intros s'.
      destruct (count_signature X (sp s) true l) as [|n];
        destruct (count_signature X (sp s) false l) as [|m]; cbn;
        split; try (intros [H1 H2]); try (intros H); try discriminate;
        try lia; try (injection H as <-; repeat split; lia);
        try (injection H1 as <-; reflexivity).
    + intros s'.
      destruct (count_signature X (sp s) true l) as [|n];
        destruct (count_signature X (sp s) false l) as [|m]; cbn;
        split; try (intros [H1 H2]); try (intros H); try discriminate;
        try lia; try (injection H as <-; repeat split; lia);
        try (injection H1 as <-; reflexivity).
    + intros Hl. rewrite Hl in Hrun. cbn in Hrun. injection Hrun as <-.
      rewrite Hl. reflexivity.
  - pose proof (runPlan_validate_Err _ _ _ _ Hrun) as He.
    refine (conj _ (conj _ _)).
    + intros s'. split; [discriminate|]. intros [H _]. discriminate.
    + intros s'. split.
      * intros H. injection H as -> _. contradiction.
      * intros [H _]. discriminate.
    + intros Hl. rewrite Hl in Hrun. discriminate.
  - refine (conj _ (conj _ _)).
    + intros s'. split; [discriminate|]. intros [H _]. discriminate.
    + intros s'. split; [discriminate|]. intros [H _]. discriminate.
    + intros Hl. rewrite Hl in Hrun. discriminate.
Qed.

(** X2: a pass of [validateAssertionSignatures] that returns
    [dsig.ErrMissingSignature] has left the response element as it was:
    no child was taken out or put in, and the provider and the cached
    certificate are untouched.  When [ValidateEncodedResponse] lets that
    answer through for a validated envelope, the element it unmarshals is
    the one the decryption pass left. *)
Theorem unsigned_pass_leaves_tree s s' :
  validateAssertionSignatures X s = (Err ErrMissingSignature, s') ->
  el s' = el s /\ sp s' = sp s /\ decryptCert s' = decryptCert s /\
  signedAssertions s' = 0 /\
  (SkipSignatureValidation (sp s) = false ->
   (enforceSignatures X true;; unmarshalAndValidate X) s =
   (match xmlUnmarshalElement X (xml_Unmarshal_Response X) (el s) with
    | inl e => Err (Errorf ("unable to unmarshal response: " ++ Error X e))
    | inr response =>
        match validateResponseAttributes X (sp s) response with
        | Some e => Err e
        | None =>
            match validateExtended X (sp s) response with
            | Some e => Err e
            | None => Ok response
            end
        end
    end, s')).
Proof.
  intros H.
  assert (Hsp : sp s' = sp s).
  { pose proof (validateAssertionSignatures_sp X s) as E. now rewrite H in E. }
  pose proof H as Hpass.
  rewrite validateAssertionSignatures_eq in H. unfold bind in H.
  destruct (runPlan X (validateAssertion X) _ (reset s)) as [[[]|e|msg] s1] eqn:Hrun;
    [| |discriminate].
  - rewrite tally_eq in H.
    destruct ((0 <? signedAssertions s1)%nat && (0 <? unsignedAssertions s1)%nat);
      [discriminate|].
    destruct (signedAssertions s1 <? 1)%nat eqn:Hlt; [|discriminate].
    injection H as <-. apply Nat.ltb_lt in Hlt.
    destruct (runPlan_validate_unsigned _ _ _ Hrun) as (E1 & E2);
      [cbn; lia|].
    cbn in E1, E2.
    refine (conj E1 (conj Hsp (conj E2 (conj _ _)))); [lia|].
    intros Hskip. unfold bind at 1.
    rewrite enforceSignatures_eq, Hskip, Hpass.
    rewrite unmarshalAndValidate_eq, E1, Hsp.
    destruct (xmlUnmarshalElement X _ (el s)) as [e|response]; [reflexivity|].
    destruct (validateResponseAttributes X (sp s) response); [reflexivity|].
    destruct (validateExtended X (sp s) response); reflexivity.
  - injection H as -> _. now elim (runPlan_validate_Err _ _ _ _ Hrun).
Qed.

End PassVerdicts.

(** ** What an accepted response rests on *)

Section TrustAnchor.

Context (X : Externals).

Lemma unmarshalAndValidate_state s : snd (unmarshalAndValidate X s) = s.
Proof.
  rewrite unmarshalAndValidate_eq.
  destruct (xmlUnmarshalElement X _ (el s)) as [e|response]; [reflexivity|].
  destruct (validateResponseAttributes X (sp s) response); [reflexivity|].
  destruct (validateExtended X (sp s) response); reflexivity.
Qed.

(** A pass that returns nil located a validated assertion and no
    unsigned one. *)
Lemma validateAssertionSignatures_Ok s s' :
  validateAssertionSignatures X s = (Ok tt, s') ->
  let l := found X (SAMLAssertionNamespace X) (AssertionTag X) (el s) in
  1 <= count_signature X (sp s) true l /\
  count_signature X (sp s) false l = 0.
Proof.
  rewrite validateAssertionSignatures_eq. intros H.
  apply bind_inv_Ok in H. destruct H as ([] & s1 & Hrun & Htally).
  destruct (runPlan_validate_counts X _ _ _ Hrun) as (_ & Hs & Hu).
  cbn in Hs, Hu. rewrite tally_eq, Hs, Hu in Htally. cbv zeta.
  destruct (count_signature X (sp s) true _) as [|n];
    destruct (count_signature X (sp s) false _) as [|m];
    cbn in Htally; try discriminate; split; lia.
Qed.

(** X3: with signature checking on, a response that
    [ValidateEncodedResponse] returns has a trust anchor.  Either
    [Validate] returned a validated element for the root of the decoded
    document, or the root carries no signature and the enforcement pass
    returned nil on the decrypted tree: at least one located assertion
    validated and none reported a missing signature. *)
Theorem accepted_response_has_trust_anchor encodedResponse s0 response s' :
  ValidateEncodedResponse X encodedResponse s0 = (Ok response, s') ->
  SkipSignatureValidation (sp s0) = false ->
  exists root responseSignatureValidated s1,
    decode X encodedResponse = inr root /\
    validateRoot X root s0 = (Ok responseSignatureValidated, s1) /\
    ((responseSignatureValidated = true /\
      exists validated,
        dsig_Validate X (validationContext (sp s0)) root
          = Validated (Some validated)) \/
     (responseSignatureValidated = false /\
      dsig_Validate X (validationContext (sp s0)) root = MissingSignature /\
      validateAssertionSignatures X s1 = (Ok tt, s') /\
      let l := found X (SAMLAssertionNamespace X) (AssertionTag X) (el s1) in
      1 <= count_signature X (sp s0) true l /\
      count_signature X (sp s0) false l = 0)).
Proof.
  intros H Hskip. rewrite ValidateEncodedResponse_decode in H.
  destruct (decode X encodedResponse) as [err|root]; [discriminate|].
  apply bind_inv_Ok in H. destruct H as (flag & s1 & Hroot & H).
  apply bind_inv_Ok in H. destruct H as ([] & s2 & Henf & Hun).
  exists root, flag, s1. split; [reflexivity|]. split; [exact Hroot|].
  destruct (validateRoot_Ok X root s0 _ _ Hroot) as (Hp & Hflag).
  destruct (Hflag Hskip) as (Htrue & Hfalse).
  destruct flag.
  - left. split; [reflexivity|]. now apply Htrue.
  - right. split; [reflexivity|]. split; [now apply Hfalse|].
    assert (Hs2 : s2 = s').
    { pose proof (unmarshalAndValidate_state s2) as E. now rewrite Hun in E. }
    subst s2. rewrite enforceSignatures_eq, Hp, Hskip in Henf.
    destruct (validateAssertionSignatures X s1) as [[[]|e|msg] s3] eqn:Hpass.
    + injection Henf as <-.
      destruct (validateAssertionSignatures_Ok _ _ Hpass) as (H1 & H2).
      rewrite Hp in H1, H2. auto.
    + destruct e; discriminate.
    + discriminate.
Qed.

End TrustAnchor.

(** ** The calls of the two passes and of the whole function *)

Section CallRecords.

Context (X : Externals).

Lemma snd_bind A B (m : M A) (k : A -> M B) s :
  snd (bind m k s) =
  match m s with
  | (Ok a, s1) => snd (k a s1)
  | (_, s1) => s1
  end.
Proof. unfold bind. destruct (m s) as [[a|e|msg] s1]; reflexivity. Qed.

Lemma adds_weaken A (P Q : event -> Prop) (m : M A) :
  (forall ev, P ev -> Q ev) -> adds P m -> adds Q m.
Proof.
  intros HPQ Hm s. destruct (Hm s) as (new & E & F).
  exists new. split; [exact E|]. eapply Forall_impl; eauto.
Qed.

Lemma adds_bind A B (P : event -> Prop) (m : M A) (k : A -> M B) :
  adds P m -> (forall a, adds P (k a)) -> adds P (bind m k).
Proof.
  intros Hm Hk s. rewrite snd_bind. destruct (Hm s) as (n1 & E1 & F1).
  destruct (m s) as [[a|e|msg] s1]; cbn [snd] in E1; try (exists n1; now split).
  destruct (Hk a s1) as (n2 & E2 & F2).
  exists (n2 ++ n1)%list. rewrite E2, E1, app_assoc. split; [reflexivity|].
  apply Forall_app. now split.
Qed.

Lemma adds_ret A (P : event -> Prop) (a : A) : adds P (ret a).
Proof. intros s. exists []. now split. Qed.

Lemma adds_runPlan (P : event -> Prop) handle (l : list (visit X)) :
  (forall ctx c, adds P (handle ctx c)) -> adds P (runPlan X handle l).
Proof.
  intros Hh. induction l as [|[err|ctx c] l IH]; cbn [runPlan].
  - apply adds_ret.
  - intros s. exists []. now split.
  - apply adds_bind; [apply Hh|]. intros _. exact IH.
Qed.

Lemma validates_incl (l l' : list (visit X)) ev :
  incl l l' -> validates X l ev -> validates X l' ev.
Proof.
  intros Hl. destruct ev as [c|d| |enc cert]; cbn; auto.
  - intros (ctx & H). exists ctx. auto.
  - intros (ctx & c & H1 & H2). exists ctx, c. auto.
Qed.

Lemma validates_event (l : list (visit X)) ev :
  validates X l ev -> validation_event ev.
Proof. destruct ev; cbn; auto. Qed.

(** The closure detaches its element and validates the detached copy, and
    makes no other call. *)
Lemma validateAssertion_calls ctx c :
  adds (validates X [Visit ctx c]) (validateAssertion X ctx c).
Proof.
  intros s. rewrite validateAssertion_eq.
  assert (D : validates X [Visit ctx c] (NSDetatchCall c)).
  { exists ctx. now left. }
  assert (V : forall d, NSDetatch X ctx c = inr d ->
                        validates X [Visit ctx c] (ValidateCall d)).
  { intros d Hd. exists ctx, c. split; [now left|exact Hd]. }
  destruct (Parent c) as [[a parentTag]|]; [|exists []; now split].
  destruct (negb (a =? addr (el s))%nat); [exists []; now split|]. cbv zeta.
  destruct (NSDetatch X ctx c) as [err|d] eqn:Hd.
  - exists [NSDetatchCall c]. split; [reflexivity|]. now constructor.
  - exists [ValidateCall d; NSDetatchCall c].
    split; [|repeat constructor; auto].
    destruct (dsig_Validate X (validationContext (sp s)) d) as [[v|]| |reason];
      try reflexivity;
      destruct (remove_child (addr c) (Child (el s))); reflexivity.
Qed.

Lemma runPlan_validate_calls l :
  adds (validates X l) (runPlan X (validateAssertion X) l).
Proof.
  induction l as [|[err|ctx c] l IH]; cbn [runPlan].
  - apply adds_ret.
  - intros s. exists []. now split.
  - apply adds_bind.
    + eapply adds_weaken; [|apply validateAssertion_calls].
      intros ev. apply validates_incl. intros v [<-|[]]. now left.
    + intros _. eapply adds_weaken; [|exact IH].
      intros ev. apply validates_incl. intros v Hv. now right.
Qed.

Lemma validateAssertionSignatures_calls s :
  exists new,
    calls (snd (validateAssertionSignatures X s)) = (new ++ calls s)%list /\
    Forall (validates X
              (found X (SAMLAssertionNamespace X) (AssertionTag X) (el s))) new.
Proof.
  rewrite validateAssertionSignatures_eq, snd_bind.
  destruct (runPlan_validate_calls
              (found X (SAMLAssertionNamespace X) (AssertionTag X) (el s))
              (reset s)) as (new & E & F).
  exists new. split; [|exact F].
  destruct (runPlan X _ _ (reset s)) as [[[]|e|msg] s1]; cbn [snd] in *; auto.
  rewrite tally_eq.
  destruct (_ && _); [|destruct (_ <? _)%nat]; exact E.
Qed.

Lemma validateAssertionSignatures_decryptCert s :
  decryptCert (snd (validateAssertionSignatures X s)) = decryptCert s.
Proof.
  rewrite validateAssertionSignatures_eq, snd_bind.
  assert (H : hoare (fun s1 => decryptCert s1 = decryptCert s)
                (runPlan X (validateAssertion X)
                   (found X (SAMLAssertionNamespace X) (AssertionTag X) (el s)))
                (fun _ s1 => decryptCert s1 = decryptCert s)
                (fun s1 => decryptCert s1 = decryptCert s)).
  { apply hoare_runPlan; [auto|]. intros ctx c s1 H1.
    pose proof (validateAssertion_frame X ctx c s1) as F. cbv zeta in F.
    destruct (validateAssertion X ctx c s1) as [[[]|e|msg] s2]; cbn [snd] in F;
      intuition congruence. }
  specialize (H (reset s) eq_refl).
  destruct (runPlan X _ _ (reset s)) as [[[]|e|msg] s1]; auto.
  rewrite tally_eq.
  destruct (_ && _); [|destruct (_ <? _)%nat]; exact H.
Qed.

(** The decryption pass validates no signature. *)
Lemma decryptAssertions_adds : adds decryption_event (decryptAssertions X).
Proof.
  intros s. pose proof (decryptAssertions_calls X s) as H. cbv zeta in H.
  destruct (found X _ _ (el s)) as [|[err|ctx first] l];
    try (exists []; rewrite H; now split).
  destruct H as (_ & new & E & _ & Hnew). exists new. split; [exact E|].
  destruct Hnew as [->|(more & k & -> & Hk & Hq)]; [constructor|].
  apply Forall_app. split.
  - eapply Forall_impl; [|exact Hq]. intros [ | | | ]; cbn; auto.
  - apply Forall_app. split; [|repeat constructor].
    destruct Hk as [->| ->]; repeat constructor.
Qed.

(** X4: each pass keeps to its own calls.  The decryption pass never
    calls [Validate].  The enforcement pass only detaches assertions that
    its search located and validates their detached copies, never an
    element of the response itself; it asks for no key pair, decrypts
    nothing, and leaves the cached certificate as it was. *)
Theorem passes_keep_to_their_calls s :
  (exists new,
      calls (snd (decryptAssertions X s)) = (new ++ calls s)%list /\
      Forall decryption_event new) /\
  (exists new,
      calls (snd (validateAssertionSignatures X s)) = (new ++ calls s)%list /\
      (forall c, In (NSDetatchCall c) new ->
         exists ctx,
           In (Visit ctx c)
             (found X (SAMLAssertionNamespace X) (AssertionTag X) (el s))) /\
      (forall d, In (ValidateCall d) new ->
         exists ctx c,
           In (Visit ctx c)
             (found X (SAMLAssertionNamespace X) (AssertionTag X) (el s)) /\
           NSDetatch X ctx c = inr d) /\
      ~ In GetKeyPairCall new /\
      (forall enc cert, ~ In (DecryptBytesCall enc cert) new)) /\
  decryptCert (snd (validateAssertionSignatures X s)) = decryptCert s.
Proof.
  refine (conj (decryptAssertions_adds s) (conj _ _)).
  - destruct (validateAssertionSignatures_calls s) as (new & E & F).
    exists new. split; [exact E|]. rewrite Forall_forall in F.
    refine (conj _ (conj _ (conj _ _))).
    + intros c Hin. exact (F _ Hin).
    + intros d Hin. exact (F _ Hin).
    + intros Hin. exact (F _ Hin).
    + intros enc cert Hin. exact (F _ Hin).
  - apply validateAssertionSignatures_decryptCert.
Qed.

Lemma enforceSignatures_adds flag :
  adds validation_event (enforceSignatures X flag).
Proof.
  intros s. rewrite enforceSignatures_eq.
  destruct (SkipSignatureValidation (sp s)); [exists []; now split|].
  destruct (validateAssertionSignatures_calls s) as (new & E & F).
  exists new. split.
  - destruct (validateAssertionSignatures X s) as [[[]|e|msg] s1]; auto.
    destruct e; auto. now destruct flag.
  - eapply Forall_impl; [|exact F]. intros ev. apply validates_event.
Qed.

Lemma unmarshalAndValidate_adds (P : event -> Prop) :
  adds P (unmarshalAndValidate X).
Proof.
  intros s. rewrite unmarshalAndValidate_state. exists []. now split.
Qed.

(** The root is validated first, when signatures are checked; the
    decryption pass follows. *)
Lemma validateRoot_calls root s :
  exists dnew,
    calls (snd (validateRoot X root s)) =
      (dnew ++ (if SkipSignatureValidation (sp s) then []
                else [ValidateCall root]) ++ calls s)%list /\
    Forall decryption_event dnew.
Proof.
  rewrite validateRoot_eq.
  assert (Hcont : forall (b : bool) s1,
             exists dnew,
               calls (snd ((decryptAssertions X;; ret b) s1)) =
                 (dnew ++ calls s1)%list /\
               Forall decryption_event dnew).
  { intros b. apply adds_bind; [apply decryptAssertions_adds|].
    intros _. apply adds_ret. }
  destruct (SkipSignatureValidation (sp s)).
  - apply Hcont.
  - destruct (dsig_Validate X (validationContext (sp s)) root) as [[v|]| |reason];
      try apply Hcont; exists []; now split.
Qed.

(** X5: with [SkipSignatureValidation] set, [ValidateEncodedResponse]
    checks no signature at all: it makes no call to [Validate], neither on
    the root nor on an assertion, and is the decryption pass on the root of
    the decoded document followed by unmarshalling and the validation of
    the typed response.  An unsigned response is accepted like a signed
    one. *)
Theorem skip_makes_no_signature_check encodedResponse s :
  SkipSignatureValidation (sp s) = true ->
  (exists new,
      calls (snd (ValidateEncodedResponse X encodedResponse s))
        = (new ++ calls s)%list /\
      forall e, ~ In (ValidateCall e) new) /\
  (forall root,
      decode X encodedResponse = inr root ->
      ValidateEncodedResponse X encodedResponse s =
      (decryptAssertions X;; unmarshalAndValidate X) (set_el root s)).
Proof.
  intros Hskip.
  assert (Hrun : forall root,
             decode X encodedResponse = inr root ->
             ValidateEncodedResponse X encodedResponse s =
             (decryptAssertions X;; unmarshalAndValidate X) (set_el root s)).
  { intros root Hdec. rewrite ValidateEncodedResponse_decode, Hdec.
    unfold bind at 1. rewrite validateRoot_eq, Hskip.
    pose proof (decryptAssertions_sp X (set_el root s)) as Hp.
    unfold bind, ret.
    destruct (decryptAssertions X (set_el root s)) as [[[]|e|msg] s1];
      try reflexivity.
    rewrite enforceSignatures_eq.
    cbn [snd set_el sp] in Hp. now rewrite Hp, Hskip. }
  split; [|exact Hrun].
  destruct (decode X encodedResponse) as [err|root] eqn:Hdec.
  - rewrite ValidateEncodedResponse_decode, Hdec. exists []. now split.
  - rewrite (Hrun root eq_refl).
    destruct (adds_bind _ _ decryption_event (decryptAssertions X)
                (fun _ => unmarshalAndValidate X) decryptAssertions_adds
                (fun _ => unmarshalAndValidate_adds decryption_event)
                (set_el root s)) as (new & E & F).
    exists new. split; [exact E|]. intros e Hin.
    rewrite Forall_forall in F. exact (F _ Hin).
Qed.

(** X6: the calls of [ValidateEncodedResponse] when signatures are
    checked, whatever its result.  The root of the decoded document is
    validated before anything else; the calls of the decryption pass
    follow, then those of the enforcement pass.  No key is asked for and
    nothing is decrypted once the validation of assertions has begun, and
    no assertion is validated before the decryption pass is over. *)
Theorem calls_in_phases encodedResponse root s :
  decode X encodedResponse = inr root ->
  SkipSignatureValidation (sp s) = false ->
  exists dnew vnew,
    calls (snd (ValidateEncodedResponse X encodedResponse s)) =
      (vnew ++ dnew ++ ValidateCall root :: calls s)%list /\
    Forall decryption_event dnew /\
    Forall validation_event vnew.
Proof.
  intros Hdec Hskip. rewrite ValidateEncodedResponse_decode, Hdec, snd_bind.
  destruct (validateRoot_calls root s) as (dnew & E & F).
  rewrite Hskip in E. cbn [app] in E. exists dnew.
  destruct (validateRoot X root s) as [[flag|e|msg] s1]; cbn [snd] in E;
    try (exists []; now repeat split).
  destruct (adds_bind _ _ validation_event (enforceSignatures X flag)
              (fun _ => unmarshalAndValidate X) (enforceSignatures_adds flag)
              (fun _ => unmarshalAndValidate_adds validation_event) s1)
    as (vnew & E' & F').
  exists vnew. rewrite E', E. now repeat split.
Qed.

End CallRecords.

(** ** The children of the response element after a pass *)

Section Replacements.

Context (X : Externals).

Lemma kept_app gone cs1 cs2 :
  kept gone (cs1 ++ cs2) = (kept gone cs1 ++ kept gone cs2)%list.
Proof. apply filter_app. Qed.

Lemma kept_all gone cs :
  (forall x, In x cs -> ~ In (addr x) gone) -> kept gone cs = cs.
Proof.
  induction cs as [|x cs IH]; intros H; [reflexivity|]. cbn.
  destruct (existsb (Nat.eqb (addr x)) gone) eqn:E.
  - apply existsb_exists in E. destruct E as (a & Ha & E).
    apply Nat.eqb_eq in E. subst a. elim (H x); auto. now left.
  - cbn. f_equal. apply IH. intros y Hy. apply H. now right.
Qed.

Lemma kept_kept g1 g2 cs : kept g2 (kept g1 cs) = kept (g1 ++ g2) cs.
Proof.
  unfold kept. induction cs as [|x cs IH]; [reflexivity|]. cbn [filter].
  rewrite existsb_app. unfold ptr in *.
  destruct (existsb (Nat.eqb (addr x)) g1); cbn [negb orb filter]; [exact IH|].
  destruct (existsb (Nat.eqb (addr x)) g2); cbn [negb]; [exact IH|].
  now rewrite IH.
Qed.

Lemma kept_In gone cs x :
  In x (kept gone cs) <-> In x cs /\ ~ In (addr x) gone.
Proof.
  unfold kept. rewrite filter_In. split; intros [H1 H2]; split; auto.
  - intros Hin. apply negb_true_iff in H2.
    assert (E : existsb (Nat.eqb (addr x)) gone = true).
    { apply existsb_exists. exists (addr x). split; [exact Hin|].
      apply Nat.eqb_refl. }
    congruence.
  - apply negb_true_iff.
    destruct (existsb (Nat.eqb (addr x)) gone) eqn:E; [|reflexivity].
    apply existsb_exists in E. destruct E as (a & Ha & E).
    apply Nat.eqb_eq in E. subst a. contradiction.
Qed.

Lemma kept_NoDup gone cs :
  NoDup (map addr cs) -> NoDup (map addr (kept gone cs)).
Proof.
  induction cs as [|x cs IH]; intros H; [constructor|]. cbn in *.
  inversion H as [|? ? Hx Hcs]; subst.
  destruct (negb (existsb (Nat.eqb (addr x)) gone)); [|auto].
  cbn. constructor; [|auto]. intros Hin. apply Hx.
  apply in_map_iff in Hin. destruct Hin as (y & E & Hy).
  apply kept_In in Hy. apply in_map_iff. exists y. tauto.
Qed.

Lemma remove_child_None a cs :
  ~ In a (map addr cs) -> remove_child a cs = None.
Proof.
  induction cs as [|x cs IH]; intros H; [reflexivity|]. cbn in *.
  destruct (Nat.eqb (addr x) a) eqn:E.
  - apply Nat.eqb_eq in E. elim H. now left.
  - rewrite IH; auto.
Qed.

Lemma remove_child_In a cs :
  In a (map addr cs) -> exists rest, remove_child a cs = Some rest.
Proof.
  induction cs as [|x cs IH]; intros H; [contradiction|]. cbn in *.
  destruct (Nat.eqb (addr x) a) eqn:E; [eauto|].
  apply Nat.eqb_neq in E. destruct H as [H|H]; [contradiction|].
  destruct (IH H) as (rest & ->). eauto.
Qed.

Lemma remove_child_app a cs rest ap :
  remove_child a cs = Some rest ->
  remove_child a (cs ++ ap) = Some (rest ++ ap)%list.
Proof.
  revert rest. induction cs as [|x cs IH]; intros rest H; cbn in *.
  - discriminate.
  - destruct (Nat.eqb (addr x) a); [now injection H as <-|].
    destruct (remove_child a cs) as [rest'|]; [|discriminate].
    injection H as <-. now rewrite (IH rest' eq_refl).
Qed.

Lemma kept_cons a x cs :
  kept [a] (x :: cs) =
  if Nat.eqb (addr x) a then kept [a] cs else x :: kept [a] cs.
Proof.
  unfold kept. cbn [filter existsb]. rewrite orb_false_r.
  now destruct (Nat.eqb (addr x) a).
Qed.

(** Among children at different addresses, taking one out is keeping the
    others. *)
Lemma remove_child_kept a cs rest :
  NoDup (map addr cs) -> remove_child a cs = Some rest -> rest = kept [a] cs.
Proof.
  revert rest.
  induction cs as [|x cs IH]; intros rest Hnd H; cbn [remove_child map] in *.
  - discriminate.
  - inversion Hnd as [|? ? Hx Hcs]; subst. rewrite kept_cons.
    destruct (Nat.eqb (addr x) a) eqn:E.
    + injection H as <-. apply Nat.eqb_eq in E. subst a.
      symmetry. apply kept_all. intros y Hy [E|[]]. apply Hx.
      rewrite E. now apply in_map.
    + destruct (remove_child a cs) as [rest'|]; [|discriminate].
      injection H as <-. now rewrite (IH rest' Hcs eq_refl).
Qed.

Lemma fresh_tail c t pairs : fresh ((c, t) :: pairs) -> fresh pairs.
Proof. intros H c' t' Hc Ht. apply H; now right. Qed.

(** Replacing elements one after the other, in closed form: the children
    that were not replaced stay, in their order, and the elements put in
    follow, in the order of the replacements. *)
Lemma splice_kept parent pairs :
  forall cs ap res,
    NoDup (map addr cs) ->
    (forall c, In c (map fst pairs) -> ~ In (addr c) (map addr ap)) ->
    fresh pairs ->
    splice parent pairs (cs ++ ap) = Some res ->
    res = (kept (map addr (map fst pairs)) cs ++ ap
             ++ adopted parent (map snd pairs))%list.
Proof.
  induction pairs as [|[c t] pairs IH]; intros cs ap res Hnd Hap Hfresh H;
    cbn [splice map fst snd adopted] in *.
  - injection H as <-. rewrite app_nil_r. f_equal. symmetry.
    apply kept_all. intros x _ [].
  - destruct (remove_child (addr c) (cs ++ ap)) as [cs'|] eqn:Hrm;
      [|discriminate].
    assert (Hin : In (addr c) (map addr cs)).
    { destruct (in_dec Nat.eq_dec (addr c) (map addr cs)) as [Hin|Hout];
        [exact Hin|].
      rewrite remove_child_None in Hrm; [discriminate|].
      rewrite map_app. intros Hin. apply in_app_or in Hin.
      destruct Hin as [Hin|Hin]; [contradiction|].
      apply (Hap c); [now left|exact Hin]. }
    destruct (remove_child_In _ _ Hin) as (rest & Hrest).
    rewrite (remove_child_app _ _ _ ap Hrest) in Hrm. injection Hrm as <-.
    rewrite (remove_child_kept _ _ _ Hnd Hrest) in H.
    rewrite <- app_assoc in H.
    apply IH in H.
    + rewrite H, kept_kept, <- app_assoc. reflexivity.
    + now apply kept_NoDup.
    + intros c' Hc'. rewrite map_app. intros Hin'. apply in_app_or in Hin'.
      destruct Hin' as [Hin'|[E|[]]].
      * apply (Hap c'); [now right|exact Hin'].
      * cbn in E. apply (Hfresh c' t); [now right|now left|exact E].
    + exact (fresh_tail _ _ _ Hfresh).
Qed.

(** What a taken-out address can no longer be: that of a child. *)
Lemma splice_gone parent pairs cs res :
  NoDup (map addr cs) -> fresh pairs ->
  splice parent pairs cs = Some res ->
  res = (kept (map addr (map fst pairs)) cs
           ++ adopted parent (map snd pairs))%list /\
  forall c, In c (map fst pairs) -> ~ In (addr c) (map addr res).
Proof.
  intros Hnd Hfresh H.
  assert (E : res = (kept (map addr (map fst pairs)) cs ++ []
                       ++ adopted parent (map snd pairs))%list).
  { apply splice_kept; auto. now rewrite app_nil_r. }
  cbn [app] in E. split; [exact E|].
  intros c Hc Hin. rewrite E, map_app in Hin. apply in_app_or in Hin.
  destruct Hin as [Hin|Hin]; apply in_map_iff in Hin;
    destruct Hin as (x & Ex & Hx).
  - apply kept_In in Hx. destruct Hx as [_ Hx]. apply Hx.
    rewrite Ex. now apply in_map.
  - unfold adopted in Hx. apply in_map_iff in Hx.
    destruct Hx as (t & <- & Ht). cbn in Ex. exact (Hfresh c t Hc Ht Ex).
Qed.

(** When the closure ends well on an assertion that validates, the
    validated element has taken its place; otherwise [el] is as it was. *)
Lemma validateAssertion_Ok_tree ctx c s s' :
  validateAssertion X ctx c s = (Ok tt, s') ->
  sp s' = sp s /\
  match verified X (sp s) ctx c with
  | Some v =>
      exists rest,
        remove_child (addr c) (Child (el s)) = Some rest /\
        el s' = adopt (el s) rest v /\
        signedAssertions s' = S (signedAssertions s)
  | None => el s' = el s /\ signedAssertions s' = signedAssertions s
  end.
Proof.
  rewrite validateAssertion_eq. unfold verified.
  destruct (Parent c) as [[a parentTag]|]; [|discriminate].
  destruct (negb (a =? addr (el s))%nat); [discriminate|]. cbv zeta.
  destruct (NSDetatch X ctx c) as [err|detached]; [discriminate|].
  destruct (dsig_Validate X (validationContext (sp s)) detached)
    as [assertion| |reason]; [| |discriminate].
  - destruct (remove_child (addr c) (Child (el s))) as [rest|]; [|discriminate].
    destruct assertion as [v|]; [|discriminate].
    intros H. injection H as <-. cbn. split; [reflexivity|]. now exists rest.
  - intros H. injection H as <-. cbn. auto.
Qed.

Lemma runPlan_validate_splice l :
  forall s s',
    runPlan X (validateAssertion X) l s = (Ok tt, s') ->
    splice (addr (el s), Tag (el s)) (verifications X (sp s) l) (Child (el s))
      = Some (Child (el s')) /\
    el s' = set_Child (Child (el s')) (el s) /\
    signedAssertions s' =
      signedAssertions s + length (verifications X (sp s) l) /\
    sp s' = sp s.
Proof.
  induction l as [|[err|ctx c] l IH]; intros s s' H; cbn [runPlan] in H.
  - injection H as <-. cbn. repeat split; auto. now destruct (el s).
  - discriminate.
  - apply bind_inv_Ok in H. destruct H as ([] & s1 & H1 & H2).
    apply validateAssertion_Ok_tree in H1. destruct H1 as (Hp & Ht).
    destruct (IH s1 s' H2) as (S & E & N & P). rewrite Hp in *.
    cbn [verifications]. destruct (verified X (sp s) ctx c) as [v|].
    + destruct Ht as (rest & R1 & R2 & R3). rewrite R2 in S, E. cbn in S, E.
      cbn [splice length]. rewrite R1. repeat split; auto. lia.
    + destruct Ht as (R2 & R3). rewrite R2 in S, E.
      repeat split; auto. lia.
Qed.

(** X7: the response element after the search of
    [validateAssertionSignatures] has ended well.  For each located
    assertion that validates, in the order of the search, the child at its
    address was taken out and the validated element appended, its parent
    set to the response element; nothing else has changed, and the counter
    of signed assertions counts these replacements.  When the children
    were at different addresses and no validated element sits at the
    address of a located assertion, the children are the ones that were not
    replaced, in their order, followed by the validated elements, and no
    child is left at the address of an assertion that was replaced. *)
Theorem validated_copies_replace_assertions s s' :
  NSFindIterate X (el s) (SAMLAssertionNamespace X) (AssertionTag X)
    (validateAssertion X) (reset s) = (Ok tt, s') ->
  let l := found X (SAMLAssertionNamespace X) (AssertionTag X) (el s) in
  let vs := verifications X (sp s) l in
  let parent := (addr (el s), Tag (el s)) in
  splice parent vs (Child (el s)) = Some (Child (el s')) /\
  el s' = set_Child (Child (el s')) (el s) /\
  signedAssertions s' = length vs /\
  (NoDup (map addr (Child (el s))) -> fresh vs ->
   Child (el s') =
     (kept (map addr (map fst vs)) (Child (el s))
        ++ adopted parent (map snd vs))%list /\
   forall c, In c (map fst vs) -> ~ In (addr c) (map addr (Child (el s')))).
Proof.
  intros Hrun l vs parent.
  rewrite NSFindIterate_runPlan in Hrun by apply validateAssertion_never_halts.
  destruct (runPlan_validate_splice _ _ _ Hrun) as (S & E & N & _).
  cbn in S, E, N. fold l vs parent in S, N.
  refine (conj S (conj E (conj N _))).
  intros Hnd Hfresh. exact (splice_gone _ _ _ _ Hnd Hfresh S).
Qed.

Lemma replaced_located s l pairs :
  Forall2 (replaced X s) l pairs -> located X l = map fst pairs.
Proof.
  induction 1 as [|v pair l pairs (ctx & t & cert & -> & _) _ IH];
    [reflexivity|].
  unfold located in *. cbn. now f_equal.
Qed.

Lemma replaced_plain s l pairs plain :
  Forall2 (replaced X s) l pairs -> In plain (map snd pairs) ->
  exists ctx c cert, In (Visit ctx c) l /\ decrypts X ctx c cert plain.
Proof.
  induction 1 as [|v pair l pairs (ctx & t & cert & -> & _ & _ & D) _ IH].
  - contradiction.
  - intros [<-|Hin].
    + exists ctx, (fst pair), cert. split; [now left|exact D].
    + destruct (IH Hin) as (ctx' & c' & cert' & H1 & H2).
      exists ctx', c', cert'. split; [now right|exact H2].
Qed.

Lemma replaced_each s l pairs :
  Forall2 (replaced X s) l pairs ->
  Forall2 (fun v plain =>
             exists ctx c cert,
               v = Visit ctx c /\ resolve (sp s) = inr cert /\
               decrypts X ctx c cert plain) l (map snd pairs).
Proof.
  induction 1 as [|v pair l pairs (ctx & t & cert & -> & _ & R & D) _ IH];
    cbn; constructor; auto.
  now exists ctx, (fst pair), cert.
Qed.

(** X8: the children of the response element after a decryption pass
    that ended well, when they were at different addresses and no
    plaintext element sits at the address of a located encrypted
    assertion.  Every located element was decrypted with the resolved
    certificate; the children are those that were not located, in their
    order, followed by the plaintext elements in the order of the search,
    their parent set to the response element; no child is left at the
    address of an encrypted assertion. *)
Theorem decrypted_children_closed_form s s' :
  decryptAssertions X s = (Ok tt, s') ->
  let l := found X (SAMLAssertionNamespace X) (EncryptedAssertionTag X) (el s) in
  NoDup (map addr (Child (el s))) ->
  (forall ctx c cert plain c',
      In (Visit ctx c) l -> decrypts X ctx c cert plain ->
      In c' (located X l) -> addr plain <> addr c') ->
  exists plains,
    Forall2 (fun v plain =>
               exists ctx c cert,
                 v = Visit ctx c /\ resolve (sp s) = inr cert /\
                 decrypts X ctx c cert plain) l plains /\
    Child (el s') =
      (kept (map addr (located X l)) (Child (el s))
         ++ adopted (addr (el s), Tag (el s)) plains)%list /\
    forall c, In c (located X l) -> ~ In (addr c) (map addr (Child (el s'))).
Proof.
  intros H l Hnd Hplain. rewrite decryptAssertions_eq in H.
  apply runPlan_decrypt_Ok in H; [|intros cert Hc; discriminate].
  destruct H as (pairs & F & S & _). cbn in S, F. fold l in F.
  pose proof (replaced_located _ _ _ F) as Hloc.
  assert (Hfresh : fresh pairs).
  { intros c t Hc Ht. rewrite <- Hloc in Hc.
    destruct (replaced_plain _ _ _ _ F Ht) as (ctx & c0 & cert & H1 & H2).
    exact (Hplain ctx c0 cert t c H1 H2 Hc). }
  destruct (splice_gone _ _ _ _ Hnd Hfresh S) as (E & G).
  exists (map snd pairs). rewrite Hloc.
  refine (conj _ (conj E G)).
  apply (replaced_each _ _ _ F).
Qed.

End Replacements.

(** ** Where the passes cannot panic *)

Section NoPanic.

Context (X : Externals).

Lemma remove_child_other a b cs rest :
  remove_child a cs = Some rest -> b <> a ->
  In b (map addr cs) -> In b (map addr rest).
Proof.
  intros H Hb Hin.
  destruct (remove_child_Some _ _ _ H) as (before & r & after & -> & E & _ & ->).
  rewrite map_app in *. cbn in Hin. apply in_app_or in Hin. apply in_or_app.
  destruct Hin as [Hin|[Hin|Hin]]; auto. congruence.
Qed.

Lemma located_cons ctx c (l : list (visit X)) :
  located X (Visit ctx c :: l) = c :: located X l.
Proof. reflexivity. Qed.

Lemma located_In ctx c (l : list (visit X)) :
  In (Visit ctx c) l -> In c (located X l).
Proof.
  intros H. unfold located. apply in_flat_map.
  exists (Visit ctx c). split; [exact H|now left].
Qed.

(** The elements still to be visited stay attached when the closure has
    replaced or passed over [c]. *)
Lemma attached_next r r' ctx c (l : list (visit X)) :
  attached X r (Visit ctx c :: l) ->
  addr r' = addr r ->
  Child r' = Child r \/
  (exists rest t,
      remove_child (addr c) (Child r) = Some rest /\
      Child r' = (rest ++ [t])%list) ->
  attached X r' l.
Proof.
  intros (Hnd & Hall) Ha Hc. rewrite located_cons in Hnd, Hall. cbn in Hnd.
  inversion Hnd as [|? ? Hfirst Hrest]; subst. split; [exact Hrest|].
  intros c' Hc'. destruct (Hall c' (or_intror Hc')) as (H1 & H2).
  split; [exact H1|]. intros t Ht. rewrite Ha in Ht. specialize (H2 t Ht).
  destruct Hc as [->|(rest & t' & Hrm & ->)]; [exact H2|].
  rewrite map_app. apply in_or_app. left.
  apply (remove_child_other _ _ _ _ Hrm); [|exact H2].
  intros E. apply Hfirst. rewrite <- E. now apply in_map.
Qed.

Lemma validateAssertion_no_panic ctx c s :
  Parent c <> None ->
  (forall t, Parent c = Some (addr (el s), t) ->
             In (addr c) (map addr (Child (el s)))) ->
  (forall d, NSDetatch X ctx c = inr d ->
             dsig_Validate X (validationContext (sp s)) d <> Validated None) ->
  forall msg s', validateAssertion X ctx c s <> (Panic msg, s').
Proof.
  intros HP Hin Hval msg s'. rewrite validateAssertion_eq.
  destruct (Parent c) as [[a parentTag]|]; [|contradiction].
  destruct (a =? addr (el s))%nat eqn:Ha; cbn [negb]; [|discriminate].
  apply Nat.eqb_eq in Ha. subst a. cbv zeta.
  destruct (NSDetatch X ctx c) as [err|d]; [discriminate|].
  specialize (Hval d eq_refl).
  destruct (dsig_Validate X (validationContext (sp s)) d) as [[v|]| |reason];
    try discriminate; [|contradiction].
  destruct (remove_child_In _ _ (Hin parentTag eq_refl)) as (rest & ->).
  discriminate.
Qed.

Lemma runPlan_validate_no_panic l :
  forall s,
    attached X (el s) l ->
    (forall ctx c d,
        In (Visit ctx c) l -> NSDetatch X ctx c = inr d ->
        dsig_Validate X (validationContext (sp s)) d <> Validated None) ->
    forall msg s', runPlan X (validateAssertion X) l s <> (Panic msg, s').
Proof.
  induction l as [|[err|ctx c] l IH]; intros s Hatt Hval msg s';
    cbn [runPlan].
  - discriminate.
  - discriminate.
  - unfold bind.
    destruct (validateAssertion X ctx c s) as [[[]|e|msg1] s1] eqn:H1.
    + pose proof (validateAssertion_frame X ctx c s) as F. cbv zeta in F.
      rewrite H1 in F. cbn [snd] in F. destruct F as (Fp & Fa & _).
      apply validateAssertion_Ok_tree in H1. destruct H1 as (_ & Ht).
      apply IH.
      * apply (attached_next _ _ _ _ _ Hatt Fa).
        destruct (verified X (sp s) ctx c) as [v|].
        -- destruct Ht as (rest & R1 & R2 & _). right.
           exists rest, (set_Parent (Some (addr (el s), Tag (el s))) v).
           split; [exact R1|]. now rewrite R2.
        -- destruct Ht as (R2 & _). left. now rewrite R2.
      * intros ctx' c' d Hin. rewrite Fp. apply Hval. now right.
    + discriminate.
    + exfalso. destruct Hatt as (_ & Hall).
      destruct (Hall c (or_introl eq_refl)) as (P1 & P2).
      apply (validateAssertion_no_panic ctx c s P1 P2) with (msg := msg1) (s' := s1);
        [|exact H1].
      intros d. apply Hval. now left.
Qed.

(** X9: the two panics of the enforcement pass, "unable to remove
    assertion" and the nil dereference, need an ill-formed tree or a
    validator that returns a nil element with a nil error.  When no located
    assertion has a nil parent, no two of them share an address, those
    whose parent is the response element are among its children, and
    [Validate] never returns nil without an error for a detached copy,
    [validateAssertionSignatures] returns: nil or an error. *)
Theorem enforcement_pass_does_not_panic s :
  let l := found X (SAMLAssertionNamespace X) (AssertionTag X) (el s) in
  attached X (el s) l ->
  (forall ctx c d,
      In (Visit ctx c) l -> NSDetatch X ctx c = inr d ->
      dsig_Validate X (validationContext (sp s)) d <> Validated None) ->
  forall msg s', validateAssertionSignatures X s <> (Panic msg, s').
Proof.
  intros l Hatt Hval msg s'. rewrite validateAssertionSignatures_eq.
  fold l. unfold bind.
  pose proof (runPlan_validate_no_panic l (reset s) Hatt Hval) as H.
  destruct (runPlan X (validateAssertion X) l (reset s)) as [[[]|e|msg1] s1].
  - rewrite tally_eq.
    destruct (_ && _); [|destruct (_ <? _)%nat]; discriminate.
  - discriminate.
  - now elim (H msg1 s1).
Qed.

(** The certificate step changes neither [el] nor the provider. *)
Lemma obtain_frame s :
  match obtain X s with
  | inl (_, s2) => el s2 = el s /\ sp s2 = sp s
  | inr (_, s2) => el s2 = el s /\ sp s2 = sp s
  end.
Proof.
  unfold obtain. destruct (decryptCert s); [auto|].
  destruct (resolve (sp s)); cbn; auto.
Qed.

Lemma decryptAssertion_Ok_tree ctx c s s' :
  decryptAssertion X ctx c s = (Ok tt, s') ->
  exists rest plain,
    remove_child (addr c) (Child (el s)) = Some rest /\
    el s' = adopt (el s) rest plain.
Proof.
  rewrite decryptAssertion_eq.
  destruct (Parent c) as [[a parentTag]|]; [|discriminate].
  destruct (negb (a =? addr (el s))%nat); [discriminate|]. cbv zeta.
  destruct (NSDetatch X ctx c) as [err|detached]; [discriminate|].
  destruct (xmlUnmarshalElement X _ detached) as [e|enc]; [discriminate|].
  pose proof (obtain_frame (logged (NSDetatchCall c) s)) as F.
  destruct (obtain X (logged (NSDetatchCall c) s)) as [[e s2]|[cert s2]];
    [discriminate|].
  destruct F as (F1 & _). cbn in F1.
  destruct (DecryptBytes X enc cert) as [err|raw]; [discriminate|].
  destruct (ReadFromBytes X raw) as [err|doc]; [discriminate|].
  cbn [el logged set_calls]. rewrite F1.
  destruct (remove_child (addr c) (Child (el s))) as [rest|]; [|discriminate].
  destruct (Root doc) as [plain|]; [|discriminate].
  intros H. injection H as <-. exists rest, plain. cbn. auto.
Qed.

Lemma decryptAssertion_no_panic ctx c s :
  Parent c <> None ->
  (forall t, Parent c = Some (addr (el s), t) ->
             In (addr c) (map addr (Child (el s)))) ->
  (forall d enc cert raw doc,
      NSDetatch X ctx c = inr d ->
      xmlUnmarshalElement X (xml_Unmarshal_EncryptedAssertion X) d = inr enc ->
      DecryptBytes X enc cert = inr raw ->
      ReadFromBytes X raw = inr doc ->
      Root doc <> None) ->
  forall msg s', decryptAssertion X ctx c s <> (Panic msg, s').
Proof.
  intros HP Hin Hroot msg s'. rewrite decryptAssertion_eq.
  destruct (Parent c) as [[a parentTag]|]; [|contradiction].
  destruct (a =? addr (el s))%nat eqn:Ha; cbn [negb]; [|discriminate].
  apply Nat.eqb_eq in Ha. subst a. cbv zeta.
  destruct (NSDetatch X ctx c) as [err|d]; [discriminate|].
  destruct (xmlUnmarshalElement X _ d) as [e|enc] eqn:H2; [discriminate|].
  pose proof (obtain_frame (logged (NSDetatchCall c) s)) as F.
  destruct (obtain X (logged (NSDetatchCall c) s)) as [[e s2]|[cert s2]];
    [discriminate|].
  destruct F as (F1 & _). cbn in F1.
  destruct (DecryptBytes X enc cert) as [err|raw] eqn:H4; [discriminate|].
  destruct (ReadFromBytes X raw) as [err|doc] eqn:H5; [discriminate|].
  cbn [el logged set_calls]. rewrite F1.
  destruct (remove_child_In _ _ (Hin parentTag eq_refl)) as (rest & ->).
  specialize (Hroot d enc cert raw doc eq_refl H2 H4 H5).
  destruct (Root doc); [discriminate|contradiction].
Qed.

Lemma runPlan_decrypt_no_panic l :
  forall s,
    attached X (el s) l ->
    (forall ctx c d enc cert raw doc,
        In (Visit ctx c) l ->
        NSDetatch X ctx c = inr d ->
        xmlUnmarshalElement X (xml_Unmarshal_EncryptedAssertion X) d = inr enc ->
        DecryptBytes X enc cert = inr raw ->
        ReadFromBytes X raw = inr doc ->
        Root doc <> None) ->
    forall msg s', runPlan X (decryptAssertion X) l s <> (Panic msg, s').
Proof.
  induction l as [|[err|ctx c] l IH]; intros s Hatt Hroot msg s';
    cbn [runPlan].
  - discriminate.
  - discriminate.
  - unfold bind.
    destruct (decryptAssertion X ctx c s) as [[[]|e|msg1] s1] eqn:H1.
    + pose proof (decryptAssertion_frame X ctx c s) as F. cbv zeta in F.
      rewrite H1 in F. cbn [snd] in F. destruct F as (_ & Fa & _).
      apply decryptAssertion_Ok_tree in H1.
      destruct H1 as (rest & plain & R1 & R2).
      apply IH.
      * apply (attached_next _ _ _ _ _ Hatt Fa). right.
        exists rest, (set_Parent (Some (addr (el s), Tag (el s))) plain).
        split; [exact R1|]. now rewrite R2.
      * intros ctx' c' d enc cert raw doc Hin. apply Hroot. now right.
    + discriminate.
    + exfalso. destruct Hatt as (_ & Hall).
      destruct (Hall c (or_introl eq_refl)) as (P1 & P2).
      apply (decryptAssertion_no_panic ctx c s P1 P2) with (msg := msg1) (s' := s1);
        [|exact H1].
      intros d enc cert raw doc. apply Hroot. now left.
Qed.

(** X10: the two panics of the decryption pass, "unable to remove
    encrypted assertion" and the nil dereference, need an ill-formed tree
    or decrypted bytes that parse to a document without a root element.
    When no located encrypted assertion has a nil parent, no two of them
    share an address, those whose parent is the response element are among
    its children, and every document parsed from decrypted bytes has a
    root, [decryptAssertions] returns: nil or an error. *)
Theorem decryption_pass_does_not_panic s :
  let l := found X (SAMLAssertionNamespace X) (EncryptedAssertionTag X) (el s) in
  attached X (el s) l ->
  (forall ctx c d enc cert raw doc,
      In (Visit ctx c) l ->
      NSDetatch X ctx c = inr d ->
      xmlUnmarshalElement X (xml_Unmarshal_EncryptedAssertion X) d = inr enc ->
      DecryptBytes X enc cert = inr raw ->
      ReadFromBytes X raw = inr doc ->
      Root doc <> None) ->
  forall msg s', decryptAssertions X s <> (Panic msg, s').
Proof.
  intros l Hatt Hroot msg s'. rewrite decryptAssertions_eq.
  exact (runPlan_decrypt_no_panic l (set_decryptCert None s) Hatt Hroot msg s').
Qed.

End NoPanic.

(** ** Elements that are not children of the response element *)

Section Wrapping.

Context (X : Externals).

Lemma found_plan namespace tag e ctx c :
  In (Visit ctx c) (found X namespace tag e) ->
  In (Visit ctx c) (plan X (DefaultNSContext X) e).
Proof.
  unfold found. intros H. apply in_flat_map in H.
  destruct H as (v & Hv & Hsel). destruct v as [err|ctx' c']; cbn in Hsel.
  - destruct Hsel as [E|[]]. discriminate.
  - destruct (LookupPrefix X ctx' (Space c')) as [err|ns].
    + destruct Hsel as [E|[]]. discriminate.
    + destruct ((ns =? namespace) && (Tag c' =? tag)).
      * destruct Hsel as [E|[]]. now rewrite <- E.
      * contradiction.
Qed.

(** The traversal visits the element and what lies below it. *)
Lemma plan_below e :
  forall ctx0 ctx c, In (Visit ctx c) (plan X ctx0 e) -> c = e \/ below e c.
Proof.
  induction e as [e IH] using Element_nested_ind. intros ctx0 ctx c.
  rewrite plan_unfold.
  destruct (SubContext X ctx0 e) as [err|ctx'].
  - intros [E|[]]. discriminate.
  - intros [E|Hin]; [left; now injection E|]. right.
    assert (Hchildren : forall cs,
               Forall (fun e0 => forall ctx0 ctx c,
                         In (Visit ctx c) (plan X ctx0 e0) ->
                         c = e0 \/ below e0 c) cs ->
               In (Visit ctx c) (planChildren X ctx' cs) ->
               exists p, In p cs /\ (c = p \/ below p c)).
    { clear. induction cs as [|p cs IHcs]; intros HF Hin; [contradiction|].
      cbn [planChildren] in Hin. fold (planChildren X ctx') in Hin.
      inversion HF as [|? ? Hp Hcs]; subst.
      apply in_app_or in Hin. destruct Hin as [Hin|Hin].
      - exists p. split; [now left|]. exact (Hp _ _ _ Hin).
      - destruct (IHcs Hcs Hin) as (q & Hq & H). exists q. split; [now right|auto]. }
    destruct (Hchildren (Child e) IH Hin) as (p & Hp & [->|Hbelow]).
    + now apply below_child.
    + now apply below_deep with (p := p).
Qed.

Lemma parented_child e c :
  parented e -> In c (Child e) ->
  Parent c = Some (addr e, Tag e) /\ parented c.
Proof.
  intros H Hc. inversion H as [? HF]; subst.
  rewrite Forall_forall in HF. exact (HF c Hc).
Qed.

(** In such a tree the parent of an element below [e] is [e] for a child
    of [e], and an element below [e] otherwise. *)
Lemma parented_below e c :
  below e c -> parented e ->
  In c (Child e) \/ exists p, below e p /\ Parent c = Some (addr p, Tag p).
Proof.
  induction 1 as [e c Hc|e p c Hp Hbelow IH]; intros He; [now left|].
  right. destruct (parented_child _ _ He Hp) as (_ & Hpp).
  destruct (IH Hpp) as [Hc|(q & Hq & HP)].
  - exists p. split; [now apply below_child|].
    exact (proj1 (parented_child _ _ Hpp Hc)).
  - exists q. split; [now apply below_deep with (p := p)|exact HP].
Qed.

Lemma located_child namespace tag e ctx c t :
  parented e ->
  (forall t', Parent e <> Some (addr e, t')) ->
  (forall d, below e d -> addr d <> addr e) ->
  In (Visit ctx c) (found X namespace tag e) ->
  Parent c = Some (addr e, t) ->
  In c (Child e).
Proof.
  intros Hpar Hroot Haddr Hin HP.
  apply found_plan in Hin. apply plan_below in Hin.
  destruct Hin as [->|Hbelow]; [now elim (Hroot t)|].
  destruct (parented_below _ _ Hbelow Hpar) as [Hc|(p & Hp & HP')];
    [exact Hc|].
  rewrite HP in HP'. injection HP' as E _. symmetry in E.
  now elim (Haddr p Hp).
Qed.

Lemma runPlan_validate_parents l :
  forall s s',
    runPlan X (validateAssertion X) l s = (Ok tt, s') ->
    forall ctx c, In (Visit ctx c) l ->
                  exists t, Parent c = Some (addr (el s), t).
Proof.
  induction l as [|[err|ctx0 c0] l IH]; intros s s' H ctx c Hin;
    cbn [runPlan] in H.
  - contradiction.
  - discriminate.
  - apply bind_inv_Ok in H. destruct H as ([] & s1 & H1 & H2).
    pose proof (validateAssertion_frame X ctx0 c0 s) as F. cbv zeta in F.
    rewrite H1 in F. cbn [snd] in F. destruct F as (_ & Fa & _).
    destruct Hin as [E|Hin].
    + injection E as -> ->. rewrite validateAssertion_eq in H1.
      destruct (Parent c) as [[a t]|]; [|discriminate].
      destruct (a =? addr (el s))%nat eqn:Ha; [|discriminate].
      apply Nat.eqb_eq in Ha. subst a. now exists t.
    + rewrite <- Fa. exact (IH s1 s' H2 ctx c Hin).
Qed.

Lemma runPlan_decrypt_parents l :
  forall s s',
    runPlan X (decryptAssertion X) l s = (Ok tt, s') ->
    forall ctx c, In (Visit ctx c) l ->
                  exists t, Parent c = Some (addr (el s), t).
Proof.
  induction l as [|[err|ctx0 c0] l IH]; intros s s' H ctx c Hin;
    cbn [runPlan] in H.
  - contradiction.
  - discriminate.
  - apply bind_inv_Ok in H. destruct H as ([] & s1 & H1 & H2).
    pose proof (decryptAssertion_frame X ctx0 c0 s) as F. cbv zeta in F.
    rewrite H1 in F. cbn [snd] in F. destruct F as (_ & Fa & _).
    destruct Hin as [E|Hin].
    + injection E as -> ->. rewrite decryptAssertion_eq in H1.
      destruct (Parent c) as [[a t]|]; [|discriminate].
      destruct (a =? addr (el s))%nat eqn:Ha; [|discriminate].
      apply Nat.eqb_eq in Ha. subst a. now exists t.
    + rewrite <- Fa. exact (IH s1 s' H2 ctx c Hin).
Qed.

(** X11: in a response element whose parent pointers follow its lists
    of children, which is not its own parent and whose address no element
    below it shares, a pass that ends well has located its elements among
    the children of the response element only.  An encrypted assertion or
    an assertion anywhere deeper, or the response element itself taken for
    one, makes the pass fail. *)
Theorem located_elements_are_children s :
  parented (el s) ->
  (forall t, Parent (el s) <> Some (addr (el s), t)) ->
  (forall d, below (el s) d -> addr d <> addr (el s)) ->
  (forall s' ctx c,
      decryptAssertions X s = (Ok tt, s') ->
      In (Visit ctx c)
        (found X (SAMLAssertionNamespace X) (EncryptedAssertionTag X) (el s)) ->
      In c (Child (el s))) /\
  (forall s' ctx c,
      NSFindIterate X (el s) (SAMLAssertionNamespace X) (AssertionTag X)
        (validateAssertion X) (reset s) = (Ok tt, s') ->
      In (Visit ctx c)
        (found X (SAMLAssertionNamespace X) (AssertionTag X) (el s)) ->
      In c (Child (el s))).
Proof.
  intros Hpar Hroot Haddr. split; intros s' ctx c Hrun Hin.
  - rewrite decryptAssertions_eq in Hrun.
    destruct (runPlan_decrypt_parents _ _ _ Hrun ctx c Hin) as (t & HP).
    exact (located_child _ _ _ _ _ _ Hpar Hroot Haddr Hin HP).
  - rewrite NSFindIterate_runPlan in Hrun by apply validateAssertion_never_halts.
    destruct (runPlan_validate_parents _ _ _ Hrun ctx c Hin) as (t & HP).
    exact (located_child _ _ _ _ _ _ Hpar Hroot Haddr Hin HP).
Qed.

End Wrapping.

(** ** The assertions of an accepted response *)

Section AcceptedAssertions.

Context (X : Externals).

(** A search that ended well detached and validated every located
    assertion without an error. *)
Lemma runPlan_validate_each l :
  forall s s',
    runPlan X (validateAssertion X) l s = (Ok tt, s') ->
    forall ctx c, In (Visit ctx c) l ->
                  exists b, signature_of X (sp s) ctx c = Some b.
Proof.
  induction l as [|[err|ctx0 c0] l IH]; intros s s' H ctx c Hin;
    cbn [runPlan] in H.
  - contradiction.
  - discriminate.
  - apply bind_inv_Ok in H. destruct H as ([] & s1 & H1 & H2).
    apply validateAssertion_Ok in H1. destruct H1 as (Hp & Hc).
    destruct Hin as [E|Hin].
    + injection E as -> ->.
      destruct Hc as [(E1 & _)|(E1 & _)]; eauto.
    + rewrite <- Hp. exact (IH s1 s' H2 ctx c Hin).
Qed.

Lemma count_signature_zero p b (l : list (visit X)) ctx c :
  count_signature X p b l = 0 -> In (Visit ctx c) l ->
  signature_of X p ctx c <> Some b.
Proof.
  induction l as [|[err|ctx0 c0] l IH]; intros Hz Hin; cbn in Hz.
  - contradiction.
  - destruct Hin as [E|Hin]; [discriminate|auto].
  - destruct Hin as [E|Hin].
    + injection E as -> ->. intros Hb. rewrite Hb, Bool.eqb_reflx in Hz.
      discriminate.
    + apply IH; [|exact Hin].
      destruct (count_signature X p b l); [reflexivity|lia].
Qed.

(** The search misses no child of the element it starts from: a child
    that bears the namespace and the tag looked for is located. *)
Lemma found_child namespace tag e c ctx' ctx'' :
  In c (Child e) ->
  SubContext X (DefaultNSContext X) e = inr ctx' ->
  SubContext X ctx' c = inr ctx'' ->
  LookupPrefix X ctx'' (Space c) = inr namespace ->
  Tag c = tag ->
  In (Visit ctx'' c) (found X namespace tag e).
Proof.
  intros Hc H1 H2 H3 H4. unfold found. apply in_flat_map.
  exists (Visit ctx'' c). split.
  - rewrite plan_unfold, H1. right.
    induction (Child e) as [|x cs IH]; [contradiction|].
    cbn [planChildren]. fold (planChildren X ctx'). apply in_or_app.
    destruct Hc as [->|Hc]; [left|right; auto].
    rewrite plan_unfold, H2. now left.
  - cbn. rewrite H3, H4, !String.eqb_refl. now left.
Qed.

(** X12: the assertions of a response that [ValidateEncodedResponse]
    returns with signature checking on.  In the tree left by the
    decryption pass, every assertion that the search locates was detached
    and validated without an error, and all of them got the same answer:
    each one validated, or, under a validated envelope only, none carries
    a signature.  This holds for every child of the response element that
    is an assertion by namespace and tag, the plaintext elements put in by
    the decryption pass among them.  A response with an assertion whose
    signature is invalid, or with a signed assertion beside an unsigned
    one, is never returned. *)
Theorem accepted_assertions_uniform
    encodedResponse s0 response s' root responseSignatureValidated s1 :
  ValidateEncodedResponse X encodedResponse s0 = (Ok response, s') ->
  SkipSignatureValidation (sp s0) = false ->
  decode X encodedResponse = inr root ->
  validateRoot X root s0 = (Ok responseSignatureValidated, s1) ->
  let l := found X (SAMLAssertionNamespace X) (AssertionTag X) (el s1) in
  exists b,
    (forall ctx c, In (Visit ctx c) l ->
                   signature_of X (sp s0) ctx c = Some b) /\
    (forall c ctx' ctx'',
        In c (Child (el s1)) ->
        SubContext X (DefaultNSContext X) (el s1) = inr ctx' ->
        SubContext X ctx' c = inr ctx'' ->
        LookupPrefix X ctx'' (Space c) = inr (SAMLAssertionNamespace X) ->
        Tag c = AssertionTag X ->
        signature_of X (sp s0) ctx'' c = Some b) /\
    (b = false -> responseSignatureValidated = true) /\
    (responseSignatureValidated = false -> l <> []).
Proof.
  intros H Hskip Hdec Hroot l.
  assert (Hmain : exists b,
             (forall ctx c, In (Visit ctx c) l ->
                            signature_of X (sp s0) ctx c = Some b) /\
             (b = false -> responseSignatureValidated = true) /\
             (responseSignatureValidated = false -> l <> [])).
  { rewrite ValidateEncodedResponse_decode, Hdec in H.
    rewrite (bind_Ok _ _ _ _ _ _ _ Hroot) in H.
    apply bind_inv_Ok in H. destruct H as ([] & s2 & Henf & _).
    destruct (validateRoot_Ok X root s0 _ _ Hroot) as (Hp & _).
    rewrite enforceSignatures_eq, Hp, Hskip in Henf.
    rewrite validateAssertionSignatures_eq in Henf. fold l in Henf.
    unfold bind in Henf.
    destruct (runPlan X (validateAssertion X) l (reset s1))
      as [[[]|e|msg] s3] eqn:Hrun.
    - pose proof (runPlan_validate_each _ _ _ Hrun) as Heach.
      destruct (runPlan_validate_counts X _ _ _ Hrun) as (_ & Hs & Hu).
      cbn in Heach, Hs, Hu. rewrite Hp in Heach, Hs, Hu.
      rewrite tally_eq, Hs, Hu in Henf.
      destruct (count_signature X (sp s0) true l) as [|n] eqn:Ht.
      + destruct (count_signature X (sp s0) false l) as [|m] eqn:Hf;
          cbn in Henf; (destruct responseSignatureValidated; [|discriminate]);
          exists false; (split; [|split; [reflexivity|discriminate]]);
          intros ctx c Hin; destruct (Heach ctx c Hin) as ([|] & Hb); auto;
          now elim (count_signature_zero _ _ _ _ _ Ht Hin).
      + destruct (count_signature X (sp s0) false l) as [|m] eqn:Hf;
          cbn in Henf; [|discriminate].
        exists true. split; [|split; [discriminate|]].
        * intros ctx c Hin. destruct (Heach ctx c Hin) as ([|] & Hb); auto.
          now elim (count_signature_zero _ _ _ _ _ Hf Hin).
        * intros _ Hl. rewrite Hl in Ht. discriminate.
    - pose proof (runPlan_validate_Err X _ _ _ _ Hrun) as He.
      destruct e; try discriminate. now elim He.
    - discriminate. }
  destruct Hmain as (b & H1 & H2 & H3). exists b.
  refine (conj H1 (conj _ (conj H2 H3))).
  intros c ctx' ctx'' Hc S1 S2 L T. apply H1.
  exact (found_child _ _ _ _ _ _ Hc S1 S2 L T).
Qed.

End AcceptedAssertions.

(** ** The key store over the whole call *)

Section KeyStoreKinds.

Context (X : Externals).

Lemma asks_key_events p : Forall (key_event p) (asks p).
Proof.
  unfold asks. destruct (SPKeyStore p) as [[crt|kp]|] eqn:E; repeat constructor.
  cbn. unfold asks. now rewrite E.
Qed.

Lemma keyed_intro p base s s' evs :
  keyed p base s ->
  sp s' = p ->
  (forall cert, decryptCert s' = Some cert -> resolve p = inr cert) ->
  calls s' = (evs ++ calls s)%list ->
  Forall (key_event p) evs ->
  keyed p base s'.
Proof.
  intros (_ & _ & new & E & F) H1 H2 H3 H4. split; [exact H1|].
  split; [exact H2|]. exists (evs ++ new)%list.
  rewrite H3, E, app_assoc. split; [reflexivity|].
  apply Forall_app. now split.
Qed.

(** The closure asks for the key pair and decrypts as the key store of
    the provider has it. *)
Lemma decryptAssertion_keyed p base ctx c :
  hoare (keyed p base) (decryptAssertion X ctx c)
    (fun _ => keyed p base) (keyed p base).
Proof.
  intros s Hs. pose proof Hs as (Hp & Hcache & _).
  pose proof (asks_key_events p) as Hasks.
  assert (Hstep : forall s' evs,
             sp s' = p ->
             (forall cert, decryptCert s' = Some cert -> resolve p = inr cert) ->
             calls s' = (evs ++ calls s)%list ->
             Forall (key_event p) evs ->
             keyed p base s').
  { intros s' evs. now apply keyed_intro. }
  assert (Hkeep : forall ev,
             key_event p ev ->
             keyed p base (logged ev s)).
  { intros ev Hev. apply Hstep with (evs := [ev]); auto. }
  rewrite decryptAssertion_eq.
  destruct (Parent c) as [[a parentTag]|]; [|exact Hs].
  destruct (negb (a =? addr (el s))%nat); [exact Hs|]. cbv zeta.
  assert (H1 : keyed p base (logged (NSDetatchCall c) s))
    by (apply Hkeep; exact I).
  destruct (NSDetatch X ctx c) as [err|detached]; [exact H1|].
  destruct (xmlUnmarshalElement X _ detached) as [e|enc]; [exact H1|].
  assert (H2 : match obtain X (logged (NSDetatchCall c) s) with
               | inl (_, s2) => keyed p base s2
               | inr (cert, s2) =>
                   keyed p base s2 /\ resolve p = inr cert /\
                   el s2 = el s
               end).
  { unfold obtain, logged. cbn [decryptCert set_calls sp calls].
    destruct (decryptCert s) as [cached|] eqn:Hc.
    - split; [exact H1|]. split; [now apply Hcache|reflexivity].
    - rewrite Hp.
      destruct (resolve p) as [e|cert] eqn:Hr.
      + apply Hstep with (evs := (asks p ++ [NSDetatchCall c])%list); cbn; auto.
        * intros cert. rewrite Hc. discriminate.
        * now rewrite <- app_assoc.
        * apply Forall_app. split; [exact Hasks|repeat constructor].
      + split; [|split; [reflexivity|reflexivity]].
        apply Hstep with (evs := (asks p ++ [NSDetatchCall c])%list); cbn; auto.
        * intros cert' E. now injection E as <-.
        * now rewrite <- app_assoc.
        * apply Forall_app. split; [exact Hasks|repeat constructor]. }
  destruct (obtain X (logged (NSDetatchCall c) s)) as [[e s2]|[cert s2]];
    [exact H2|].
  destruct H2 as (K2 & Hr & He).
  assert (H3 : keyed p base (logged (DecryptBytesCall enc cert) s2)).
  { pose proof K2 as (K21 & K22 & _).
    apply (keyed_intro p base s2 _ [DecryptBytesCall enc cert] K2);
      [exact K21|exact K22|reflexivity|].
    constructor; [exact Hr|constructor]. }
  destruct (DecryptBytes X enc cert) as [err|raw]; [exact H3|].
  destruct (ReadFromBytes X raw) as [err|doc]; [exact H3|].
  destruct (remove_child (addr c) _) as [rest|]; [|exact H3].
  destruct H3 as (K31 & K32 & K33).
  destruct (Root doc) as [plain|]; (split; [exact K31|split; [exact K32|exact K33]]).
Qed.

Lemma decryptAssertions_keyed s :
  keyed (sp s) (calls s) (snd (decryptAssertions X s)).
Proof.
  rewrite decryptAssertions_eq.
  assert (H0 : keyed (sp s) (calls s) (set_decryptCert None s)).
  { split; [reflexivity|]. split; [discriminate|]. exists []. now split. }
  pose proof (hoare_runPlan X (keyed (sp s) (calls s)) (keyed (sp s) (calls s))
                (decryptAssertion X)
                (found X (SAMLAssertionNamespace X) (EncryptedAssertionTag X)
                   (el s))
                (fun _ H => H)
                (decryptAssertion_keyed (sp s) (calls s))
                (set_decryptCert None s) H0) as H.
  cbn [el set_decryptCert] in *.
  destruct (runPlan X _ _ (set_decryptCert None s)) as [[[]|e|msg] s1];
    exact H.
Qed.

Lemma validateRoot_key_events root s :
  exists new,
    calls (snd (validateRoot X root s)) = (new ++ calls s)%list /\
    Forall (key_event (sp s)) new.
Proof.
  rewrite validateRoot_eq.
  assert (Hcont : forall (b : bool) s1 evs,
             sp s1 = sp s -> calls s1 = (evs ++ calls s)%list ->
             Forall (key_event (sp s)) evs ->
             exists new,
               calls (snd ((decryptAssertions X;; ret b) s1))
                 = (new ++ calls s)%list /\
               Forall (key_event (sp s)) new).
  { intros b s1 evs Hp Hc Hevs. rewrite snd_bind.
    destruct (decryptAssertions_keyed s1) as (_ & _ & new & E & F).
    rewrite Hp in F. exists (new ++ evs)%list. split.
    - destruct (decryptAssertions X s1) as [[[]|e|msg] s2]; cbn [snd ret] in *;
        now rewrite E, Hc, app_assoc.
    - apply Forall_app. now split. }
  destruct (SkipSignatureValidation (sp s)).
  - apply Hcont with (evs := []); auto.
  - destruct (dsig_Validate X (validationContext (sp s)) root) as [[v|]| |reason];
      try (apply Hcont with (evs := [ValidateCall root]);
           [reflexivity|reflexivity|repeat constructor]);
      exists [ValidateCall root]; split; try reflexivity; repeat constructor.
Qed.

(** X13: the key store over a whole call of [ValidateEncodedResponse],
    whatever the result.  [GetKeyPair] is called only on a key store that
    is not a [dsig.TLSCertKeyStore]; whatever is decrypted is decrypted
    with the TLS certificate itself for such a key store, and otherwise
    with the certificate made of the key and the one certificate that
    [GetKeyPair] returned.  Without a key store, or when [GetKeyPair]
    fails, nothing is decrypted. *)
Theorem key_store_decides_the_decryption encodedResponse s :
  exists new,
    calls (snd (ValidateEncodedResponse X encodedResponse s))
      = (new ++ calls s)%list /\
    (In GetKeyPairCall new ->
     exists GetKeyPair, SPKeyStore (sp s) = Some (OtherKeyStore GetKeyPair)) /\
    (forall enc cert,
        In (DecryptBytesCall enc cert) new ->
        match SPKeyStore (sp s) with
        | Some (TLSCertKeyStore crt) => cert = crt
        | Some (OtherKeyStore (inr (pk, c))) => cert = mkCertificate [c] pk
        | _ => False
        end).
Proof.
  assert (H : exists new,
             calls (snd (ValidateEncodedResponse X encodedResponse s))
               = (new ++ calls s)%list /\
             Forall (key_event (sp s)) new).
  { rewrite ValidateEncodedResponse_decode.
    destruct (decode X encodedResponse) as [err|root];
      [exists []; now split|].
    rewrite snd_bind.
    destruct (validateRoot_key_events root s) as (n1 & E1 & F1).
    destruct (validateRoot X root s) as [[flag|e|msg] s1]; cbn [snd] in E1;
      try (exists n1; now split).
    destruct (adds_bind _ _ validation_event (enforceSignatures X flag)
                (fun _ => unmarshalAndValidate X) (enforceSignatures_adds X flag)
                (fun _ => unmarshalAndValidate_adds X validation_event) s1)
      as (n2 & E2 & F2).
    exists (n2 ++ n1)%list. rewrite E2, E1, app_assoc. split; [reflexivity|].
    apply Forall_app. split; [|exact F1].
    eapply Forall_impl; [|exact F2].
    intros ev Hev. destruct ev; cbn in *; auto; contradiction. }
  destruct H as (new & E & F). exists new. split; [exact E|].
  rewrite Forall_forall in F. split.
  - intros Hin. specialize (F _ Hin). cbn in F. unfold asks in F.
    destruct (SPKeyStore (sp s)) as [[crt|kp]|]; try discriminate. eauto.
  - intros enc cert Hin. specialize (F _ Hin). cbn in F. unfold resolve in F.
    destruct (SPKeyStore (sp s)) as [[crt|[err|[pk c]]]|]; try discriminate;
      now injection F as <-.
Qed.

End KeyStoreKinds.

(** ** Elements without a parent *)

Section NilParent.

Context (X : Externals).

Lemma bind_Panic A B (m : M A) (k : A -> M B) s msg s' :
  m s = (Panic msg, s') -> bind m k s = (Panic msg, s').
Proof. intros H. unfold bind. now rewrite H. Qed.

(** X14: a located element whose [Parent()] is nil, such as a validated
    root that is itself an assertion element, does not end a pass with an
    error: building the message of the "unexpected parent element" error
    dereferences the nil parent.  Either closure panics with the state
    untouched, the pass panics in the state in which the element was
    reached, and so does [ValidateEncodedResponse] when this happens in
    the enforcement pass. *)
Theorem nil_parent_panics ctx c s :
  Parent c = None ->
  decryptAssertion X ctx c s = (Panic nil_dereference, s) /\
  validateAssertion X ctx c s = (Panic nil_dereference, s) /\
  (forall pre post s1,
      found X (SAMLAssertionNamespace X) (EncryptedAssertionTag X) (el s)
        = (pre ++ Visit ctx c :: post)%list ->
      runPlan X (decryptAssertion X) pre (set_decryptCert None s) = (Ok tt, s1) ->
      decryptAssertions X s = (Panic nil_dereference, s1)) /\
  (forall pre post s1,
      found X (SAMLAssertionNamespace X) (AssertionTag X) (el s)
        = (pre ++ Visit ctx c :: post)%list ->
      runPlan X (validateAssertion X) pre (reset s) = (Ok tt, s1) ->
      validateAssertionSignatures X s = (Panic nil_dereference, s1) /\
      forall encodedResponse root s0 responseSignatureValidated,
        decode X encodedResponse = inr root ->
        validateRoot X root s0 = (Ok responseSignatureValidated, s) ->
        SkipSignatureValidation (sp s) = false ->
        ValidateEncodedResponse X encodedResponse s0
          = (Panic nil_dereference, s1)).
Proof.
  intros HP.
  assert (Hd : forall s1, decryptAssertion X ctx c s1 = (Panic nil_dereference, s1)).
  { intros s1. now rewrite decryptAssertion_eq, HP. }
  assert (Hv : forall s1, validateAssertion X ctx c s1 = (Panic nil_dereference, s1)).
  { intros s1. now rewrite validateAssertion_eq, HP. }
  refine (conj (Hd s) (conj (Hv s) (conj _ _))).
  - intros pre post s1 Hfound Hpre.
    rewrite decryptAssertions_eq, Hfound, (runPlan_reach _ _ _ _ _ _ _ _ Hpre).
    apply bind_Panic, Hd.
  - intros pre post s1 Hfound Hpre.
    assert (Hpass : validateAssertionSignatures X s = (Panic nil_dereference, s1)).
    { rewrite validateAssertionSignatures_eq, Hfound. apply bind_Panic.
      rewrite (runPlan_reach _ _ _ _ _ _ _ _ Hpre). apply bind_Panic, Hv. }
    split; [exact Hpass|].
    intros enc root s0 flag Hdec Hroot Hskip.
    rewrite ValidateEncodedResponse_decode, Hdec.
    rewrite (bind_Ok _ _ _ _ _ _ _ Hroot). apply bind_Panic.
    now rewrite enforceSignatures_eq, Hskip, Hpass.
Qed.

End NilParent.

(** ** Further runs in the toy world *)

Lemma assertion_pass_verdicts_witness :
  fst (validateAssertionSignatures Demo.world
         (Demo.at_root "assertion" Demo.noStore)) = Ok tt /\
  fst (validateAssertionSignatures Demo.world
         (Demo.at_root "unsigned" Demo.noStore)) = Err ErrMissingSignature /\
  validateAssertionSignatures Demo.world (Demo.start Demo.noStore) =
    (Err ErrMissingSignature, reset (Demo.start Demo.noStore)).
Proof.
  refine (conj _ (conj _ _)).
  - rewrite (proj2 (proj1 (assertion_pass_verdicts Demo.world
                             (Demo.at_root "assertion" Demo.noStore))
                      (snd (validateAssertionSignatures Demo.world
                              (Demo.at_root "assertion" Demo.noStore)))));
      [reflexivity|].
    refine (conj _ (conj _ _)); vm_compute; [reflexivity|lia|reflexivity].
  - rewrite (proj2 (proj1 (proj2 (assertion_pass_verdicts Demo.world
                                    (Demo.at_root "unsigned" Demo.noStore)))
                      (snd (validateAssertionSignatures Demo.world
                              (Demo.at_root "unsigned" Demo.noStore)))));
      [reflexivity|].
    split; vm_compute; reflexivity.
  - apply (proj2 (proj2 (assertion_pass_verdicts Demo.world
                           (Demo.start Demo.noStore)))).
    reflexivity.
Defined.

Lemma unsigned_pass_leaves_tree_witness :
  el (snd (validateAssertionSignatures Demo.world
             (Demo.at_root "unsigned" Demo.noStore))) = Demo.rootOf "unsigned" /\
  fst ((enforceSignatures Demo.world true;; unmarshalAndValidate Demo.world)
         (Demo.at_root "unsigned" Demo.noStore))
    = Ok (mkResponse "https://sp/acs" "2.0" EmptyString).
Proof.
  destruct (unsigned_pass_leaves_tree Demo.world
              (Demo.at_root "unsigned" Demo.noStore)
              (snd (validateAssertionSignatures Demo.world
                      (Demo.at_root "unsigned" Demo.noStore))))
    as (H1 & _ & _ & _ & H5); [vm_compute; reflexivity|].
  split; [exact H1|]. rewrite (H5 eq_refl). reflexivity.
Defined.

Lemma accepted_response_has_trust_anchor_witness :
  exists root responseSignatureValidated s1,
    decode Demo.world "assertion" = inr root /\
    validateRoot Demo.world root (Demo.start Demo.noStore)
      = (Ok responseSignatureValidated, s1) /\
    ((responseSignatureValidated = true /\
      exists validated,
        dsig_Validate Demo.world (validationContext Demo.noStore) root
          = Validated (Some validated)) \/
     (responseSignatureValidated = false /\
      dsig_Validate Demo.world (validationContext Demo.noStore) root
        = MissingSignature /\
      validateAssertionSignatures Demo.world s1 =
        (Ok tt, snd (ValidateEncodedResponse Demo.world "assertion"
                       (Demo.start Demo.noStore))) /\
      let l := found Demo.world (SAMLAssertionNamespace Demo.world)
                 (AssertionTag Demo.world) (el s1) in
      1 <= count_signature Demo.world Demo.noStore true l /\
      count_signature Demo.world Demo.noStore false l = 0)).
Proof.
  apply (accepted_response_has_trust_anchor Demo.world "assertion"
           (Demo.start Demo.noStore)
           (mkResponse "https://sp/acs" "2.0" EmptyString)
           (snd (ValidateEncodedResponse Demo.world "assertion"
                   (Demo.start Demo.noStore))));
    [vm_compute; reflexivity|reflexivity].
Defined.

Lemma passes_keep_to_their_calls_witness :
  (exists new,
      calls (snd (decryptAssertions Demo.world
                    (Demo.at_root "encrypted" Demo.withKey))) = (new ++ [])%list /\
      Forall decryption_event new) /\
  (exists new,
      calls (snd (validateAssertionSignatures Demo.world
                    (Demo.at_root "mixed" Demo.withKey))) = (new ++ [])%list /\
      ~ In GetKeyPairCall new /\
      (forall d, In (ValidateCall d) new ->
         exists ctx c,
           In (Visit ctx c)
             (found Demo.world (SAMLAssertionNamespace Demo.world)
                (AssertionTag Demo.world) (Demo.rootOf "mixed")) /\
           NSDetatch Demo.world ctx c = inr d)).
Proof.
  destruct (passes_keep_to_their_calls Demo.world
              (Demo.at_root "encrypted" Demo.withKey)) as (H1 & _ & _).
  destruct (passes_keep_to_their_calls Demo.world
              (Demo.at_root "mixed" Demo.withKey))
    as (_ & (new & E & _ & V & K & _) & _).
  split; [exact H1|]. exists new. auto.
Defined.

Lemma skip_makes_no_signature_check_witness :
  (exists new,
      calls (snd (ValidateEncodedResponse Demo.world "unsigned"
                    (Demo.start (Demo.provider None true))))
        = (new ++ [])%list /\
      forall e, ~ In (ValidateCall e) new) /\
  fst (ValidateEncodedResponse Demo.world "unsigned"
         (Demo.start (Demo.provider None true)))
    = Ok (mkResponse "https://sp/acs" "2.0" EmptyString).
Proof.
  destruct (skip_makes_no_signature_check Demo.world "unsigned"
              (Demo.start (Demo.provider None true)) eq_refl) as (H1 & H2).
  split; [exact H1|].
  rewrite (H2 (Demo.rootOf "unsigned") eq_refl). reflexivity.
Defined.

Lemma calls_in_phases_witness :
  exists dnew vnew,
    calls (snd (ValidateEncodedResponse Demo.world "encrypted"
                  (Demo.start Demo.withKey))) =
      (vnew ++ dnew ++ [ValidateCall (Demo.rootOf "encrypted")])%list /\
    Forall decryption_event dnew /\
    Forall validation_event vnew.
Proof.
  exact (calls_in_phases Demo.world "encrypted" (Demo.rootOf "encrypted")
           (Demo.start Demo.withKey) eq_refl eq_refl).
Defined.

Lemma validated_copies_replace_assertions_witness :
  Child (el (snd (NSFindIterate Demo.world (Demo.rootOf "mixed")
                    (SAMLAssertionNamespace Demo.world)
                    (AssertionTag Demo.world)
                    (validateAssertion Demo.world)
                    (reset (Demo.at_root "mixed" Demo.noStore))))) =
    [Demo.plainAssertion 3;
     set_Parent (Some (1, "Response"))
       (mkElement 1002 "saml" "Assertion" [] EmptyString None [])] /\
  signedAssertions
    (snd (NSFindIterate Demo.world (Demo.rootOf "mixed")
            (SAMLAssertionNamespace Demo.world) (AssertionTag Demo.world)
            (validateAssertion Demo.world)
            (reset (Demo.at_root "mixed" Demo.noStore)))) = 1.
Proof.
  destruct (validated_copies_replace_assertions Demo.world
              (Demo.at_root "mixed" Demo.noStore)
              (snd (NSFindIterate Demo.world (Demo.rootOf "mixed")
                      (SAMLAssertionNamespace Demo.world)
                      (AssertionTag Demo.world)
                      (validateAssertion Demo.world)
                      (reset (Demo.at_root "mixed" Demo.noStore)))))
    as (_ & _ & N & H); [vm_compute; reflexivity|].
  split; [|exact N].
  destruct H as (E & _).
  - vm_compute. repeat constructor; cbn; intuition discriminate.
  - intros c t Hc Ht. vm_compute in Hc, Ht.
    destruct Hc as [<-|[]]. destruct Ht as [<-|[]]. vm_compute. discriminate.
  - rewrite E. reflexivity.
Defined.

Lemma decrypted_children_closed_form_witness :
  exists plains,
    Child (el (snd (decryptAssertions Demo.world
                      (Demo.at_root "encrypted" Demo.withKey)))) =
      adopted (1, "Response") plains /\
    forall c,
      In c [Demo.encryptedAssertion 2 "cipher";
            Demo.encryptedAssertion 3 "cipher2"] ->
      ~ In (addr c)
          (map addr
             (Child (el (snd (decryptAssertions Demo.world
                                (Demo.at_root "encrypted" Demo.withKey)))))).
Proof.
  destruct (decrypted_children_closed_form Demo.world
              (Demo.at_root "encrypted" Demo.withKey)
              (snd (decryptAssertions Demo.world
                      (Demo.at_root "encrypted" Demo.withKey))))
    as (plains & _ & E & G).
  - vm_compute. reflexivity.
  - vm_compute. repeat constructor; cbn; intuition discriminate.
  - intros ctx c cert plain c' Hin (d & enc & raw & doc & H1 & H2 & H3 & H4 & H5)
      Hc'.
    assert (Hplain : addr plain = 50 \/ addr plain = 60).
    { vm_compute in Hin. destruct Hin as [Hin|[Hin|[]]];
        injection Hin as <- <-; cbn in H1; injection H1 as <-;
        vm_compute in H2; injection H2 as <-;
        cbn [DecryptBytes Demo.world] in H3;
        destruct (PrivateKey cert =? "key"); try discriminate H3;
        vm_compute in H3; injection H3 as <-;
        vm_compute in H4; injection H4 as <-;
        vm_compute in H5; injection H5 as <-; auto. }
    vm_compute in Hc'.
    destruct Hc' as [<-|[<-|[]]]; cbn [addr Demo.encryptedAssertion Demo.node];
      destruct Hplain as [-> | ->]; discriminate.
  - exists plains. split; [exact E|exact G].
Defined.

Lemma enforcement_pass_does_not_panic_witness :
  (forall msg s',
      validateAssertionSignatures Demo.world (Demo.at_root "mixed" Demo.noStore)
        <> (Panic msg, s')) /\
  fst (validateAssertionSignatures Demo.world
         (Demo.at_root "mixed" Demo.noStore))
    = Err (Errorf "invalid to have both signed and unsigned assertions").
Proof.
  split; [|reflexivity].
  apply (enforcement_pass_does_not_panic Demo.world
           (Demo.at_root "mixed" Demo.noStore)).
  - split.
    + vm_compute. repeat constructor; cbn; intuition discriminate.
    + intros c Hc. vm_compute in Hc.
      destruct Hc as [<-|[<-|[]]]; (split; [discriminate|]);
        intros t _; vm_compute; auto.
  - intros ctx c d Hin Hd. vm_compute in Hin.
    destruct Hin as [Hin|[Hin|[]]]; injection Hin as <- <-;
      cbn in Hd; injection Hd as <-; vm_compute; discriminate.
Defined.

Lemma decryption_pass_does_not_panic_witness :
  (forall msg s',
      decryptAssertions Demo.world (Demo.at_root "encrypted" Demo.withKey)
        <> (Panic msg, s')) /\
  fst (decryptAssertions Demo.world (Demo.at_root "encrypted" Demo.withKey))
    = Ok tt.
Proof.
  split; [|reflexivity].
  apply (decryption_pass_does_not_panic Demo.world
           (Demo.at_root "encrypted" Demo.withKey)).
  - split.
    + vm_compute. repeat constructor; cbn; intuition discriminate.
    + intros c Hc. vm_compute in Hc.
      destruct Hc as [<-|[<-|[]]]; (split; [discriminate|]);
        intros t _; vm_compute; auto.
  - intros ctx c d enc cert raw doc Hin H1 H2 H3 H4.
    vm_compute in Hin. destruct Hin as [Hin|[Hin|[]]];
      injection Hin as <- <-; cbn in H1; injection H1 as <-;
      vm_compute in H2; injection H2 as <-;
      cbn [DecryptBytes Demo.world] in H3;
      destruct (PrivateKey cert =? "key"); try discriminate H3;
      vm_compute in H3; injection H3 as <-;
      vm_compute in H4; injection H4 as <-; discriminate.
Defined.

Lemma located_elements_are_children_witness :
  In (Demo.encryptedAssertion 3 "cipher2") (Child (Demo.rootOf "encrypted")) /\
  In (Demo.signedAssertion 2) (Child (Demo.rootOf "assertion")).
Proof.
  assert (Hflat : forall attrs dest cs,
             Forall (fun c => Parent c = Some (1, "Response") /\ Child c = []) cs ->
             Forall (fun c => addr c <> 1) cs ->
             parented (Demo.response attrs dest cs) /\
             (forall t, Parent (Demo.response attrs dest cs) <> Some (1, t)) /\
             (forall d, below (Demo.response attrs dest cs) d -> addr d <> 1)).
  { intros attrs dest cs Hcs Haddr. refine (conj _ (conj _ _)).
    - constructor. cbn. eapply Forall_impl; [|exact Hcs].
      intros c [HP HC]. split; [exact HP|]. constructor. rewrite HC. constructor.
    - discriminate.
    - rewrite Forall_forall in Hcs, Haddr.
      intros d Hd. inversion Hd as [c Hc|p c Hp Hbelow]; subst; cbn in *.
      + now apply Haddr.
      + destruct (Hcs p Hp) as [_ HC].
        inversion Hbelow as [c' Hc'|p' c' Hp' _]; subst;
          rewrite HC in *; contradiction. }
  split.
  - destruct (Hflat [("sig", "ok")] "https://sp/acs"
                [Demo.encryptedAssertion 2 "cipher";
                 Demo.encryptedAssertion 3 "cipher2"])
      as (H1 & H2 & H3); [repeat constructor|repeat constructor; discriminate|].
    apply (proj1 (located_elements_are_children Demo.world
                    (Demo.at_root "encrypted" Demo.withKey) H1 H2 H3)
             (snd (decryptAssertions Demo.world
                     (Demo.at_root "encrypted" Demo.withKey)))
             tt (Demo.encryptedAssertion 3 "cipher2")).
    + vm_compute. reflexivity.
    + vm_compute. auto.
  - destruct (Hflat [] "https://sp/acs" [Demo.signedAssertion 2])
      as (H1 & H2 & H3); [repeat constructor|repeat constructor; discriminate|].
    apply (proj2 (located_elements_are_children Demo.world
                    (Demo.at_root "assertion" Demo.noStore) H1 H2 H3)
             (snd (validateAssertionSignatures Demo.world
                     (Demo.at_root "assertion" Demo.noStore)))
             tt (Demo.signedAssertion 2)).
    + vm_compute. reflexivity.
    + vm_compute. auto.
Defined.

Lemma accepted_assertions_uniform_witness :
  exists b,
    (forall ctx c,
        In (Visit ctx c)
          (found Demo.world (SAMLAssertionNamespace Demo.world)
             (AssertionTag Demo.world)
             (el (snd (validateRoot Demo.world (Demo.rootOf "assertion")
                         (Demo.start Demo.noStore))))) ->
        signature_of Demo.world Demo.noStore ctx c = Some b) /\
    signature_of Demo.world Demo.noStore tt (Demo.signedAssertion 2) = Some b /\
    (b = false -> false = true).
Proof.
  destruct (accepted_assertions_uniform Demo.world "assertion"
              (Demo.start Demo.noStore)
              (mkResponse "https://sp/acs" "2.0" EmptyString)
              (snd (ValidateEncodedResponse Demo.world "assertion"
                      (Demo.start Demo.noStore)))
              (Demo.rootOf "assertion") false
              (snd (validateRoot Demo.world (Demo.rootOf "assertion")
                      (Demo.start Demo.noStore))))
    as (b & H1 & H2 & H3 & _);
    [vm_compute; reflexivity | reflexivity | reflexivity
    | vm_compute; reflexivity |].
  exists b. refine (conj H1 (conj _ H3)).
  apply (H2 (Demo.signedAssertion 2) tt tt); try reflexivity.
  vm_compute. auto.
Defined.

Lemma key_store_decides_the_decryption_witness :
  exists new,
    calls (snd (ValidateEncodedResponse Demo.world "encrypted"
                  (Demo.start
                     (Demo.provider
                        (Some (TLSCertKeyStore (mkCertificate ["cert"] "key")))
                        false))))
      = (new ++ [])%list /\
    ~ In GetKeyPairCall new /\
    (forall enc cert,
        In (DecryptBytesCall enc cert) new ->
        cert = mkCertificate ["cert"] "key").
Proof.
  destruct (key_store_decides_the_decryption Demo.world "encrypted"
              (Demo.start
                 (Demo.provider
                    (Some (TLSCertKeyStore (mkCertificate ["cert"] "key")))
                    false)))
    as (new & E & H1 & H2).
  exists new. refine (conj E (conj _ H2)).
  intros Hin. destruct (H1 Hin) as (kp & Hkp). discriminate Hkp.
Defined.

Lemma nil_parent_panics_witness :
  validateAssertionSignatures Demo.world
    (set_el (mkElement 7 "saml" "Assertion" [] EmptyString None [])
       (Demo.start Demo.noStore)) =
  (Panic nil_dereference,
   reset (set_el (mkElement 7 "saml" "Assertion" [] EmptyString None [])
            (Demo.start Demo.noStore))) /\
  fst (decryptAssertions Demo.world
         (set_el (mkElement 7 "saml" "EncryptedAssertion" [] EmptyString None [])
            (Demo.start Demo.withKey))) = Panic nil_dereference.
Proof.
  split.
  - apply (proj2 (proj2 (proj2
             (nil_parent_panics Demo.world tt
                (mkElement 7 "saml" "Assertion" [] EmptyString None [])
                (set_el (mkElement 7 "saml" "Assertion" [] EmptyString None [])
                   (Demo.start Demo.noStore))
                eq_refl))) [] []);
      reflexivity.
  - rewrite (proj1 (proj2 (proj2
               (nil_parent_panics Demo.world tt
                  (mkElement 7 "saml" "EncryptedAssertion" [] EmptyString None [])
                  (set_el (mkElement 7 "saml" "EncryptedAssertion" []
                             EmptyString None [])
                     (Demo.start Demo.withKey))
                  eq_refl))) [] []
               (set_decryptCert None
                  (set_el (mkElement 7 "saml" "EncryptedAssertion" []
                             EmptyString None [])
                     (Demo.start Demo.withKey))));
      reflexivity.
Defined.
